(** * dnsmasq block-data pool ([src/dnsmasq/blockdata.c])

    A shallow embedding of the fixed-size-block pool of dnsmasq: the global
    free list with its three counters, and the chain operations built on it
    ([blockdata_alloc], [blockdata_read], [blockdata_expand],
    [blockdata_free], [blockdata_retrieve], [blockdata_write],
    [blockdata_report]).

    Memory is an arena: a [struct blockdata *] is the index of a block in the
    list [arena] (blocks are never handed back to the C allocator), and a
    byte buffer obtained from [whine_malloc] is an index in [bufs].  [NULL]
    is [None].  The file-scope statics of blockdata.c, the two function-scope
    statics of [blockdata_retrieve] and the external collaborators
    ([whine_malloc], [read_write], [my_syslog]) are fields of one [state]. *)

From Stdlib Require Import ZArith List Lia Bool String.
From Stdlib.Strings Require Import Byte.
From stdpp Require Import base option list.

Open Scope Z_scope.

(** ** Outcome of a run of C code *)

(** [Crash] is undefined behaviour (null or dangling dereference, access
    outside a buffer); [Diverge] is a loop that does not terminate. *)
Inductive result (A : Type) : Type :=
| Ok (a : A)
| Crash
| Diverge.
Arguments Ok {A} a.
Arguments Crash {A}.
Arguments Diverge {A}.

(** ** Data model *)

(** [struct blockdata { struct blockdata *next; unsigned char key[KEYBLOCK_LEN]; }] *)
Record blockdata : Type := mkBlock {
  next : option nat;
  key : list byte
}.

Record state : Type := mkState {
  (* static struct blockdata *keyblock_free; *)
  keyblock_free : option nat;
  (* static unsigned int blockdata_count, blockdata_hwm, blockdata_alloced; *)
  blockdata_count : Z;
  blockdata_hwm : Z;
  blockdata_alloced : Z;
  (* static unsigned int buff_len; static unsigned char *buff;  (blockdata_retrieve) *)
  buff_len : Z;
  buff : option nat;
  (* every struct blockdata obtained so far from whine_malloc *)
  arena : list blockdata;
  (* byte buffers: the caller's and those of whine_malloc; None once freed *)
  bufs : list (option (list byte));
  (* whine_malloc: the answers to its future calls.  None or an exhausted
     list is a NULL return, Some c a success whose memory holds byte c. *)
  mallocs : list (option byte);
  (* read_write(fd, ., ., RW_READ): the bytes still to come on each descriptor *)
  streams : list (Z * list byte);
  (* my_syslog: the argument triples of the messages emitted, latest first *)
  syslog : list (Z * Z * Z);
  (* ghost: every value blockdata_count has been given, latest first *)
  count_trace : list Z
}.

Definition M (A : Type) : Type := state -> result (A * state).

Definition ret {A} (a : A) : M A := fun st => Ok (a, st).

Definition bind {A B} (m : M A) (k : A -> M B) : M B :=
  fun st =>
    match m st with
    | Ok (a, st') => k a st'
    | Crash => Crash
    | Diverge => Diverge
    end.

Definition crash {A} : M A := fun _ => Crash.
Definition diverge {A} : M A := fun _ => Diverge.

Definition gets {A} (f : state -> A) : M A := fun st => Ok (f st, st).
Definition modify (f : state -> state) : M unit := fun st => Ok (tt, f st).

Declare Scope pool_scope.
Delimit Scope pool_scope with pool.
Notation "'do' x <- m ; k" := (bind m (fun x => k))
  (at level 10, x name, m at level 100, k at level 200,
   format "'[v' 'do'  x  <-  m ; '/' k ']'") : pool_scope.
Notation "m ;; k" := (bind m (fun _ => k))
  (at level 100, k at level 200, right associativity) : pool_scope.
Open Scope pool_scope.

(** unsigned int arithmetic *)
Definition UINT_MOD : Z := 2 ^ 32.
Definition u32 (z : Z) : Z := z mod UINT_MOD.

(** *** Field updates *)

Definition set_free (p : option nat) (st : state) : state :=
  mkState p (blockdata_count st) (blockdata_hwm st) (blockdata_alloced st)
    (buff_len st) (buff st) (arena st) (bufs st) (mallocs st) (streams st)
    (syslog st) (count_trace st).

(** every assignment to [blockdata_count] is recorded in the ghost trace *)
Definition set_count (c : Z) (st : state) : state :=
  mkState (keyblock_free st) c (blockdata_hwm st) (blockdata_alloced st)
    (buff_len st) (buff st) (arena st) (bufs st) (mallocs st) (streams st)
    (syslog st) (c :: count_trace st).

Definition set_hwm (h : Z) (st : state) : state :=
  mkState (keyblock_free st) (blockdata_count st) h (blockdata_alloced st)
    (buff_len st) (buff st) (arena st) (bufs st) (mallocs st) (streams st)
    (syslog st) (count_trace st).

Definition set_alloced (a : Z) (st : state) : state :=
  mkState (keyblock_free st) (blockdata_count st) (blockdata_hwm st) a
    (buff_len st) (buff st) (arena st) (bufs st) (mallocs st) (streams st)
    (syslog st) (count_trace st).

Definition set_buff (p : option nat) (st : state) : state :=
  mkState (keyblock_free st) (blockdata_count st) (blockdata_hwm st)
    (blockdata_alloced st) (buff_len st) p (arena st) (bufs st) (mallocs st)
    (streams st) (syslog st) (count_trace st).

Definition set_arena (m : list blockdata) (st : state) : state :=
  mkState (keyblock_free st) (blockdata_count st) (blockdata_hwm st)
    (blockdata_alloced st) (buff_len st) (buff st) m (bufs st) (mallocs st)
    (streams st) (syslog st) (count_trace st).

Definition set_bufs (m : list (option (list byte))) (st : state) : state :=
  mkState (keyblock_free st) (blockdata_count st) (blockdata_hwm st)
    (blockdata_alloced st) (buff_len st) (buff st) (arena st) m (mallocs st)
    (streams st) (syslog st) (count_trace st).

Definition set_mallocs (o : list (option byte)) (st : state) : state :=
  mkState (keyblock_free st) (blockdata_count st) (blockdata_hwm st)
    (blockdata_alloced st) (buff_len st) (buff st) (arena st) (bufs st) o
    (streams st) (syslog st) (count_trace st).

Definition set_streams (s : list (Z * list byte)) (st : state) : state :=
  mkState (keyblock_free st) (blockdata_count st) (blockdata_hwm st)
    (blockdata_alloced st) (buff_len st) (buff st) (arena st) (bufs st)
    (mallocs st) s (syslog st) (count_trace st).

Definition set_syslog (l : list (Z * Z * Z)) (st : state) : state :=
  mkState (keyblock_free st) (blockdata_count st) (blockdata_hwm st)
    (blockdata_alloced st) (buff_len st) (buff st) (arena st) (bufs st)
    (mallocs st) (streams st) l (count_trace st).

(** *** Memory accesses *)

(** [b->next], [b->key] *)
Definition load (b : option nat) : M blockdata :=
  fun st =>
    match b with
    | None => Crash
    | Some a => match arena st !! a with
                | Some blk => Ok (blk, st)
                | None => Crash
                end
    end.

(** [b->next = p] *)
Definition store_next (b : option nat) (p : option nat) : M unit :=
  do blk <- load b;
  fun st =>
    match b with
    | Some a => Ok (tt, set_arena (<[a := mkBlock p (key blk)]> (arena st)) st)
    | None => Crash
    end.

(** [memcpy(dst + off, src, length src)] on a byte array [dst] *)
Definition splice (dst : list byte) (off : nat) (src : list byte) : list byte :=
  take off dst ++ src ++ drop (off + length src) dst.

(** bounds-checked accesses to a byte array: [None] is an access outside it *)
Definition bytes_at (src : list byte) (off n : nat) : option (list byte) :=
  if (off + n <=? length src)%nat then Some (take n (drop off src)) else None.

Definition write_at (dst : list byte) (off : nat) (src : list byte) : option (list byte) :=
  if (off + length src <=? length dst)%nat then Some (splice dst off src) else None.

(** [memcpy(&b->key[off], src, length src)] *)
Definition memcpy_key (b : option nat) (off : nat) (src : list byte) : M unit :=
  do blk <- load b;
  match b, write_at (key blk) off src with
  | Some a, Some k =>
      modify (fun st => set_arena (<[a := mkBlock (next blk) k]> (arena st)) st)
  | _, _ => crash
  end.

(** [memcpy(d + off, src, length src)] for [d] a byte buffer *)
Definition memcpy_buf (d : option nat) (off : nat) (src : list byte) : M unit :=
  fun st =>
    match d with
    | None => Crash
    | Some i =>
        match bufs st !! i with
        | Some (Some old) =>
            match write_at old off src with
            | Some new => Ok (tt, set_bufs (<[i := Some new]> (bufs st)) st)
            | None => Crash
            end
        | _ => Crash
        end
    end.

(** the first [n] bytes behind a [char *]; a null or too short source is
    an invalid read *)
Definition read_src (data : option (list byte)) (n : nat) : M (list byte) :=
  match data with
  | Some d => match bytes_at d 0 n with
              | Some bs => ret bs
              | None => crash
              end
  | None => crash
  end.

(** [free(p)] for a byte buffer *)
Definition free_buf (p : nat) : M unit :=
  fun st =>
    match bufs st !! p with
    | Some (Some _) => Ok (tt, set_bufs (<[p := None]> (bufs st)) st)
    | _ => Crash
    end.

(** ** External collaborators *)

(** Modelled from the spec: [whine_malloc] (util.c, not part of the
    sources at hand), the bulk-memory source: "an allocation primitive that
    may fail".  Its answer is the head of [mallocs]; the memory it returns is
    new, of the size asked for, with unspecified (here: constant) contents.
    This instance serves requests for byte buffers. *)
Definition whine_malloc (size : nat) : M (option nat) :=
  fun st =>
    match mallocs st with
    | Some c :: rest =>
        Ok (Some (length (bufs st)),
            set_bufs (bufs st ++ [Some (replicate size c)]) (set_mallocs rest st))
    | _ => Ok (None, set_mallocs (tail (mallocs st)) st)
    end.

(** Modelled from the spec: [read_write(fd, buf, n, RW_READ)] (util.c, not
    part of the sources at hand): "read_exact(fd, buffer, n) ->
    success/failure", "treating short transfer as failure".  Returns the
    bytes that arrived and whether they are all [n] of them. *)
Definition read_write_read (fd : Z) (n : nat) : M (list byte * bool) :=
  fun st =>
    match List.find (fun e => Z.eqb (fst e) fd) (streams st) with
    | Some (_, s) =>
        let rest := List.filter (fun e => negb (Z.eqb (fst e) fd)) (streams st) in
        Ok ((take n s, (n <=? length s)%nat),
            set_streams ((fd, drop n s) :: rest) st)
    | None => Ok (([], false), st)
    end.

(** Modelled from the spec: [read_write(fd, buf, n, RW_WRITE)] (util.c, not
    part of the sources at hand): "write_exact(fd, buffer, n) ->
    success/failure", on "the byte-stream read/write primitive used for
    persistence".  A descriptor is a stream: what is written to it is added
    behind the bytes still to come on it, and a later read on the same
    stream finds it there.  A write to a descriptor that is not open fails
    and transfers nothing. *)
Definition read_write_write (fd : Z) (bs : list byte) : M bool :=
  fun st =>
    match List.find (fun e => Z.eqb (fst e) fd) (streams st) with
    | Some (_, s) =>
        let rest := List.filter (fun e => negb (Z.eqb (fst e) fd)) (streams st) in
        Ok (true, set_streams ((fd, s ++ bs) :: rest) st)
    | None => Ok (false, st)
    end.

(** the bytes still to come on the descriptor [fd]; [None] when it is not
    open *)
Definition pending (fd : Z) (st : state) : option (list byte) :=
  snd <$> List.find (fun e => Z.eqb (fst e) fd) (streams st).

(** Modelled from the spec: [my_syslog] (log.c, not part of the sources at
    hand), the "reporting sink (formatted message consumer)": it records the
    three arguments of the one format string blockdata.c uses. *)
Definition my_syslog (args : Z * Z * Z) : M unit :=
  modify (fun st => set_syslog (args :: syslog st) st).

(** ** The pool and the chain operations *)

Section Blockdata.

(** [KEYBLOCK_LEN] and [struct blockdata] are declared in dnsmasq.h, which
    is not part of the sources at hand; so is the width of [size_t]. *)
Variable KEYBLOCK_LEN : nat.
Variable sizeof_blockdata : Z.
Variable size_bits : Z.

(** [size_t] arithmetic *)
Definition to_size_t (z : Z) : Z := z mod 2 ^ size_bits.

(** [whine_malloc(size)] for an array of [struct blockdata]: the memory
    granted holds as many blocks as fit in [size] bytes. *)
Definition whine_malloc_blocks (size : Z) : M (option (nat * nat)) :=
  fun st =>
    match mallocs st with
    | Some c :: rest =>
        let cnt := Z.to_nat (size / sizeof_blockdata) in
        Ok (Some (length (arena st), cnt),
            set_arena (arena st ++ replicate cnt (mkBlock None (replicate KEYBLOCK_LEN c)))
              (set_mallocs rest st))
    | _ => Ok (None, set_mallocs (tail (mallocs st)) st)
    end.

(** [&new[i]] in the array of [cnt] blocks at [base] *)
Definition elem (new : nat * nat) (i : Z) : M (option nat) :=
  if (0 <=? i) && (i <? Z.of_nat (snd new))
  then ret (Some (fst new + Z.to_nat i)%nat)
  else crash.

(** [for (i = 0; i < n - 1; i++) new[i].next = &new[i+1];] *)
Fixpoint link_blocks (new : nat * nat) (i : Z) (todo : nat) : M unit :=
  match todo with
  | O => ret tt
  | S todo' =>
      do p <- elem new i;
      do q <- elem new (i + 1);
      store_next p q ;;
      link_blocks new (i + 1) todo'
  end.

Definition add_blocks (n : Z) : M unit :=
  do new <- whine_malloc_blocks (to_size_t (n * sizeof_blockdata));
  match new with
  | Some arr =>
      do last <- elem arr (n - 1);
      do fr <- gets keyblock_free;
      store_next last fr ;;
      modify (set_free (Some (fst arr))) ;;
      link_blocks arr 0 (Z.to_nat (n - 1)) ;;
      modify (fun st => set_alloced (u32 (blockdata_alloced st + n)) st)
  | None => ret tt
  end.

(** [option_bool(OPT_DNSSEC_VALID)] and [daemon->cachesize] are passed in. *)
Definition blockdata_init (dnssec_valid : bool) (cachesize : Z) : M unit :=
  modify (set_free None) ;;
  modify (set_alloced 0) ;;
  modify (set_count 0) ;;
  modify (set_hwm 0) ;;
  if dnssec_valid then add_blocks cachesize else ret tt.

Definition blockdata_report : M unit :=
  do st <- gets id;
  my_syslog (to_size_t (blockdata_count st * sizeof_blockdata),
             to_size_t (blockdata_hwm st * sizeof_blockdata),
             to_size_t (blockdata_alloced st * sizeof_blockdata)).

(** [if (blockdata_hwm < blockdata_count) blockdata_hwm = blockdata_count;] *)
Definition bump_hwm (st : state) : state :=
  if blockdata_hwm st <? blockdata_count st
  then set_hwm (blockdata_count st) st else st.

Definition new_block : M (option nat) :=
  do fr <- gets keyblock_free;
  (if fr is None then add_blocks 50 else ret tt) ;;
  do fr <- gets keyblock_free;
  match fr with
  | Some _ =>
      let block := fr in
      do blk <- load block;
      modify (set_free (next blk)) ;;
      modify (fun st => set_count (u32 (blockdata_count st + 1)) st) ;;
      modify bump_hwm ;;
      store_next block None ;;
      ret block
  | None => ret None
  end.

(** [for (tmp = blocks; tmp->next; tmp = tmp->next) blockdata_count--;]
    A walk of more steps than the arena has blocks has entered a cycle. *)
Fixpoint free_walk (fuel : nat) (tmp : option nat) : M (option nat) :=
  match fuel with
  | O => diverge
  | S fuel' =>
      do blk <- load tmp;
      match next blk with
      | Some _ =>
          modify (fun st => set_count (u32 (blockdata_count st - 1)) st) ;;
          free_walk fuel' (next blk)
      | None => ret tmp
      end
  end.

Definition blockdata_free (blocks : option nat) : M unit :=
  match blocks with
  | Some _ =>
      do n <- gets (fun st => length (arena st));
      do tmp <- free_walk (S n) blocks;
      do fr <- gets keyblock_free;
      store_next tmp fr ;;
      modify (set_free blocks) ;;
      modify (fun st => set_count (u32 (blockdata_count st - 1)) st)
  | None => ret tt
  end.

(** [*prev = block], where [prev] is [&ret] ([None]) or [&a->next]
    ([Some a]); returns the value of [ret] afterwards. *)
Definition assign_prev (prev : option nat) (block : option nat)
    (ret_ : option nat) : M (option nat) :=
  match prev with
  | None => ret block
  | Some _ => store_next prev block ;; ret ret_
  end.

(** The body of [if ((blen = ...) > 0)] in [blockdata_alloc_real]: fill the
    block from the buffer or from the descriptor.  [None] is the failed read;
    otherwise the source pointer for the next round is returned. *)
Definition fill_block (fd : Z) (data : option (list byte)) (block : option nat)
    (blen : nat) : M (option (option (list byte))) :=
  if (0 <? blen)%nat then
    match data with
    | Some d =>
        do bs <- read_src data blen;
        memcpy_key block 0 bs ;;
        ret (Some (Some (drop blen d)))
    | None =>
        do r <- read_write_read fd blen;
        memcpy_key block 0 (fst r) ;;
        if snd r then ret (Some None) else ret None
    end
  else ret (Some data).

(** The do-while of [blockdata_alloc_real].  Every iteration but the last
    takes [KEYBLOCK_LEN] bytes off [len]. *)
Fixpoint alloc_loop (fuel : nat) (fd : Z) (data : option (list byte)) (len : nat)
    (ret_ prev : option nat) : M (option nat) :=
  match fuel with
  | O => diverge
  | S fuel' =>
      do block <- new_block;
      match block with
      | None =>
          (* failed to alloc, free partial chain *)
          blockdata_free ret_ ;; ret None
      | Some _ =>
          let blen := if (KEYBLOCK_LEN <? len)%nat then KEYBLOCK_LEN else len in
          do cont <- fill_block fd data block blen;
          match cont with
          | None =>
              (* failed read free partial chain *)
              blockdata_free ret_ ;; ret None
          | Some data' =>
              let len' := (len - blen)%nat in
              do ret' <- assign_prev prev block ret_;
              if (len' =? 0)%nat then ret ret'
              else alloc_loop fuel' fd data' len' ret' block
          end
      end
  end.

Definition blockdata_alloc_real (fd : Z) (data : option (list byte)) (len : nat)
    : M (option nat) :=
  alloc_loop (S len) fd data len None None.

Definition blockdata_alloc (data : option (list byte)) (len : nat) : M (option nat) :=
  blockdata_alloc_real 0 data len.

Definition blockdata_read (fd : Z) (len : nat) : M (option nat) :=
  blockdata_alloc_real fd None len.

(** [for (b = block; oldlen > KEYBLOCK_LEN && b; b = b->next, oldlen -= KEYBLOCK_LEN);] *)
Fixpoint expand_find (fuel : nat) (b : option nat) (oldlen : nat)
    : M (option nat * nat) :=
  match fuel with
  | O => diverge
  | S fuel' =>
      if (KEYBLOCK_LEN <? oldlen)%nat && bool_decide (is_Some b) then
        do blk <- load b;
        expand_find fuel' (next blk) (oldlen - KEYBLOCK_LEN)%nat
      else ret (b, oldlen)
  end.

(** The body of [if (size != 0)] in [blockdata_expand]; returns [data] and
    [newlen] as they are afterwards. *)
Definition expand_copy (b : option nat) (oldlen : nat) (data : option (list byte))
    (newlen size : nat) : M (option (list byte) * nat) :=
  if negb (size =? 0)%nat then
    do bs <- read_src data size;
    memcpy_key b oldlen bs ;;
    ret (option_map (drop size) data, (newlen - size)%nat)
  else ret (data, newlen).

(** The [while (1)] of [blockdata_expand]. *)
Fixpoint expand_loop (fuel : nat) (block b : option nat) (oldlen : nat)
    (data : option (list byte)) (newlen : nat) : M Z :=
  match fuel with
  | O => diverge
  | S fuel' =>
      let blocksize := (KEYBLOCK_LEN - oldlen)%nat in
      let size := if (newlen <=? blocksize)%nat then newlen else blocksize in
      do cur <- expand_copy b oldlen data newlen size;
      (* full blocks from now on. *)
      if (snd cur =? 0)%nat then ret 1
      else
        do new <- new_block;
        match new with
        | Some _ =>
            store_next b new ;;
            expand_loop fuel' block new 0 (fst cur) (snd cur)
        | None =>
            (* failed to alloc, free partial chain *)
            blockdata_free block ;; ret 0
        end
  end.

Definition blockdata_expand (block : option nat) (oldlen : nat)
    (data : option (list byte)) (newlen : nat) : M Z :=
  do found <- expand_find (S oldlen) block oldlen;
  let '(b, oldlen') := found in
  (* chain to short for length, something is broken *)
  if (KEYBLOCK_LEN <? oldlen')%nat then
    blockdata_free block ;; ret 0
  else expand_loop (S (S newlen)) block b oldlen' data newlen.

(** [for (d = data, b = block; len > 0 && b; b = b->next)] of
    [blockdata_retrieve]; [d] is the buffer [data] and the offset in it. *)
Fixpoint retrieve_loop (fuel : nat) (data : option nat) (off : nat)
    (b : option nat) (len : nat) : M unit :=
  match fuel with
  | O => diverge
  | S fuel' =>
      if (0 <? len)%nat && bool_decide (is_Some b) then
        do blk <- load b;
        let blen := if (KEYBLOCK_LEN <? len)%nat then KEYBLOCK_LEN else len in
        match bytes_at (key blk) 0 blen with
        | Some bs =>
            memcpy_buf data off bs ;;
            retrieve_loop fuel' data (off + blen)%nat (next blk) (len - blen)%nat
        | None => crash
        end
      else ret tt
  end.

(** The outer [option] of the first step is the early [return NULL]. *)
Definition blockdata_retrieve (block : option nat) (len : nat) (data : option nat)
    : M (option nat) :=
  do dest <-
    (match data with
     | None =>
         do bl <- gets buff_len;
         if bl <? Z.of_nat len then
           do new <- whine_malloc len;
           match new with
           | None => ret None
           | Some _ =>
               do old <- gets buff;
               (if old is Some p then free_buf p else ret tt) ;;
               modify (set_buff new) ;;
               do cur <- gets buff;
               ret (Some cur)
           end
         else
           do cur <- gets buff;
           ret (Some cur)
     | Some _ => ret (Some data)
     end);
  match dest with
  | None => ret None
  | Some data' =>
      retrieve_loop (S len) data' 0 block len ;;
      ret data'
  end.

(** [for (; len > 0 && block; block = block->next)] of [blockdata_write].
    The value [read_write] returns is not looked at.  With [KEYBLOCK_LEN]
    positive every iteration takes at least one byte off [len]. *)
Fixpoint write_loop (fuel : nat) (block : option nat) (len : nat) (fd : Z)
    : M unit :=
  match fuel with
  | O => diverge
  | S fuel' =>
      if (0 <? len)%nat && bool_decide (is_Some block) then
        do blk <- load block;
        let blen := if (KEYBLOCK_LEN <? len)%nat then KEYBLOCK_LEN else len in
        match bytes_at (key blk) 0 blen with
        | Some bs =>
            read_write_write fd bs ;;
            write_loop fuel' (next blk) (len - blen)%nat fd
        | None => crash
        end
      else ret tt
  end.

Definition blockdata_write (block : option nat) (len : nat) (fd : Z) : M unit :=
  write_loop (S len) block len fd.

(** ** Chains in the arena *)

(** [lseg m p l q]: following [next] from [p] visits exactly the blocks [l]
    and arrives at [q].  A chain is a segment that ends in [NULL]. *)
Fixpoint lseg (m : list blockdata) (p : option nat) (l : list nat)
    (q : option nat) : Prop :=
  match l with
  | [] => p = q
  | a :: l' => p = Some a /\ exists blk, m !! a = Some blk /\ lseg m (next blk) l' q
  end.

Definition chain (m : list blockdata) (p : option nat) (l : list nat) : Prop :=
  lseg m p l None.

(** the bytes a chain of blocks holds, in order *)
Definition contents (m : list blockdata) (l : list nat) : list byte :=
  flat_map (fun a => match m !! a with Some blk => key blk | None => [] end) l.

(** every [key] is an array of [KEYBLOCK_LEN] bytes *)
Definition keys_ok (m : list blockdata) : Prop :=
  forall a blk, m !! a = Some blk -> length (key blk) = KEYBLOCK_LEN.

(** an [unsigned int] holds a value below [2 ^ 32] *)
Definition uint_ok (z : Z) : Prop := u32 z = z.

(** the free list of the pool is the chain [fl] *)
Definition pool_ok (st : state) (fl : list nat) : Prop :=
  chain (arena st) (keyblock_free st) fl /\ keys_ok (arena st) /\
  uint_ok (blockdata_count st) /\ uint_ok (blockdata_alloced st).

Lemma uint_ok_u32 z : uint_ok (u32 z).
Proof. unfold uint_ok, u32. apply Z.mod_mod. unfold UINT_MOD. lia. Qed.

(** number of blocks of a chain that holds [len] bytes *)
Definition nblocks (len : nat) : nat := S ((len - 1) / KEYBLOCK_LEN).

(** the calls to [whine_malloc] that will succeed before the first failure *)
Fixpoint grants (o : list (option byte)) : nat :=
  match o with
  | Some _ :: o' => S (grants o')
  | _ => O
  end.

(** the blocks [new_block] can still hand out before it fails *)
Definition avail (st : state) (fl : list nat) : nat :=
  (length fl + 50 * grants (mallocs st))%nat.

(** the high-water mark is the largest value the count has been given *)
Definition hwm_ok (st : state) : Prop :=
  blockdata_hwm st = fold_right Z.max 0 (count_trace st) /\
  blockdata_count st <= blockdata_hwm st.

Lemma lseg_app m p l1 l2 q :
  lseg m p (l1 ++ l2) q <-> exists r, lseg m p l1 r /\ lseg m r l2 q.
Proof.
  revert p. induction l1 as [|a l1 IH]; intros p; simpl.
  - split.
    + intros H. exists p. auto.
    + intros (r & -> & H). exact H.
  - split.
    + intros (-> & blk & Hb & H). apply IH in H as (r & H1 & H2).
      exists r. split; [|exact H2]. split; [reflexivity|]. eauto.
    + intros (r & (-> & blk & Hb & H1) & H2). split; [reflexivity|].
      exists blk. split; [exact Hb|]. apply IH. eauto.
Qed.

Lemma lseg_inj m p l1 l2 :
  lseg m p l1 None -> lseg m p l2 None -> l1 = l2.
Proof.
  revert p l2. induction l1 as [|a l1 IH]; intros p [|b l2]; simpl.
  - reflexivity.
  - intros -> (H & _). discriminate.
  - intros (-> & _) H. discriminate.
  - intros (-> & blk & Hb & H1) (Heq & blk' & Hb' & H2).
    injection Heq as <-. rewrite Hb in Hb'. injection Hb' as <-.
    f_equal. eapply IH; eassumption.
Qed.

Lemma lseg_lt m p l q a : lseg m p l q -> a ∈ l -> (a < length m)%nat.
Proof.
  revert p. induction l as [|b l IH]; intros p; simpl.
  - intros _ H. inversion H.
  - intros (-> & blk & Hb & H) Hin. apply elem_of_cons in Hin as [->|Hin].
    + eapply lookup_lt_Some; eassumption.
    + eapply IH; eassumption.
Qed.

Lemma chain_NoDup m p l : chain m p l -> NoDup l.
Proof.
  unfold chain. revert p. induction l as [|a l IH]; intros p; simpl.
  - intros _. constructor.
  - intros (-> & blk & Hb & H). constructor; [|eapply IH; eassumption].
    intros Hin. apply list_elem_of_split in Hin as (l1 & l2 & ->).
    pose proof H as H'. apply lseg_app in H' as (r & _ & Hr).
    assert (Hc : lseg m (Some a) (a :: l1 ++ a :: l2) None).
    { simpl. split; [reflexivity|]. eauto. }
    pose proof Hr as Hr'. simpl in Hr'. destruct Hr' as (-> & _).
    pose proof (lseg_inj _ _ _ _ Hc Hr) as Heq.
    apply (f_equal length) in Heq. simpl in Heq. rewrite length_app in Heq.
    simpl in Heq. lia.
Qed.

Lemma NoDup_bounded_length (l : list nat) n :
  NoDup l -> (forall a, a ∈ l -> (a < n)%nat) -> (length l <= n)%nat.
Proof.
  intros Hnd Hlt. rewrite <- (length_seq n 0%nat). apply submseteq_length.
  apply NoDup_submseteq; [exact Hnd|]. intros x Hx.
  apply elem_of_seq. specialize (Hlt x Hx). lia.
Qed.

Lemma chain_length_le m p l : chain m p l -> (length l <= length m)%nat.
Proof.
  intros Hc. apply NoDup_bounded_length; [eapply chain_NoDup; exact Hc|].
  intros a Ha. eapply lseg_lt; eassumption.
Qed.

Lemma lseg_ext m m' p l q :
  lseg m p l q -> (forall a, a ∈ l -> m' !! a = m !! a) -> lseg m' p l q.
Proof.
  revert p. induction l as [|a l IH]; intros p; simpl.
  - auto.
  - intros (-> & blk & Hb & H) Hext. split; [reflexivity|].
    exists blk. split.
    + rewrite Hext; [exact Hb|]. apply elem_of_cons. auto.
    + apply IH; [exact H|]. intros x Hx. apply Hext. apply elem_of_cons. auto.
Qed.

Lemma contents_ext m m' l :
  (forall a, a ∈ l -> m' !! a = m !! a) -> contents m' l = contents m l.
Proof.
  unfold contents. induction l as [|a l IH]; intros Hext; simpl.
  - reflexivity.
  - rewrite Hext by (apply elem_of_cons; auto). f_equal.
    apply IH. intros x Hx. apply Hext. apply elem_of_cons. auto.
Qed.

Lemma contents_app m l1 l2 : contents m (l1 ++ l2) = contents m l1 ++ contents m l2.
Proof. unfold contents. apply flat_map_app. Qed.

Lemma contents_length m l :
  keys_ok m -> (forall a, a ∈ l -> (a < length m)%nat) ->
  length (contents m l) = (length l * KEYBLOCK_LEN)%nat.
Proof.
  intros Hk. unfold contents. induction l as [|a l IH]; intros Hl; simpl.
  - reflexivity.
  - rewrite length_app, IH by (intros x Hx; apply Hl, elem_of_cons; auto).
    destruct (lookup_lt_is_Some_2 m a) as [blk Hb].
    { apply Hl, elem_of_cons. auto. }
    rewrite Hb. erewrite Hk by eassumption. reflexivity.
Qed.

(** ** Running the code step by step *)

Lemma bind_Ok {A B} (m : M A) (k : A -> M B) st a st' :
  m st = Ok (a, st') -> bind m k st = k a st'.
Proof. unfold bind. intros ->. reflexivity. Qed.

Lemma bind_assoc {A B C} (m : M A) (k1 : A -> M B) (k2 : B -> M C) st :
  bind (bind m k1) k2 st = bind m (fun x => bind (k1 x) k2) st.
Proof. unfold bind. destruct (m st) as [[a st']| |]; reflexivity. Qed.

Lemma bind_inv {A B} (m : M A) (k : A -> M B) st r st' :
  bind m k st = Ok (r, st') ->
  exists a st1, m st = Ok (a, st1) /\ k a st1 = Ok (r, st').
Proof.
  unfold bind. destruct (m st) as [[a st1]| |]; try discriminate. eauto.
Qed.

Lemma elem_in base cnt (i : nat) :
  (i < cnt)%nat -> elem (base, cnt) (Z.of_nat i) = ret (Some (base + i)%nat).
Proof.
  intros Hi. unfold elem. cbn [fst snd].
  destruct (Z.leb_spec 0 (Z.of_nat i)); [|lia].
  destruct (Z.ltb_spec (Z.of_nat i) (Z.of_nat cnt)); [|lia].
  cbn [andb]. rewrite Nat2Z.id. reflexivity.
Qed.

Lemma load_Some st a blk :
  arena st !! a = Some blk -> load (Some a) st = Ok (blk, st).
Proof. unfold load. intros ->. reflexivity. Qed.

Lemma store_next_Some st a blk p :
  arena st !! a = Some blk ->
  store_next (Some a) p st =
    Ok (tt, set_arena (<[a := mkBlock p (key blk)]> (arena st)) st).
Proof. intros H. unfold store_next. rewrite (bind_Ok _ _ _ _ _ (load_Some _ _ _ H)). reflexivity. Qed.

Lemma memcpy_key_Some st a blk off src :
  arena st !! a = Some blk -> (off + length src <= length (key blk))%nat ->
  memcpy_key (Some a) off src st =
    Ok (tt, set_arena (<[a := mkBlock (next blk) (splice (key blk) off src)]> (arena st)) st).
Proof.
  intros H Hlen. unfold memcpy_key. rewrite (bind_Ok _ _ _ _ _ (load_Some _ _ _ H)).
  unfold write_at. destruct (Nat.leb_spec (off + length src) (length (key blk))); [|lia].
  reflexivity.
Qed.

Lemma read_src_Some d n :
  (n <= length d)%nat -> read_src (Some d) n = ret (take n d).
Proof.
  intros H. unfold read_src, bytes_at. cbn [Nat.add].
  destruct (Nat.leb_spec n (length d)); [|lia]. rewrite drop_0. reflexivity.
Qed.

Lemma splice_length dst off src :
  (off + length src <= length dst)%nat -> length (splice dst off src) = length dst.
Proof using Type.
  intros H. unfold splice. rewrite !length_app, length_take, length_drop. lia.
Qed.

(** progress through [bind] when the first action is one of the pure ones *)
Ltac mpure := repeat (erewrite bind_Ok by reflexivity).

(** ** Growing the pool *)

Hypothesis KEYBLOCK_LEN_pos : (0 < KEYBLOCK_LEN)%nat.
Hypothesis sizeof_blockdata_pos : 0 < sizeof_blockdata.
Hypothesis batch_fits : 50 * sizeof_blockdata < 2 ^ size_bits.

Lemma link_blocks_spec base cnt todo : forall i st,
  (i + todo < cnt)%nat -> (base + cnt <= length (arena st))%nat ->
  exists m',
    link_blocks (base, cnt) (Z.of_nat i) todo st = Ok (tt, set_arena m' st) /\
    length m' = length (arena st) /\
    (forall x, (x < base + i \/ base + i + todo <= x)%nat -> m' !! x = arena st !! x) /\
    (forall j blk, (i <= j < i + todo)%nat ->
       arena st !! (base + j)%nat = Some blk ->
       m' !! (base + j)%nat = Some (mkBlock (Some (base + j + 1)%nat) (key blk))).
Proof.
  induction todo as [|todo IH]; intros i st Hi Hlen.
  - exists (arena st). simpl. destruct st; repeat split; auto. intros; lia.
  - destruct (lookup_lt_is_Some_2 (arena st) (base + i)%nat) as [blk Hb]; [lia|].
    set (st1 := set_arena (<[(base + i)%nat := mkBlock (Some (base + i + 1)%nat) (key blk)]> (arena st)) st).
    destruct (IH (S i) st1) as (m' & Hrun & Hl & Hout & Hin).
    { lia. } { simpl. rewrite length_insert. lia. }
    exists m'. split; [|split; [|split]].
    + simpl link_blocks. replace (Z.of_nat i + 1) with (Z.of_nat (S i)) by lia.
      rewrite !elem_in by lia. mpure.
      erewrite bind_Ok by (apply store_next_Some; exact Hb).
      replace (base + S i)%nat with (base + i + 1)%nat by lia.
      fold st1. rewrite Hrun. reflexivity.
    + rewrite Hl. simpl. apply length_insert.
    + intros x Hx. rewrite Hout by lia. simpl.
      apply list_lookup_insert_ne. lia.
    + intros j blk' Hj Hbj. destruct (decide (j = i)) as [->|Hne].
      * rewrite Hout by lia. simpl. rewrite Hb in Hbj. injection Hbj as <-.
        apply list_lookup_insert_eq. eapply lookup_lt_Some; eassumption.
      * apply Hin; [lia|]. simpl. rewrite list_lookup_insert_ne by lia. exact Hbj.
Qed.

(** the array of [k] blocks [add_blocks] has linked in front of [fr] *)
Definition batch_ok (m' : list blockdata) (base k : nat) (c : byte)
    (fr : option nat) : Prop :=
  forall j, (j < k)%nat ->
    m' !! (base + j)%nat =
      Some (mkBlock (if decide (S j = k) then fr else Some (base + j + 1)%nat)
                    (replicate KEYBLOCK_LEN c)).

Lemma add_blocks_grant (k : nat) st c rest :
  (0 < k)%nat -> Z.of_nat k * sizeof_blockdata < 2 ^ size_bits ->
  mallocs st = Some c :: rest ->
  exists m',
    add_blocks (Z.of_nat k) st =
      Ok (tt, set_alloced (u32 (blockdata_alloced st + Z.of_nat k))
                (set_arena m' (set_free (Some (length (arena st)))
                   (set_mallocs rest st)))) /\
    length m' = (length (arena st) + k)%nat /\
    (forall x, (x < length (arena st))%nat -> m' !! x = arena st !! x) /\
    batch_ok m' (length (arena st)) k c (keyblock_free st).
Proof.
  intros Hk Hfit Hm.
  set (base := length (arena st)).
  set (fresh := replicate k (mkBlock None (replicate KEYBLOCK_LEN c))).
  set (m0 := arena st ++ fresh).
  set (m1 := <[(base + (k - 1))%nat := mkBlock (keyblock_free st) (replicate KEYBLOCK_LEN c)]> m0).
  set (st1 := set_free (Some base) (set_arena m1 (set_arena m0 (set_mallocs rest st)))).
  assert (Hfl : length fresh = k) by apply length_replicate.
  assert (Hm0 : length m0 = (base + k)%nat).
  { unfold m0. rewrite length_app. lia. }
  assert (Hm1 : length m1 = (base + k)%nat).
  { unfold m1. rewrite length_insert. lia. }
  assert (Hfresh : forall j, (j < k)%nat ->
            m0 !! (base + j)%nat = Some (mkBlock None (replicate KEYBLOCK_LEN c))).
  { intros j Hj. unfold m0. rewrite lookup_app_r by (unfold base; lia).
    replace (base + j - length (arena st))%nat with j by (unfold base; lia).
    apply lookup_replicate_2. exact Hj. }
  destruct (link_blocks_spec base k (k - 1) 0 st1) as (m' & Hrun & Hl & Hout & Hin).
  { lia. } { simpl. lia. }
  exists m'. split; [|split; [|split]].
  - unfold add_blocks.
    assert (Hw : whine_malloc_blocks (to_size_t (Z.of_nat k * sizeof_blockdata)) st =
                 Ok (Some (base, k), set_arena m0 (set_mallocs rest st))).
    { unfold whine_malloc_blocks. rewrite Hm. unfold to_size_t.
      rewrite Z.mod_small by lia. rewrite Z.div_mul by lia. rewrite Nat2Z.id.
      reflexivity. }
    erewrite bind_Ok by exact Hw.
    replace (Z.of_nat k - 1) with (Z.of_nat (k - 1)) by lia.
    rewrite elem_in by lia. mpure.
    erewrite bind_Ok by (apply store_next_Some; simpl; apply Hfresh; lia).
    mpure. rewrite Nat2Z.id.
    change (link_blocks (base, k) 0 (k - 1)) with (link_blocks (base, k) (Z.of_nat 0) (k - 1)).
    erewrite bind_Ok by exact Hrun. reflexivity.
  - rewrite Hl. simpl. exact Hm1.
  - intros x Hx. rewrite Hout by (fold base in Hx; lia). simpl. unfold m1.
    rewrite list_lookup_insert_ne by (fold base in Hx; lia).
    apply lookup_app_l. exact Hx.
  - intros j Hj. fold base. destruct (decide (S j = k)) as [He|Hne].
    + rewrite Hout by lia. simpl. unfold m1.
      replace (base + (k - 1))%nat with (base + j)%nat by lia.
      apply list_lookup_insert_eq. lia.
    + apply (Hin j (mkBlock None (replicate KEYBLOCK_LEN c))); [lia|].
      simpl. unfold m1.
      rewrite list_lookup_insert_ne by lia. apply Hfresh. exact Hj.
Qed.

Lemma add_blocks_deny n st :
  grants (mallocs st) = O ->
  add_blocks n st = Ok (tt, set_mallocs (tail (mallocs st)) st).
Proof.
  intros Hg. unfold add_blocks, bind, whine_malloc_blocks.
  destruct (mallocs st) as [|[c|] rest]; try reflexivity. discriminate.
Qed.

Lemma batch_lseg m' c q k : forall base,
  batch_ok m' base (S k) c q -> lseg m' (Some base) (seq base (S k)) q.
Proof.
  induction k as [|k IH]; intros base Hb.
  - simpl. split; [reflexivity|]. eexists. split.
    { replace base with (base + 0)%nat at 1 by lia. apply Hb. lia. }
    reflexivity.
  - change (seq base (S (S k))) with (base :: seq (S base) (S k)).
    split; [reflexivity|]. eexists. split.
    { replace base with (base + 0)%nat at 1 by lia. apply Hb. lia. }
    cbn [next]. destruct (decide (1 = S (S k))%nat) as [He|_]; [lia|].
    replace (base + 0 + 1)%nat with (S base) by lia.
    apply IH. intros j Hj.
    replace (S base + j)%nat with (base + S j)%nat by lia.
    rewrite Hb by lia.
    destruct (decide (S (S j) = S (S k))), (decide (S j = S k)); try lia; reflexivity.
Qed.

(** ** Acquiring a block *)

(** the parts of the state the pool never touches *)
Definition same_env (st st' : state) : Prop :=
  bufs st' = bufs st /\ buff st' = buff st /\ buff_len st' = buff_len st /\
  syslog st' = syslog st.

Lemma same_env_refl st : same_env st st.
Proof. repeat split. Qed.

Lemma same_env_trans st1 st2 st3 :
  same_env st1 st2 -> same_env st2 st3 -> same_env st1 st3.
Proof. unfold same_env. intuition congruence. Qed.

Lemma bump_hwm_fields st :
  keyblock_free (bump_hwm st) = keyblock_free st /\
  blockdata_count (bump_hwm st) = blockdata_count st /\
  blockdata_hwm (bump_hwm st) = Z.max (blockdata_hwm st) (blockdata_count st) /\
  blockdata_alloced (bump_hwm st) = blockdata_alloced st /\
  arena (bump_hwm st) = arena st /\ mallocs (bump_hwm st) = mallocs st /\
  count_trace (bump_hwm st) = count_trace st /\ same_env st (bump_hwm st).
Proof.
  unfold bump_hwm, same_env.
  destruct (Z.ltb_spec (blockdata_hwm st) (blockdata_count st)); simpl;
    repeat split; lia.
Qed.

Lemma keys_ok_insert m a blk :
  keys_ok m -> length (key blk) = KEYBLOCK_LEN -> keys_ok (<[a := blk]> m).
Proof.
  intros Hk Hlen x b Hx. destruct (decide (x = a)) as [->|Hne].
  - assert (Ha : (a < length m)%nat).
    { apply lookup_lt_Some in Hx. rewrite length_insert in Hx. exact Hx. }
    rewrite list_lookup_insert_eq in Hx by exact Ha. injection Hx as <-. exact Hlen.
  - rewrite list_lookup_insert_ne in Hx by auto. eapply Hk; eassumption.
Qed.

(** What a successful [new_block] does to a pool whose free list is [fl]:
    the block [a] comes off the free list, or off a batch of 50 new blocks
    when the free list is empty. *)
Record acquired (st : state) (fl : list nat) (a : nat) (st' : state)
    (fl' : list nat) : Prop := mkAcquired {
  acq_pool : pool_ok st' fl';
  acq_block : exists blk, arena st' !! a = Some blk /\ next blk = None;
  acq_from :
    (fl = a :: fl' /\ length (arena st') = length (arena st) /\
     mallocs st' = mallocs st /\ blockdata_alloced st' = blockdata_alloced st) \/
    (fl = [] /\ a :: fl' = seq (length (arena st)) 50 /\
     length (arena st') = (length (arena st) + 50)%nat /\
     (exists c, mallocs st = Some c :: mallocs st') /\
     blockdata_alloced st' = u32 (blockdata_alloced st + 50));
  acq_frame : forall x, (x < length (arena st))%nat -> x <> a ->
                arena st' !! x = arena st !! x;
  acq_count : blockdata_count st' = u32 (blockdata_count st + 1);
  acq_hwm : blockdata_hwm st' = Z.max (blockdata_hwm st) (blockdata_count st');
  acq_trace : count_trace st' = blockdata_count st' :: count_trace st;
  acq_env : same_env st st'
}.

Lemma new_block_pop st a fl' :
  pool_ok st (a :: fl') ->
  exists st', new_block st = Ok (Some a, st') /\ acquired st (a :: fl') a st' fl'.
Proof.
  intros (Hc & Hk & Hu1 & Hu2). pose proof (chain_NoDup _ _ _ Hc) as Hnd.
  apply NoDup_cons in Hnd as [Hna _].
  destruct Hc as (Hfree & blk & Hb & Hrest).
  set (st1 := bump_hwm (set_count (u32 (blockdata_count st + 1)) (set_free (next blk) st))).
  destruct (bump_hwm_fields (set_count (u32 (blockdata_count st + 1)) (set_free (next blk) st)))
    as (Hf1 & Hc1 & Hh1 & Ha1 & Hm1 & Ho1 & Ht1 & He1).
  fold st1 in Hf1, Hc1, Hh1, Ha1, Hm1, Ho1, Ht1, He1. simpl in *.
  exists (set_arena (<[a := mkBlock None (key blk)]> (arena st1)) st1).
  split.
  - unfold new_block. mpure. rewrite Hfree. mpure. rewrite Hfree.
    erewrite bind_Ok by (apply load_Some; exact Hb). mpure.
    erewrite bind_Ok by (apply (store_next_Some st1 a blk); rewrite Hm1; exact Hb).
    reflexivity.
  - constructor; simpl.
    + split; [|split; [|split]]; simpl.
      * rewrite Hf1, Hm1. eapply lseg_ext; [exact Hrest|].
        intros x Hx. apply list_lookup_insert_ne. intros ->. contradiction.
      * rewrite Hm1. apply keys_ok_insert; [exact Hk|]. simpl. eapply Hk. exact Hb.
      * rewrite Hc1. apply uint_ok_u32.
      * rewrite Ha1. exact Hu2.
    + exists (mkBlock None (key blk)). split; [|reflexivity]. rewrite Hm1.
      apply list_lookup_insert_eq. eapply lookup_lt_Some. exact Hb.
    + left. rewrite Hm1, length_insert, Ho1, Ha1. auto.
    + intros x _ Hx. rewrite Hm1. apply list_lookup_insert_ne. auto.
    + rewrite Hc1. reflexivity.
    + rewrite Hh1, Hc1. reflexivity.
    + rewrite Ht1, Hc1. reflexivity.
    + exact He1.
Qed.

Lemma new_block_grow st st1 b :
  keyblock_free st = None -> add_blocks 50 st = Ok (tt, st1) ->
  keyblock_free st1 = Some b -> new_block st = new_block st1.
Proof.
  intros Hf Hadd Hf1. unfold new_block, bind, gets, ret.
  rewrite Hf, Hadd. cbv beta iota. rewrite !Hf1. reflexivity.
Qed.

Lemma new_block_spec st fl :
  pool_ok st fl ->
  (avail st fl = O -> new_block st = Ok (None, set_mallocs (tail (mallocs st)) st)) /\
  ((0 < avail st fl)%nat ->
   exists a st' fl', new_block st = Ok (Some a, st') /\ acquired st fl a st' fl').
Proof.
  intros Hp. split.
  - unfold avail. intros Hav. destruct fl as [|a fl]; [|simpl in Hav; lia].
    destruct Hp as (Hc & _). simpl in Hc. unfold new_block. mpure. rewrite Hc.
    erewrite bind_Ok by (apply add_blocks_deny; simpl in Hav; lia).
    mpure. simpl. rewrite Hc. reflexivity.
  - intros Hav. destruct fl as [|a fl].
    + destruct Hp as (Hc & Hk & Hu1 & Hu2). simpl in Hc.
      destruct (mallocs st) as [|[c|] rest] eqn:Hm;
        [unfold avail in Hav; rewrite Hm in Hav; simpl in Hav; lia| |
         unfold avail in Hav; rewrite Hm in Hav; simpl in Hav; lia].
      destruct (add_blocks_grant 50 st c rest) as (m' & Hadd & Hl & Hold & Hbatch);
        [lia|exact batch_fits|exact Hm|].
      set (st1 := set_alloced (u32 (blockdata_alloced st + Z.of_nat 50))
                    (set_arena m' (set_free (Some (length (arena st))) (set_mallocs rest st)))).
      fold st1 in Hadd.
      assert (Hp1 : pool_ok st1 (seq (length (arena st)) 50)).
      { split; [change (lseg m' (Some (length (arena st))) (seq (length (arena st)) 50) None)
               |split; [change (keys_ok m')|split; [exact Hu1|apply uint_ok_u32]]].
        - rewrite Hc in Hbatch. eapply batch_lseg. exact Hbatch.
        - intros x blk Hx. destruct (Nat.lt_ge_cases x (length (arena st))) as [Hlt|Hge].
          + rewrite Hold in Hx by exact Hlt. eapply Hk. exact Hx.
          + assert (x < length m')%nat by (eapply lookup_lt_Some; exact Hx).
            replace x with (length (arena st) + (x - length (arena st)))%nat in Hx by lia.
            rewrite Hbatch in Hx by lia. injection Hx as <-. simpl.
            apply length_replicate. }
      change (seq (length (arena st)) 50)
        with (length (arena st) :: seq (S (length (arena st))) 49) in Hp1.
      destruct (new_block_pop _ _ _ Hp1) as (st' & Hrun & Hacq).
      exists (length (arena st)), st', (seq (S (length (arena st))) 49).
      split.
      * rewrite (new_block_grow st st1 (length (arena st)) Hc Hadd eq_refl). exact Hrun.
      * destruct Hacq as [Hq1 Hq2 Hq3 Hq4 Hq5 Hq6 Hq7 Hq8]. simpl in *.
        constructor; auto.
        -- right. destruct Hq3 as [(_ & Hlen & Hmal & Hall)|(Habs & _)]; [|discriminate].
           repeat split; auto.
           ++ rewrite Hlen. exact Hl.
           ++ exists c. rewrite Hmal. simpl. congruence.
        -- intros x Hx Hne. rewrite Hq4 by (rewrite ?Hl; lia). apply Hold. exact Hx.
    + destruct (new_block_pop _ _ _ Hp) as (st' & Hrun & Hacq). eauto.
Qed.

Lemma acquired_avail st fl a st' fl' :
  acquired st fl a st' fl' -> (avail st' fl' + 1 = avail st fl)%nat.
Proof.
  intros [_ _ Hfrom _ _ _ _ _]. unfold avail.
  destruct Hfrom as [(-> & _ & -> & _)|(-> & Hseq & _ & (c & ->) & _)].
  - simpl. lia.
  - apply (f_equal length) in Hseq. rewrite length_seq in Hseq.
    simpl in *. lia.
Qed.

(** ** Releasing a chain *)

(** [blockdata_count--;] *)
Definition dec_count (st : state) : state :=
  set_count (u32 (blockdata_count st - 1)) st.

Lemma u32_add_l a b : u32 (u32 a + b) = u32 (a + b).
Proof using Type. unfold u32. apply Zplus_mod_idemp_l. Qed.

Lemma u32_sub_l a b : u32 (u32 a - b) = u32 (a - b).
Proof using Type. unfold u32. apply Zminus_mod_idemp_l. Qed.

Lemma u32_small a : 0 <= a < 2 ^ 32 -> u32 a = a.
Proof using Type. intros H. unfold u32, UINT_MOD. apply Z.mod_small. exact H. Qed.

Lemma iter_dec_fields k : forall st,
  keyblock_free (Nat.iter k dec_count st) = keyblock_free st /\
  blockdata_hwm (Nat.iter k dec_count st) = blockdata_hwm st /\
  blockdata_alloced (Nat.iter k dec_count st) = blockdata_alloced st /\
  arena (Nat.iter k dec_count st) = arena st /\
  mallocs (Nat.iter k dec_count st) = mallocs st /\
  same_env st (Nat.iter k dec_count st).
Proof.
  induction k as [|k IH]; intros st.
  - simpl. repeat split.
  - rewrite Nat.iter_succ. destruct (IH st) as (H1 & H2 & H3 & H4 & H5 & H6).
    unfold same_env in *. simpl. intuition congruence.
Qed.

Lemma iter_dec_count k : forall st,
  (0 < k)%nat ->
  blockdata_count (Nat.iter k dec_count st) = u32 (blockdata_count st - Z.of_nat k).
Proof.
  induction k as [|k IH]; intros st Hk; [lia|].
  rewrite Nat.iter_succ. simpl. destruct k as [|k].
  - simpl. reflexivity.
  - rewrite IH by lia. rewrite u32_sub_l. f_equal. lia.
Qed.

Lemma iter_dec_hwm_ok k : forall st,
  hwm_ok st -> Z.of_nat k <= blockdata_count st < 2 ^ 32 ->
  hwm_ok (Nat.iter k dec_count st) /\
  blockdata_count (Nat.iter k dec_count st) = blockdata_count st - Z.of_nat k.
Proof.
  induction k as [|k IH]; intros st Hh Hc.
  - simpl. split; [exact Hh|lia].
  - rewrite Nat.iter_succ. destruct (IH st Hh) as ([Hh1 Hh2] & Hc1); [lia|].
    destruct (iter_dec_fields k st) as (_ & Hhw & _).
    unfold hwm_ok. simpl. rewrite Hc1.
    rewrite u32_small by lia. rewrite Hhw in *.
    split; [split|]; lia.
Qed.

Lemma free_walk_spec l : forall a st fuel,
  chain (arena st) (Some a) (a :: l) -> (length l < fuel)%nat ->
  free_walk fuel (Some a) st = Ok (last (a :: l), Nat.iter (length l) dec_count st).
Proof.
  induction l as [|b l IH]; intros a st fuel Hc Hf;
    (destruct fuel as [|fuel]; [lia|]);
    destruct Hc as (_ & blk & Hb & Hrest); simpl free_walk;
    erewrite bind_Ok by (apply load_Some; exact Hb).
  - simpl in Hrest. rewrite Hrest. reflexivity.
  - pose proof Hrest as (Hn & _). rewrite Hn. mpure.
    fold (dec_count st). rewrite (IH b (dec_count st) fuel).
    + rewrite <- Nat.iter_succ_r. reflexivity.
    + unfold chain. simpl arena. rewrite <- Hn. exact Hrest.
    + simpl in Hf. lia.
Qed.

(** What [blockdata_free] does to a chain [l] that shares no block with the
    free list [fl]. *)
Record released (st : state) (fl l : list nat) (st' : state) : Prop := mkReleased {
  rel_pool : pool_ok st' (l ++ fl);
  rel_frame : forall x, last l <> Some x -> arena st' !! x = arena st !! x;
  rel_keys : forall x blk, arena st !! x = Some blk ->
               exists blk', arena st' !! x = Some blk' /\ key blk' = key blk;
  rel_length : length (arena st') = length (arena st);
  rel_count : blockdata_count st' = u32 (blockdata_count st - Z.of_nat (length l));
  rel_hwm : blockdata_hwm st' = blockdata_hwm st;
  rel_hwm_ok : hwm_ok st -> Z.of_nat (length l) <= blockdata_count st < 2 ^ 32 ->
               hwm_ok st';
  rel_mallocs : mallocs st' = mallocs st;
  rel_alloced : blockdata_alloced st' = blockdata_alloced st;
  rel_env : same_env st st'
}.

Lemma blockdata_free_spec st fl a l :
  pool_ok st fl -> chain (arena st) (Some a) (a :: l) ->
  (forall x, x ∈ a :: l -> x ∉ fl) ->
  exists st', blockdata_free (Some a) st = Ok (tt, st') /\ released st fl (a :: l) st'.
Proof.
  intros (Hfl & Hk & Hu1 & Hu2) Hc Hdisj.
  pose proof (chain_NoDup _ _ _ Hc) as Hnd.
  assert (Hlast : exists t, last (a :: l) = Some t).
  { destruct (last (a :: l)) eqn:E; [eauto|]. apply last_None in E. discriminate. }
  destruct Hlast as [t Ht].
  assert (Hsplit : exists l0, a :: l = l0 ++ [t]).
  { apply last_Some in Ht. exact Ht. }
  destruct Hsplit as [l0 Hl0].
  assert (Htl : lseg (arena st) (Some a) l0 (Some t) /\
                exists blk, arena st !! t = Some blk /\ next blk = None).
  { unfold chain in Hc. rewrite Hl0 in Hc. apply lseg_app in Hc as (r & H1 & H2).
    simpl in H2. destruct H2 as (-> & blk & Hb & Hn). eauto. }
  destruct Htl as (Hseg & blk & Hb & Hn).
  set (st1 := Nat.iter (length l) dec_count st).
  destruct (iter_dec_fields (length l) st) as (Hf1 & Hh1 & Ha1 & Hm1 & Ho1 & He1).
  fold st1 in Hf1, Hh1, Ha1, Hm1, Ho1, He1.
  set (m' := <[t := mkBlock (keyblock_free st) (key blk)]> (arena st)).
  set (st' := dec_count (set_free (Some a) (set_arena m' st1))).
  exists st'. split.
  - unfold blockdata_free. mpure.
    pose proof (chain_length_le _ _ _ Hc) as Hlen. simpl in Hlen.
    erewrite bind_Ok by (apply free_walk_spec with (l := l); [exact Hc|lia]).
    fold st1. rewrite Ht. mpure.
    erewrite bind_Ok by (apply (store_next_Some st1 t blk); rewrite Hm1; exact Hb).
    mpure. rewrite Hf1, Hm1. reflexivity.
  - assert (Hnt : t ∉ l0).
    { rewrite Hl0 in Hnd. apply NoDup_app in Hnd as (_ & Hnd & _).
      intros Hin. apply (Hnd t Hin). apply list_elem_of_singleton. reflexivity. }
    assert (Htfl : t ∉ fl).
    { apply Hdisj. rewrite Hl0. apply elem_of_app. right.
      apply list_elem_of_singleton. reflexivity. }
    constructor.
    + split; [change (chain m' (Some a) ((a :: l) ++ fl))
             |split; [change (keys_ok m')
                     |split; [apply uint_ok_u32|change (uint_ok (blockdata_alloced st1))]]].
      * unfold chain. rewrite Hl0, <- app_assoc. apply lseg_app.
        exists (Some t). split.
        -- eapply lseg_ext; [exact Hseg|]. intros x Hx. unfold m'.
           apply list_lookup_insert_ne. intros ->. contradiction.
        -- simpl. split; [reflexivity|]. eexists. split.
           { unfold m'. apply list_lookup_insert_eq. eapply lookup_lt_Some. exact Hb. }
           simpl. eapply lseg_ext; [exact Hfl|]. intros x Hx. unfold m'.
           apply list_lookup_insert_ne. intros ->. contradiction.
      * unfold m'. apply keys_ok_insert; [exact Hk|]. simpl. eapply Hk. exact Hb.
      * rewrite Ha1. exact Hu2.
    + intros x Hx. change (m' !! x = arena st !! x). unfold m'.
      apply list_lookup_insert_ne. rewrite Ht in Hx. congruence.
    + intros x b Hx. change (exists blk', m' !! x = Some blk' /\ key blk' = key b).
      unfold m'. destruct (decide (x = t)) as [->|Hne].
      * rewrite list_lookup_insert_eq by (eapply lookup_lt_Some; exact Hb).
        eexists. split; [reflexivity|]. simpl. congruence.
      * rewrite list_lookup_insert_ne by auto. eauto.
    + change (length m' = length (arena st)). unfold m'. apply length_insert.
    + change (u32 (blockdata_count st1 - 1) =
              u32 (blockdata_count st - Z.of_nat (length (a :: l)))).
      unfold st1. destruct l as [|b l].
      * simpl. reflexivity.
      * rewrite iter_dec_count by (simpl; lia). rewrite u32_sub_l. f_equal.
        simpl length. lia.
    + exact Hh1.
    + intros Hh Hcnt. simpl length in Hcnt.
      destruct (iter_dec_hwm_ok (length l) st Hh) as ([Hw1 Hw2] & Hw3); [lia|].
      fold st1 in Hw1, Hw2, Hw3. unfold hwm_ok, st'. simpl.
      rewrite Hw3. rewrite u32_small by lia. split; lia.
    + exact Ho1.
    + exact Ha1.
    + exact He1.
Qed.

(** ** Copying a chain out *)

Lemma splice_nil dst off : splice dst off [] = dst.
Proof using Type. unfold splice. simpl. rewrite Nat.add_0_r. apply take_drop. Qed.

Lemma splice_splice dst off s1 s2 :
  (off + length s1 + length s2 <= length dst)%nat ->
  splice (splice dst off s1) (off + length s1) s2 = splice dst off (s1 ++ s2).
Proof using Type.
  clear KEYBLOCK_LEN_pos sizeof_blockdata_pos batch_fits.
  intros H. unfold splice.
  assert (Ht : (off + length s1)%nat = length (take off dst ++ s1)).
  { rewrite length_app, length_take. lia. }
  rewrite (app_assoc (take off dst) s1).
  rewrite take_app_length' by exact Ht.
  rewrite (drop_app_add' _ _ (off + length s1)) by exact Ht.
  rewrite drop_drop, length_app, <- !app_assoc.
  rewrite Nat.add_assoc. reflexivity.
Qed.

Lemma memcpy_buf_Some st d old off src :
  bufs st !! d = Some (Some old) -> (off + length src <= length old)%nat ->
  memcpy_buf (Some d) off src st =
    Ok (tt, set_bufs (<[d := Some (splice old off src)]> (bufs st)) st).
Proof using Type.
  clear KEYBLOCK_LEN_pos sizeof_blockdata_pos batch_fits.
  intros Hd Hlen. unfold memcpy_buf, write_at. rewrite Hd.
  destruct (Nat.leb_spec (off + length src) (length old)); [reflexivity|lia].
Qed.

Lemma retrieve_loop_spec l : forall b off len st old d fuel,
  chain (arena st) b l -> keys_ok (arena st) ->
  bufs st !! d = Some (Some old) ->
  (off + Nat.min len (length l * KEYBLOCK_LEN) <= length old)%nat ->
  (len < fuel)%nat ->
  retrieve_loop fuel (Some d) off b len st =
    Ok (tt, set_bufs (<[d := Some (splice old off (take len (contents (arena st) l)))]>
                        (bufs st)) st).
Proof using KEYBLOCK_LEN_pos.
  clear sizeof_blockdata_pos batch_fits.
  assert (Hid : forall st old d off,
            bufs st !! d = Some (Some old) ->
            st = set_bufs (<[d := Some (splice old off [])]> (bufs st)) st).
  { intros st old d off H. rewrite splice_nil, list_insert_id by exact H.
    destruct st; reflexivity. }
  induction l as [|a l IH]; intros b off len st old d fuel Hc Hk Hd Hfit Hfuel;
    (destruct fuel as [|fuel]; [lia|]); simpl retrieve_loop.
  - unfold chain in Hc. simpl in Hc. subst b. rewrite andb_false_r. unfold ret.
    unfold contents. simpl. rewrite take_nil. f_equal. f_equal. apply Hid. exact Hd.
  - destruct Hc as (-> & blk & Hb & Hrest).
    destruct (Nat.ltb_spec 0 len) as [Hpos|Hz].
    2:{ simpl. assert (len = 0%nat) by lia. subst len. rewrite take_0.
        unfold ret. f_equal. f_equal. apply Hid. exact Hd. }
    rewrite bool_decide_eq_true_2 by eauto. cbn [andb].
    erewrite bind_Ok by (apply load_Some; exact Hb).
    pose proof (Hk _ _ Hb) as Hkl.
    set (blen := if (KEYBLOCK_LEN <? len)%nat then KEYBLOCK_LEN else len).
    assert (Hblen : blen = Nat.min len KEYBLOCK_LEN).
    { unfold blen. destruct (Nat.ltb_spec KEYBLOCK_LEN len); lia. }
    assert (Hbytes : bytes_at (key blk) 0 blen = Some (take blen (key blk))).
    { unfold bytes_at. destruct (Nat.leb_spec (0 + blen) (length (key blk))); [|lia].
      rewrite drop_0. reflexivity. }
    rewrite Hbytes.
    assert (Htl : length (take blen (key blk)) = blen).
    { rewrite length_take. lia. }
    simpl length in Hfit.
    erewrite bind_Ok by (apply (memcpy_buf_Some st d old); [exact Hd|rewrite Htl; nia]).
    set (old1 := splice old off (take blen (key blk))).
    set (st1 := set_bufs (<[d := Some old1]> (bufs st)) st).
    assert (Hlen1 : length old1 = length old).
    { unfold old1. apply splice_length. rewrite Htl. nia. }
    rewrite (IH (next blk) (off + blen)%nat (len - blen)%nat st1 old1 d fuel).
    + f_equal. f_equal. unfold st1. simpl. rewrite list_insert_insert_eq.
      unfold set_bufs. simpl. f_equal. f_equal. f_equal.
      unfold old1.
      replace (off + blen)%nat with (off + length (take blen (key blk)))%nat
        by (rewrite Htl; reflexivity).
      rewrite splice_splice.
      * f_equal. unfold contents. simpl. rewrite Hb.
        rewrite take_app. rewrite Hkl. f_equal.
        -- rewrite Hblen. destruct (Nat.le_gt_cases KEYBLOCK_LEN len).
           ++ rewrite Nat.min_r by lia. rewrite !take_ge by lia. reflexivity.
           ++ rewrite Nat.min_l by lia. reflexivity.
        -- f_equal. lia.
      * rewrite Htl, length_take.
        assert (length (contents (arena st) l) = (length l * KEYBLOCK_LEN)%nat).
        { apply contents_length; [exact Hk|]. intros x Hx. eapply lseg_lt; eassumption. }
        simpl arena. nia.
    + exact Hrest.
    + exact Hk.
    + unfold st1. simpl. apply list_lookup_insert_eq. eapply lookup_lt_Some. exact Hd.
    + rewrite Hlen1. nia.
    + lia.
Qed.

(** ** Building a chain *)

(** The pool while an operation runs.  The operation started in [st0] with
    free list [fl0]; it has acquired the blocks [acq] (in this order) and may
    write to them and to the blocks [w] of the chain it was given; every
    other block in use is as it was. *)
Record pool_step (st0 : state) (fl0 w acq : list nat) (st : state)
    (fl : list nat) : Prop := mkPoolStep {
  ps_pool : pool_ok st fl;
  ps_from : forall x, x ∈ acq ++ fl -> x ∈ fl0 \/ (length (arena st0) <= x)%nat;
  ps_bound : forall x, x ∈ acq -> (x < length (arena st))%nat;
  ps_nodup : NoDup (acq ++ fl);
  ps_frame : forall x, (x < length (arena st0))%nat -> x ∉ fl0 -> x ∉ w ->
               arena st !! x = arena st0 !! x;
  ps_length : (length (arena st0) <= length (arena st))%nat;
  ps_count : blockdata_count st = u32 (blockdata_count st0 + Z.of_nat (length acq));
  ps_hwm : hwm_ok st0 -> hwm_ok st;
  ps_alloced : blockdata_alloced st =
               u32 (blockdata_alloced st0 +
                    Z.of_nat (length (arena st) - length (arena st0)));
  ps_env : same_env st0 st;
  ps_avail : (avail st fl + length acq = avail st0 fl0)%nat;
  ps_nogrow : (length acq <= length fl0)%nat ->
              fl0 = acq ++ fl /\ mallocs st = mallocs st0 /\
              blockdata_alloced st = blockdata_alloced st0 /\
              length (arena st) = length (arena st0)
}.

Lemma pool_step_refl st fl w : pool_ok st fl -> pool_step st fl w [] st fl.
Proof.
  intros Hp. pose proof Hp as (Hc & Hk & Hu1 & Hu2). constructor; simpl; auto.
  - intros x Hx. inversion Hx.
  - eapply chain_NoDup. exact Hc.
  - rewrite Z.add_0_r. symmetry. exact Hu1.
  - rewrite Nat.sub_diag, Z.add_0_r. symmetry. exact Hu2.
  - apply same_env_refl.
Qed.

(** a write to a block the operation owns *)
Lemma pool_step_write st0 fl0 w acq st fl a blk blk' :
  pool_step st0 fl0 w acq st fl ->
  a ∈ acq \/ (a ∈ w /\ a ∉ fl) ->
  arena st !! a = Some blk -> length (key blk') = KEYBLOCK_LEN ->
  pool_step st0 fl0 w acq (set_arena (<[a := blk']> (arena st)) st) fl.
Proof.
  intros [(Hc & Hk & Hu1 & Hu2) Hfrom Hbound Hnd Hframe Hlen Hcnt Hhwm Hall Henv Hav Hng]
    Ha Hb Hkey.
  assert (Hafl : a ∉ fl).
  { destruct Ha as [Ha|[_ Ha]]; [|exact Ha].
    apply NoDup_app in Hnd as (_ & Hd & _). apply Hd. exact Ha. }
  constructor; simpl; auto.
  - split; [|split; [|split]]; simpl; auto.
    + eapply lseg_ext; [exact Hc|]. intros x Hx.
      apply list_lookup_insert_ne. intros ->. contradiction.
    + apply keys_ok_insert; assumption.
  - intros x Hx. rewrite length_insert. auto.
  - intros x Hx Hx0 Hxw. rewrite list_lookup_insert_ne; [auto|].
    intros ->. destruct Ha as [Ha|[Ha _]]; [|contradiction].
    destruct (Hfrom x) as [H|H]; [apply elem_of_app; auto|contradiction|lia].
  - rewrite length_insert. exact Hlen.
  - rewrite length_insert. exact Hall.
  - rewrite length_insert. exact Hng.
Qed.

(** one more block acquired *)
Lemma pool_step_acquire st0 fl0 w acq st fl a st' fl' :
  pool_step st0 fl0 w acq st fl -> acquired st fl a st' fl' ->
  pool_step st0 fl0 w (acq ++ [a]) st' fl'.
Proof.
  intros [Hp Hfrom Hbound Hnd Hframe Hlen Hcnt Hhwm Hall Henv Hav Hng]
    Hacq.
  pose proof (acquired_avail _ _ _ _ _ Hacq) as Hav'.
  destruct Hacq as [Hp' Hblk Hsrc Hfr Hc' Hh' Ht' He'].
  assert (Hlen' : (length (arena st) <= length (arena st'))%nat).
  { destruct Hsrc as [(_ & -> & _)|(_ & _ & -> & _)]; lia. }
  assert (Hain : a ∈ fl \/ a = length (arena st)).
  { destruct Hsrc as [(-> & _)|(_ & Hs & _)].
    - left. apply elem_of_cons. auto.
    - right. simpl in Hs. change (seq (length (arena st)) 50)
        with (length (arena st) :: seq (S (length (arena st))) 49) in Hs.
      congruence. }
  assert (Hfl' : forall x, x ∈ fl' -> x ∈ fl \/ (length (arena st) <= x)%nat).
  { intros x Hx. destruct Hsrc as [(-> & _)|(_ & Hs & _)].
    - left. apply elem_of_cons. auto.
    - right. assert (Hx' : x ∈ seq (length (arena st)) 50).
      { rewrite <- Hs. apply elem_of_cons. auto. }
      apply elem_of_seq in Hx'. lia. }
  assert (Hafrom : a ∈ fl0 \/ (length (arena st0) <= a)%nat).
  { destruct Hain as [H| ->]; [|right; lia]. apply Hfrom, elem_of_app. auto. }
  constructor.
  - exact Hp'.
  - intros x Hx. rewrite <- app_assoc in Hx. apply elem_of_app in Hx as [Hx|Hx].
    { apply Hfrom, elem_of_app. auto. }
    apply elem_of_cons in Hx as [->|Hx]; [exact Hafrom|].
    destruct (Hfl' x Hx) as [H|H]; [|right; lia]. apply Hfrom, elem_of_app. auto.
  - intros x Hx. apply elem_of_app in Hx as [Hx|Hx].
    + specialize (Hbound x Hx). lia.
    + apply list_elem_of_singleton in Hx as ->. destruct Hblk as (blk & Hb & _).
      eapply lookup_lt_Some. exact Hb.
  - rewrite <- app_assoc. simpl. destruct Hsrc as [(-> & _)|(-> & Hs & _)].
    + exact Hnd.
    + rewrite Hs. apply NoDup_app. split; [|split].
      * apply NoDup_app in Hnd. apply Hnd.
      * intros x Hx Hx'. apply elem_of_seq in Hx'. specialize (Hbound x Hx). lia.
      * apply NoDup_seq.
  - intros x Hx Hx0 Hxw. rewrite Hfr; [auto|lia|].
    intros ->. destruct Hafrom; [contradiction|lia].
  - lia.
  - rewrite Hc', Hcnt, u32_add_l, length_app. simpl. f_equal. lia.
  - intros H0. specialize (Hhwm H0). destruct Hhwm as [Hm1 Hm2].
    unfold hwm_ok. rewrite Hh', Ht'. simpl. rewrite <- Hm1. split; lia.
  - destruct Hsrc as [(_ & -> & _ & ->)|(_ & _ & -> & _ & ->)].
    + exact Hall.
    + rewrite Hall, u32_add_l. f_equal. lia.
  - eapply same_env_trans; eassumption.
  - rewrite length_app. simpl. lia.
  - rewrite length_app. simpl. intros Hle.
    destruct Hng as (-> & Hm & Ha & Hl); [lia|].
    destruct Hsrc as [(-> & Hl' & Hm' & Ha')|(-> & _)].
    + rewrite <- app_assoc. simpl. repeat split; congruence.
    + rewrite length_app in Hle. simpl in Hle. lia.
Qed.

(** The pool after an operation that failed: the chain [w] it was given is
    back on the free list with all it had acquired, but for [leak] blocks. *)
Record restored (st0 : state) (fl0 w : list nat) (leak : Z) (st' : state)
    (fl' : list nat) : Prop := mkRestored {
  rs_pool : pool_ok st' fl';
  rs_from : forall x, x ∈ fl' ->
              x ∈ fl0 \/ (length (arena st0) <= x)%nat \/ x ∈ w;
  rs_back : forall x, x ∈ w -> x ∈ fl';
  rs_frame : forall x, (x < length (arena st0))%nat -> x ∉ fl0 -> x ∉ w ->
               arena st' !! x = arena st0 !! x;
  rs_length : (length (arena st0) <= length (arena st'))%nat;
  rs_count : blockdata_count st' =
             u32 (blockdata_count st0 - Z.of_nat (length w) + leak);
  rs_hwm : hwm_ok st0 -> Z.of_nat (length w) <= blockdata_count st0 ->
           blockdata_count st0 - Z.of_nat (length w) + Z.of_nat (length fl') + leak
             < 2 ^ 32 ->
           hwm_ok st';
  rs_alloced : blockdata_alloced st' =
               u32 (blockdata_alloced st0 +
                    Z.of_nat (length (arena st') - length (arena st0)));
  rs_env : same_env st0 st'
}.

Lemma restored_nothing st0 fl0 lost st fl o :
  pool_step st0 fl0 [] lost st fl ->
  restored st0 fl0 [] (Z.of_nat (length lost)) (set_mallocs o st) fl.
Proof.
  intros [Hp Hfrom Hbound Hnd Hframe Hlen Hcnt Hhwm Hall Henv Hav Hng].
  constructor; auto.
  - intros x Hx. destruct (Hfrom x) as [H|H]; auto. apply elem_of_app. auto.
  - intros x Hx. inversion Hx.
  - simpl. rewrite Hcnt. f_equal. lia.
Qed.

Lemma restored_free st0 fl0 w rel lost st fl h o :
  pool_step st0 fl0 w (rel ++ lost) st fl ->
  chain (arena st) (Some h) (w ++ rel) ->
  (forall x, x ∈ w -> x ∉ fl) ->
  exists st', blockdata_free (Some h) (set_mallocs o st) = Ok (tt, st') /\
    restored st0 fl0 w (Z.of_nat (length lost)) st' ((w ++ rel) ++ fl) /\
    mallocs st' = o /\ blockdata_alloced st' = blockdata_alloced st /\
    length (arena st') = length (arena st).
Proof.
  intros [Hp Hfrom Hbound Hnd Hframe Hlen Hcnt Hhwm Hall Henv Hav Hng] Hc Hw.
  assert (Hne : exists l, w ++ rel = h :: l).
  { destruct (w ++ rel) as [|a l] eqn:E.
    - unfold chain in Hc. simpl in Hc. discriminate.
    - destruct Hc as (Hh & _). injection Hh as ->. eauto. }
  destruct Hne as [l Hl]. rewrite Hl in Hc.
  assert (Hdisj : forall x, x ∈ h :: l -> x ∉ fl).
  { intros x Hx. rewrite <- Hl in Hx. apply elem_of_app in Hx as [Hx|Hx]; [auto|].
    apply NoDup_app in Hnd as (_ & Hd & _). apply Hd. apply elem_of_app. auto. }
  destruct (blockdata_free_spec (set_mallocs o st) fl h l Hp Hc Hdisj)
    as (st' & Hrun & Hrel).
  exists st'. split; [exact Hrun|]. rewrite Hl.
  destruct Hrel as [Rp Rf Rk Rl Rc Rh Rho Rm Ra Re].
  cbn [arena blockdata_count blockdata_alloced mallocs set_mallocs] in Rf, Rl, Rc, Ra, Rm.
  assert (Hlens : length (h :: l) = (length w + length rel)%nat).
  { rewrite <- Hl. apply length_app. }
  split; [|auto].
  constructor.
  - exact Rp.
  - intros x Hx. apply elem_of_app in Hx as [Hx|Hx].
    + rewrite <- Hl in Hx. apply elem_of_app in Hx as [Hx|Hx]; [auto|].
      destruct (Hfrom x) as [H|H]; auto. apply elem_of_app. left.
      apply elem_of_app. auto.
    + destruct (Hfrom x) as [H|H]; auto. apply elem_of_app. auto.
  - intros x Hx. apply elem_of_app. left. rewrite <- Hl. apply elem_of_app. auto.
  - intros x Hx Hx0 Hxw. rewrite Rf; [auto|].
    intros Hlast. apply last_Some_elem_of in Hlast. rewrite <- Hl in Hlast.
    apply elem_of_app in Hlast as [H|H]; [contradiction|].
    destruct (Hfrom x) as [H1|H1]; [|contradiction|lia].
    apply elem_of_app. left. apply elem_of_app. auto.
  - lia.
  - rewrite Rc, Hcnt, u32_sub_l, Hlens, length_app. f_equal. lia.
  - intros H0 Hwc Hbnd. apply Rho; [exact (Hhwm H0)|].
    cbn [blockdata_count set_mallocs].
    rewrite Hcnt, Hlens. rewrite !length_app in *. simpl length in *.
    rewrite u32_small by lia. lia.
  - rewrite Ra, Rl. exact Hall.
  - eapply same_env_trans; eassumption.
Qed.

Lemma pool_step_streams st0 fl0 w acq st fl ss :
  pool_step st0 fl0 w acq st fl -> pool_step st0 fl0 w acq (set_streams ss st) fl.
Proof. intros []. constructor; auto. Qed.

Lemma acquired_other st fl a st1 fl1 x :
  acquired st fl a st1 fl1 -> (x < length (arena st))%nat -> x ∉ fl ->
  x <> a /\ arena st1 !! x = arena st !! x.
Proof.
  intros [_ _ Hsrc Hfr _ _ _ _] Hx Hxfl.
  assert (x <> a).
  { intros ->. destruct Hsrc as [(-> & _)|(_ & Hs & _)].
    - apply Hxfl, elem_of_cons. auto.
    - change (seq (length (arena st)) 50)
        with (length (arena st) :: seq (S (length (arena st))) 49) in Hs.
      injection Hs as -> _. lia. }
  split; [assumption|]. apply Hfr; assumption.
Qed.

Lemma nblocks_small len : (len <= KEYBLOCK_LEN)%nat -> nblocks len = 1%nat.
Proof.
  intros H. unfold nblocks. rewrite Nat.div_small by lia. reflexivity.
Qed.

Lemma nblocks_step len :
  (KEYBLOCK_LEN < len)%nat -> nblocks len = S (nblocks (len - KEYBLOCK_LEN)).
Proof.
  intros H. unfold nblocks. f_equal.
  replace (len - 1)%nat with ((len - KEYBLOCK_LEN - 1) + 1 * KEYBLOCK_LEN)%nat by lia.
  rewrite Nat.div_add by lia. lia.
Qed.

Lemma read_write_read_spec fd n st :
  exists bs ok ss,
    read_write_read fd n st = Ok ((bs, ok), set_streams ss st) /\
    (length bs <= n)%nat.
Proof.
  unfold read_write_read.
  destruct (List.find _ (streams st)) as [[? s]|].
  - do 3 eexists. split; [reflexivity|]. rewrite length_take. lia.
  - exists [], false, (streams st). split; [|simpl; lia].
    destruct st; reflexivity.
Qed.

Lemma fill_block_spec fd data a blen st blk :
  arena st !! a = Some blk -> length (key blk) = KEYBLOCK_LEN ->
  (blen <= KEYBLOCK_LEN)%nat ->
  (forall d, data = Some d -> (blen <= length d)%nat) ->
  exists cont k' ss,
    fill_block fd data (Some a) blen st =
      Ok (cont, set_arena (<[a := mkBlock (next blk) k']> (arena st)) (set_streams ss st)) /\
    length k' = KEYBLOCK_LEN /\
    (forall d, data = Some d ->
       cont = Some (Some (drop blen d)) /\ take blen k' = take blen d) /\
    (data = None -> cont = Some None \/ (cont = None /\ (0 < blen)%nat)).
Proof.
  intros Hb Hk Hblen Hd. unfold fill_block.
  destruct (Nat.ltb_spec 0 blen) as [Hpos|Hz].
  - destruct data as [d|].
    + specialize (Hd d eq_refl). rewrite read_src_Some by exact Hd.
      mpure. assert (Hl : length (take blen d) = blen) by (rewrite length_take; lia).
      erewrite bind_Ok by (apply (memcpy_key_Some st a blk); [exact Hb|rewrite Hl; lia]).
      exists (Some (Some (drop blen d))), (splice (key blk) 0 (take blen d)), (streams st).
      split; [|split; [|split]].
      * reflexivity.
      * rewrite splice_length by (rewrite Hl; lia). exact Hk.
      * intros d' Hd'. injection Hd' as <-. split; [reflexivity|].
        unfold splice. rewrite take_0. simpl. rewrite take_app_le by lia.
        rewrite take_take. f_equal. lia.
      * discriminate.
    + destruct (read_write_read_spec fd blen st) as (bs & ok & ss & Hr & Hbs).
      erewrite bind_Ok by exact Hr. cbn [fst snd].
      erewrite bind_Ok by (apply (memcpy_key_Some (set_streams ss st) a blk);
                           [exact Hb|simpl; lia]).
      exists (if ok then Some None else None), (splice (key blk) 0 bs), ss.
      split; [|split; [|split]].
      * destruct ok; reflexivity.
      * rewrite splice_length by (simpl; lia). exact Hk.
      * discriminate.
      * intros _. destruct ok; auto.
  - assert (blen = 0%nat) by lia. subst blen.
    exists (Some data), (key blk), (streams st).
    split; [|split; [|split]].
    + unfold ret. f_equal. f_equal.
      replace (mkBlock (next blk) (key blk)) with blk by (destruct blk; reflexivity).
      rewrite list_insert_id by exact Hb. destruct st; reflexivity.
    + exact Hk.
    + intros d ->. rewrite drop_0, !take_0. auto.
    + intros ->. auto.
Qed.

Lemma chain_snoc m p acc t a blkt blka :
  chain m p acc -> last acc = Some t -> m !! t = Some blkt ->
  m !! a = Some blka -> next blka = None -> a ∉ acc ->
  chain (<[t := mkBlock (Some a) (key blkt)]> m) p (acc ++ [a]).
Proof.
  intros Hc Ht Hbt Hba Hn Ha.
  pose proof (chain_NoDup _ _ _ Hc) as Hnd.
  apply last_Some in Ht as [acc0 ->].
  unfold chain in *. apply lseg_app in Hc as (r & H1 & H2).
  simpl in H2. destruct H2 as (-> & _).
  apply NoDup_app in Hnd as (_ & Hd & _).
  rewrite <- app_assoc. apply lseg_app. exists (Some t). split.
  - eapply lseg_ext; [exact H1|]. intros x Hx. apply list_lookup_insert_ne.
    intros Heq. subst x. apply (Hd t Hx). apply list_elem_of_singleton. reflexivity.
  - simpl. split; [reflexivity|]. eexists. split.
    { apply list_lookup_insert_eq. eapply lookup_lt_Some. exact Hbt. }
    simpl. split; [reflexivity|]. exists blka. split; [|exact Hn].
    rewrite list_lookup_insert_ne; [exact Hba|]. intros Heq. subst a.
    apply Ha, elem_of_app. right. apply list_elem_of_singleton. reflexivity.
Qed.

Lemma set_mallocs_id st : set_mallocs (mallocs st) st = st.
Proof. destruct st; reflexivity. Qed.

Lemma set_arena_id st : set_arena (arena st) st = st.
Proof. destruct st; reflexivity. Qed.

Lemma assign_prev_spec st ret_ acc a blka :
  chain (arena st) ret_ acc -> arena st !! a = Some blka -> next blka = None ->
  a ∉ acc ->
  exists m' h,
    assign_prev (last acc) (Some a) ret_ st = Ok (Some h, set_arena m' st) /\
    chain m' (Some h) (acc ++ [a]) /\
    ((acc = [] /\ m' = arena st) \/
     (exists t blkt, t ∈ acc /\ arena st !! t = Some blkt /\
        m' = <[t := mkBlock (Some a) (key blkt)]> (arena st))).
Proof.
  intros Hc Hba Hn Ha. destruct (last acc) as [t|] eqn:Ht.
  - pose proof Ht as Hin. apply last_Some_elem_of in Hin.
    destruct (lookup_lt_is_Some_2 (arena st) t) as [blkt Hbt].
    { eapply lseg_lt; eassumption. }
    assert (Hh : exists h, ret_ = Some h).
    { destruct acc as [|h acc']; [discriminate|]. destruct Hc as (-> & _). eauto. }
    destruct Hh as [h ->].
    exists (<[t := mkBlock (Some a) (key blkt)]> (arena st)), h.
    split; [|split].
    + unfold assign_prev.
      erewrite bind_Ok by (apply store_next_Some; exact Hbt). reflexivity.
    + eapply chain_snoc; eassumption.
    + right. eauto.
  - apply last_None in Ht. subst acc. exists (arena st), a.
    split; [|split].
    + unfold assign_prev, ret. rewrite set_arena_id. reflexivity.
    + simpl. unfold chain. simpl. split; [reflexivity|]. exists blka. auto.
    + left. auto.
Qed.

(** the key of the block at [x] *)
Definition key_at (m : list blockdata) (x : nat) : option (list byte) :=
  key <$> m !! x.

Lemma contents_key_at m m' l :
  (forall x, x ∈ l -> key_at m' x = key_at m x) -> contents m' l = contents m l.
Proof.
  unfold contents, key_at. induction l as [|a l IH]; intros H; simpl.
  - reflexivity.
  - rewrite IH by (intros x Hx; apply H, elem_of_cons; auto). f_equal.
    specialize (H a (list_elem_of_here _ _)).
    destruct (m' !! a), (m !! a); simpl in H; congruence.
Qed.

Lemma contents_cons m a l k :
  key_at m a = Some k -> contents m (a :: l) = k ++ contents m l.
Proof.
  unfold key_at, contents. simpl. destruct (m !! a); simpl; congruence.
Qed.

(** What [blockdata_alloc_real] has done when its loop is left, seen from an
    iteration that starts in [st] with the blocks [acc] already chained. *)
Definition alloc_post (st0 : state) (fl0 : list nat) (data : option (list byte))
    (len : nat) (acc : list nat) (st : state) (fl : list nat)
    (r : option nat) (st' : state) : Prop :=
  match r with
  | Some h =>
      exists acc' fl',
        pool_step st0 fl0 [] (acc ++ acc') st' fl' /\
        chain (arena st') (Some h) (acc ++ acc') /\
        length acc' = nblocks len /\
        (forall x, x ∈ acc -> key_at (arena st') x = key_at (arena st) x) /\
        (forall d, data = Some d ->
           take len (contents (arena st') acc') = take len d)
  | None =>
      exists fl' leak,
        restored st0 fl0 [] leak st' fl' /\
        ((leak = 0 /\ (avail st fl < nblocks len)%nat) \/
         (leak = 1 /\ data = None /\ (0 < len)%nat)) /\
        ((length acc + nblocks len <= length fl0)%nat ->
         mallocs st' = mallocs st0 /\
         blockdata_alloced st' = blockdata_alloced st0 /\
         length (arena st') = length (arena st0))
  end.

Lemma alloc_loop_spec st0 fl0 fd : forall fuel data len ret_ st fl acc,
  (len < fuel)%nat ->
  pool_step st0 fl0 [] acc st fl ->
  chain (arena st) ret_ acc ->
  (forall d, data = Some d -> (len <= length d)%nat) ->
  exists r st',
    alloc_loop fuel fd data len ret_ (last acc) st = Ok (r, st') /\
    alloc_post st0 fl0 data len acc st fl r st'.
Proof.
  induction fuel as [|fuel IH]; intros data len ret_ st fl acc Hfuel PS Hc Hdata; [lia|].
  pose proof (ps_pool _ _ _ _ _ _ PS) as Hp.
  destruct (new_block_spec st fl Hp) as [Hnone Hsome].
  simpl alloc_loop.
  destruct (Nat.eq_dec (avail st fl) 0%nat) as [Hav|Hav].
  { (* the pool is exhausted *)
    erewrite bind_Ok by (apply Hnone; exact Hav).
    assert (Hnb : (avail st fl < nblocks len)%nat) by (unfold nblocks; lia).
    assert (Hno : ~ (length acc + nblocks len <= length fl0)%nat).
    { pose proof (ps_avail _ _ _ _ _ _ PS) as Hav0. unfold avail in Hav0 |- *.
      unfold nblocks. unfold avail in Hav. lia. }
    destruct ret_ as [h|].
    - destruct (restored_free st0 fl0 [] acc [] st fl h (tail (mallocs st)))
        as (st' & Hrun & Hres & _).
      + rewrite app_nil_r. exact PS.
      + exact Hc.
      + intros x Hx. inversion Hx.
      + exists None, st'. split.
        * erewrite bind_Ok by exact Hrun. reflexivity.
        * simpl. exists (acc ++ fl), 0. split; [exact Hres|].
          split; [left; auto|]. intros Habs. contradiction.
    - assert (acc = []) as ->.
      { destruct acc; [reflexivity|]. destruct Hc as (Hx & _). discriminate. }
      exists None, (set_mallocs (tail (mallocs st)) st). split; [reflexivity|].
      simpl. exists fl, 0. split; [|split; [left; auto|intros Habs; contradiction]].
      apply (restored_nothing st0 fl0 [] st fl). exact PS. }
  destruct Hsome as (a & st1 & fl1 & Hnew & Hacq); [lia|].
  erewrite bind_Ok by exact Hnew.
  pose proof (pool_step_acquire _ _ _ _ _ _ _ _ _ PS Hacq) as PS1.
  pose proof (acquired_avail _ _ _ _ _ Hacq) as Hav1.
  assert (Hacc : forall x, x ∈ acc -> x <> a /\ arena st1 !! x = arena st !! x).
  { intros x Hx. eapply acquired_other; [exact Hacq| |].
    - eapply ps_bound; eassumption.
    - pose proof (ps_nodup _ _ _ _ _ _ PS) as Hnd.
      apply NoDup_app in Hnd as (_ & Hd & _). apply Hd. exact Hx. }
  assert (Hna : a ∉ acc).
  { intros Hin. destruct (Hacc a Hin) as [Hne _]. congruence. }
  assert (Hc1 : chain (arena st1) ret_ acc).
  { eapply lseg_ext; [exact Hc|]. intros x Hx. apply Hacc. exact Hx. }
  destruct (acq_block _ _ _ _ _ Hacq) as (blka & Hba & Hnext).
  pose proof (ps_pool _ _ _ _ _ _ PS1) as (_ & Hk1 & _).
  pose proof (Hk1 _ _ Hba) as Hka.
  set (blen := if (KEYBLOCK_LEN <? len)%nat then KEYBLOCK_LEN else len).
  assert (Hblen : blen = Nat.min len KEYBLOCK_LEN).
  { unfold blen. destruct (Nat.ltb_spec KEYBLOCK_LEN len); lia. }
  destruct (fill_block_spec fd data a blen st1 blka Hba Hka) as
    (cont & k' & ss & Hfill & Hk' & Hmem & Hstr).
  { lia. } { intros d Hd. specialize (Hdata d Hd). lia. }
  erewrite bind_Ok by exact Hfill. rewrite Hnext in *.
  set (st2 := set_arena (<[a := mkBlock None k']> (arena st1)) (set_streams ss st1)) in *.
  assert (PS2 : pool_step st0 fl0 [] (acc ++ [a]) st2 fl1).
  { apply (pool_step_write _ _ _ _ (set_streams ss st1) _ a blka).
    - apply pool_step_streams. exact PS1.
    - left. apply elem_of_app. right. apply list_elem_of_singleton. reflexivity.
    - exact Hba.
    - exact Hk'. }
  assert (Hba2 : arena st2 !! a = Some (mkBlock None k')).
  { unfold st2. simpl. apply list_lookup_insert_eq. eapply lookup_lt_Some. exact Hba. }
  assert (Hacc2 : forall x, x ∈ acc -> arena st2 !! x = arena st !! x).
  { intros x Hx. destruct (Hacc x Hx) as [Hne Heq]. unfold st2. simpl.
    rewrite list_lookup_insert_ne by auto. exact Heq. }
  assert (Hc2 : chain (arena st2) ret_ acc).
  { eapply lseg_ext; [exact Hc|]. exact Hacc2. }
  destruct cont as [data'|].
  2:{ (* the read was short *)
    assert (Hnone' : data = None /\ (0 < len)%nat).
    { destruct data as [d|].
      - destruct (Hmem d eq_refl) as [Habs _]. discriminate.
      - destruct (Hstr eq_refl) as [Habs|[_ Hpos]]; [discriminate|]. split; [auto|lia]. }
    assert (Hng2 : (length acc + nblocks len <= length fl0)%nat ->
              mallocs st2 = mallocs st0 /\
              blockdata_alloced st2 = blockdata_alloced st0 /\
              length (arena st2) = length (arena st0)).
    { intros Hle. apply (ps_nogrow _ _ _ _ _ _ PS2).
      rewrite length_app. simpl. unfold nblocks in Hle. lia. }
    destruct ret_ as [h|].
    - destruct (restored_free st0 fl0 [] acc [a] st2 fl1 h (mallocs st2))
        as (st' & Hrun & Hres & Rm & Ra & Rl);
        [exact PS2|exact Hc2|intros x Hx; inversion Hx|].
      rewrite set_mallocs_id in Hrun.
      exists None, st'. split.
      + erewrite bind_Ok by exact Hrun. reflexivity.
      + simpl. exists (acc ++ fl1), 1. split; [exact Hres|].
        split; [right; tauto|]. rewrite Rm, Ra, Rl. exact Hng2.
    - assert (acc = []) as ->.
      { destruct acc; [reflexivity|]. destruct Hc as (Hx & _). discriminate. }
      exists None, st2. split; [reflexivity|].
      simpl. exists fl1, 1. split; [|split; [right; tauto|exact Hng2]].
      rewrite <- (set_mallocs_id st2).
      apply (restored_nothing st0 fl0 [a] st2 fl1). exact PS2. }
  destruct (assign_prev_spec st2 ret_ acc a _ Hc2 Hba2 eq_refl Hna)
    as (m3 & h & Hasg & Hc3 & Hm3).
  erewrite bind_Ok by exact Hasg.
  set (st3 := set_arena m3 st2) in *.
  assert (PS3 : pool_step st0 fl0 [] (acc ++ [a]) st3 fl1).
  { destruct Hm3 as [(_ & ->)|(t & blkt & Ht & Hbt & ->)].
    - unfold st3. rewrite set_arena_id. exact PS2.
    - apply (pool_step_write _ _ _ _ st2 _ t blkt); auto.
      + left. apply elem_of_app. auto.
      + simpl. pose proof (ps_pool _ _ _ _ _ _ PS2) as (_ & Hk2 & _).
        eapply Hk2. exact Hbt. }
  assert (Hkeys3 : forall x, x ∈ acc -> key_at (arena st3) x = key_at (arena st) x).
  { intros x Hx. unfold key_at. rewrite <- (Hacc2 x Hx).
    destruct Hm3 as [(_ & ->)|(t & blkt & Ht & Hbt & ->)]; [reflexivity|].
    change (arena st3) with (<[t := mkBlock (Some a) (key blkt)]> (arena st2)).
    destruct (decide (x = t)) as [->|Hne].
    - rewrite list_lookup_insert_eq by (eapply lookup_lt_Some; exact Hbt).
      rewrite Hbt. reflexivity.
    - rewrite list_lookup_insert_ne by auto. reflexivity. }
  assert (Hkeya3 : key_at (arena st3) a = Some k').
  { unfold key_at.
    destruct Hm3 as [(_ & ->)|(t & blkt & Ht & Hbt & ->)].
    - change (arena st3) with (arena st2). rewrite Hba2. reflexivity.
    - change (arena st3) with (<[t := mkBlock (Some a) (key blkt)]> (arena st2)).
      rewrite list_lookup_insert_ne by (intros ->; contradiction).
      rewrite Hba2. reflexivity. }
  destruct (Nat.eqb_spec (len - blen) 0%nat) as [Hlast|Hmore].
  { (* this was the last block *)
    exists (Some h), st3. split; [reflexivity|].
    simpl. exists [a], fl1. split; [exact PS3|]. split; [exact Hc3|].
    split; [symmetry; apply nblocks_small; lia|]. split; [exact Hkeys3|].
    intros d Hd. destruct (Hmem d Hd) as [_ Htk].
    rewrite (contents_cons _ _ _ _ Hkeya3). unfold contents. simpl.
    rewrite app_nil_r.
    replace blen with len in Htk by lia. exact Htk. }
  assert (Hbig : (KEYBLOCK_LEN < len)%nat) by lia.
  assert (Hbl : blen = KEYBLOCK_LEN) by lia.
  assert (Hlast : last (acc ++ [a]) = Some a) by apply last_snoc.
  destruct (IH data' (len - blen)%nat (Some h) st3 fl1 (acc ++ [a]))
    as (r & st' & Hrun & Hpost).
  { lia. } { exact PS3. } { exact Hc3. }
  { intros d' ->. destruct data as [d|].
    - destruct (Hmem d eq_refl) as [Hd' _]. injection Hd' as ->.
      rewrite length_drop. specialize (Hdata d eq_refl). lia.
    - destruct (Hstr eq_refl) as [Habs|[Habs _]]; discriminate. }
  rewrite Hlast in Hrun.
  exists r, st'. split; [exact Hrun|].
  assert (Hav3 : avail st3 fl1 = avail st1 fl1) by reflexivity.
  destruct r as [h'|]; simpl in Hpost |- *.
  - destruct Hpost as (acc'' & fl' & PS' & Hc' & Hlen' & Hkeys' & Hcont').
    exists (a :: acc''), fl'.
    rewrite <- app_assoc in PS', Hc'. simpl in PS', Hc'.
    split; [exact PS'|]. split; [exact Hc'|].
    split; [simpl; rewrite Hlen', (nblocks_step len) by lia; rewrite Hbl; reflexivity|].
    split.
    + intros x Hx. rewrite Hkeys' by (apply elem_of_app; auto). apply Hkeys3. exact Hx.
    + intros d Hd. destruct (Hmem d Hd) as [Hd' Htk]. injection Hd' as ->.
      specialize (Hcont' _ eq_refl).
      assert (Hka' : key_at (arena st') a = Some k').
      { rewrite Hkeys'; [exact Hkeya3|]. apply elem_of_app. right.
        apply list_elem_of_singleton. reflexivity. }
      rewrite (contents_cons _ _ _ _ Hka').
      rewrite take_app, Hk'. rewrite (take_ge k') by lia.
      rewrite <- Hbl, Hcont'. rewrite Hbl in Htk. rewrite take_ge in Htk by lia.
      rewrite Htk, Hbl. rewrite take_take_drop. f_equal. lia.
  - destruct Hpost as (fl' & leak & Hres & Hwhy & Hng').
    exists fl', leak. split; [exact Hres|]. split.
    + destruct Hwhy as [(-> & Hlt)|(-> & -> & Hpos)].
      * left. split; [reflexivity|]. rewrite Hav3 in Hlt.
        rewrite (nblocks_step len) by lia. rewrite Hbl in Hlt. lia.
      * right. split; [reflexivity|]. split; [|lia].
        destruct data as [d|]; [|reflexivity].
        destruct (Hmem d eq_refl) as [Habs _]. discriminate.
    + intros Hle. apply Hng'. rewrite length_app. simpl.
      rewrite (nblocks_step len) in Hle by lia. rewrite Hbl. lia.
Qed.

Lemma blockdata_alloc_real_spec st fl fd data len :
  pool_ok st fl ->
  (forall d, data = Some d -> (len <= length d)%nat) ->
  exists r st',
    blockdata_alloc_real fd data len st = Ok (r, st') /\
    alloc_post st fl data len [] st fl r st'.
Proof.
  intros Hp Hd. unfold blockdata_alloc_real.
  apply (alloc_loop_spec st fl fd (S len) data len None st fl []).
  - lia.
  - apply pool_step_refl. exact Hp.
  - reflexivity.
  - exact Hd.
Qed.

(** ** Growing a chain *)

Lemma expand_find_spec st l : forall b oldlen fuel,
  chain (arena st) b l -> (oldlen < fuel)%nat ->
  expand_find fuel b oldlen st =
    Ok ((l !! Nat.min (length l) ((oldlen - 1) / KEYBLOCK_LEN),
         (oldlen - Nat.min (length l) ((oldlen - 1) / KEYBLOCK_LEN) * KEYBLOCK_LEN)%nat), st).
Proof.
  induction l as [|a l IH]; intros b oldlen fuel Hc Hf;
    (destruct fuel as [|fuel]; [lia|]); simpl expand_find.
  - unfold chain in Hc. simpl in Hc. subst b.
    rewrite bool_decide_eq_false_2 by (intros [? ?]; discriminate).
    rewrite andb_false_r. simpl. rewrite Nat.sub_0_r. reflexivity.
  - destruct Hc as (-> & blk & Hb & Hrest).
    rewrite bool_decide_eq_true_2 by eauto. rewrite andb_true_r.
    destruct (Nat.ltb_spec KEYBLOCK_LEN oldlen) as [Hbig|Hsmall].
    + erewrite bind_Ok by (apply load_Some; exact Hb).
      rewrite (IH (next blk) (oldlen - KEYBLOCK_LEN)%nat fuel Hrest) by lia.
      replace ((oldlen - 1) / KEYBLOCK_LEN)%nat
        with (S ((oldlen - KEYBLOCK_LEN - 1) / KEYBLOCK_LEN)).
      2:{ replace (oldlen - 1)%nat
            with ((oldlen - KEYBLOCK_LEN - 1) + 1 * KEYBLOCK_LEN)%nat by lia.
          rewrite Nat.div_add by lia. lia. }
      simpl length. rewrite <- Nat.succ_min_distr. simpl.
      f_equal. f_equal. f_equal.
      assert (Nat.min (length l) ((oldlen - KEYBLOCK_LEN - 1) / KEYBLOCK_LEN) * KEYBLOCK_LEN
              <= oldlen - KEYBLOCK_LEN)%nat.
      { etransitivity; [apply Nat.mul_le_mono_r, Nat.le_min_r|].
        etransitivity; [rewrite Nat.mul_comm; apply Nat.Div0.mul_div_le|]. lia. }
      lia.
    + rewrite Nat.div_small by lia. rewrite Nat.min_0_r. simpl.
      rewrite Nat.sub_0_r. reflexivity.
Qed.

(** the blocks [blockdata_expand] has to acquire to add [newlen] bytes to a
    chain whose last block holds [used] bytes *)
Definition newblocks (used newlen : nat) : nat :=
  ((newlen - (KEYBLOCK_LEN - used) + (KEYBLOCK_LEN - 1)) / KEYBLOCK_LEN)%nat.

Lemma newblocks_fit used newlen :
  (newlen <= KEYBLOCK_LEN - used)%nat -> newblocks used newlen = 0%nat.
Proof.
  intros H. unfold newblocks. replace (newlen - (KEYBLOCK_LEN - used))%nat with 0%nat by lia.
  apply Nat.div_small. lia.
Qed.

Lemma newblocks_more used newlen :
  (KEYBLOCK_LEN - used < newlen)%nat ->
  newblocks used newlen = S (newblocks 0 (newlen - (KEYBLOCK_LEN - used))).
Proof.
  intros H. unfold newblocks. rewrite Nat.sub_0_r.
  set (n := (newlen - (KEYBLOCK_LEN - used))%nat).
  assert (0 < n)%nat by (unfold n; lia).
  destruct (Nat.le_gt_cases n KEYBLOCK_LEN) as [Hle|Hgt].
  - replace (n - KEYBLOCK_LEN)%nat with 0%nat by lia. simpl.
    rewrite (Nat.div_small (KEYBLOCK_LEN - 1)) by lia.
    replace (n + (KEYBLOCK_LEN - 1))%nat with ((n - 1) + 1 * KEYBLOCK_LEN)%nat by lia.
    rewrite Nat.div_add by lia. rewrite Nat.div_small by lia. reflexivity.
  - replace (n + (KEYBLOCK_LEN - 1))%nat
      with ((n - KEYBLOCK_LEN + (KEYBLOCK_LEN - 1)) + 1 * KEYBLOCK_LEN)%nat by lia.
    rewrite Nat.div_add by lia. lia.
Qed.

Lemma splice_take dst off src :
  (off <= length dst)%nat ->
  take (off + length src) (splice dst off src) = take off dst ++ src.
Proof.
  intros H. unfold splice. rewrite app_assoc.
  apply take_app_length'. rewrite length_app, length_take. lia.
Qed.

Lemma splice_full dst off src :
  (off + length src = length dst)%nat -> splice dst off src = take off dst ++ src.
Proof.
  intros H. unfold splice. rewrite drop_ge by lia. rewrite app_nil_r. reflexivity.
Qed.

Lemma expand_copy_spec st t blkt oldlen data d newlen size :
  arena st !! t = Some blkt -> length (key blkt) = KEYBLOCK_LEN ->
  (oldlen <= KEYBLOCK_LEN)%nat -> size = Nat.min newlen (KEYBLOCK_LEN - oldlen) ->
  ((0 < newlen)%nat -> data = Some d /\ (newlen <= length d)%nat) ->
  exists data1,
    expand_copy (Some t) oldlen data newlen size st =
      Ok ((data1, (newlen - size)%nat),
          set_arena (<[t := mkBlock (next blkt) (splice (key blkt) oldlen (take size d))]>
                       (arena st)) st) /\
    ((0 < newlen - size)%nat ->
       data1 = Some (drop size d) /\ (newlen - size <= length (drop size d))%nat).
Proof.
  intros Hb Hk Hold Hsize Hdata. unfold expand_copy.
  destruct (Nat.eqb_spec size 0) as [Hz|Hnz]; cbn [negb].
  - exists data. rewrite Hz, take_0, splice_nil, Nat.sub_0_r, drop_0.
    replace (mkBlock (next blkt) (key blkt)) with blkt by (destruct blkt; reflexivity).
    rewrite list_insert_id by exact Hb. rewrite set_arena_id. split; [reflexivity|].
    exact Hdata.
  - destruct Hdata as [-> Hlen]; [lia|].
    rewrite read_src_Some by lia. mpure.
    assert (Hl : length (take size d) = size) by (rewrite length_take; lia).
    erewrite bind_Ok by (apply (memcpy_key_Some st t blkt); [exact Hb|rewrite Hl; lia]).
    exists (Some (drop size d)). split; [reflexivity|].
    intros _. split; [reflexivity|]. rewrite length_drop. lia.
Qed.

(** What [blockdata_expand] has done when its loop is left, seen from an
    iteration that starts in [st] with the chain [cur], whose last block [t]
    holds [used] bytes. *)
Definition expand_post (st0 : state) (fl0 l : list nat) (h : nat)
    (acq : list nat) (t used : nat) (d : list byte) (newlen : nat)
    (st : state) (fl : list nat) (r : Z) (st' : state) : Prop :=
  (r = 1 /\
   exists acc' fl',
     pool_step st0 fl0 l (acq ++ acc') st' fl' /\
     chain (arena st') (Some h) ((l ++ acq) ++ acc') /\
     length acc' = newblocks used newlen /\
     (forall x, x ∈ l ++ acq -> x <> t -> arena st' !! x = arena st !! x) /\
     take ((length (l ++ acq) - 1) * KEYBLOCK_LEN + used + newlen)
          (contents (arena st') ((l ++ acq) ++ acc')) =
       take ((length (l ++ acq) - 1) * KEYBLOCK_LEN + used)
            (contents (arena st) (l ++ acq)) ++ take newlen d) \/
  (r = 0 /\
   exists fl',
     restored st0 fl0 l 0 st' fl' /\ (avail st fl < newblocks used newlen)%nat).

Lemma contents_snoc m l t k :
  key_at m t = Some k -> contents m (l ++ [t]) = contents m l ++ k.
Proof.
  intros H. rewrite contents_app, (contents_cons _ _ _ _ H).
  unfold contents. simpl. rewrite app_nil_r. reflexivity.
Qed.

Lemma key_at_lookup m x blk : m !! x = Some blk -> key_at m x = Some (key blk).
Proof. unfold key_at. intros ->. reflexivity. Qed.

Lemma expand_loop_spec st0 fl0 l h :
  (forall x, x ∈ l -> (x ∉ fl0) /\ (x < length (arena st0))%nat) ->
  forall fuel acq t used data d newlen st fl,
  (newlen + (if (used <? KEYBLOCK_LEN)%nat then 0 else 1) < fuel)%nat ->
  pool_step st0 fl0 l acq st fl ->
  chain (arena st) (Some h) (l ++ acq) -> last (l ++ acq) = Some t ->
  (used <= KEYBLOCK_LEN)%nat ->
  ((0 < newlen)%nat -> data = Some d /\ (newlen <= length d)%nat) ->
  exists r st',
    expand_loop fuel (Some h) (Some t) used data newlen st = Ok (r, st') /\
    expand_post st0 fl0 l h acq t used d newlen st fl r st'.
Proof.
  intros Hl. induction fuel as [|fuel IH];
    intros acq t used data d newlen st fl Hfuel PS Hc Ht Hused Hdata; [lia|].
  set (cur := l ++ acq) in *.
  pose proof (ps_pool _ _ _ _ _ _ PS) as Hp. pose proof Hp as (_ & Hk & _).
  pose proof (chain_NoDup _ _ _ Hc) as Hnd.
  pose proof Ht as Hcur. apply last_Some in Hcur as [cur0 Hcur].
  assert (Htin : t ∈ cur).
  { rewrite Hcur. apply elem_of_app. right. apply list_elem_of_singleton. reflexivity. }
  assert (Hcur0 : forall x, x ∈ cur0 -> x ∈ cur /\ x <> t).
  { intros x Hx. split; [rewrite Hcur; apply elem_of_app; auto|].
    intros ->. rewrite Hcur in Hnd. apply NoDup_app in Hnd as (_ & Hd & _).
    apply (Hd t Hx). apply list_elem_of_singleton. reflexivity. }
  assert (Hlfl : forall x, x ∈ l -> x ∉ fl).
  { intros x Hx Hxfl. destruct (Hl x Hx) as [H1 H2].
    destruct (ps_from _ _ _ _ _ _ PS x) as [H|H]; [apply elem_of_app; auto|contradiction|lia]. }
  assert (Hcurfl : forall x, x ∈ cur -> x ∉ fl).
  { intros x Hx. apply elem_of_app in Hx as [Hx|Hx]; [auto|].
    pose proof (ps_nodup _ _ _ _ _ _ PS) as Hn.
    apply NoDup_app in Hn as (_ & Hd & _). auto. }
  assert (Hown : forall x, x ∈ cur -> x ∈ acq \/ (x ∈ l /\ x ∉ fl)).
  { intros x Hx. apply elem_of_app in Hx as [Hx|Hx]; auto. }
  destruct (lookup_lt_is_Some_2 (arena st) t) as [blkt Hbt].
  { eapply lseg_lt; eassumption. }
  pose proof (Hk _ _ Hbt) as Hkt.
  simpl expand_loop.
  set (size := if (newlen <=? KEYBLOCK_LEN - used)%nat then newlen else (KEYBLOCK_LEN - used)%nat).
  assert (Hsize : size = Nat.min newlen (KEYBLOCK_LEN - used)).
  { unfold size. destruct (Nat.leb_spec newlen (KEYBLOCK_LEN - used)); lia. }
  destruct (expand_copy_spec st t blkt used data d newlen size Hbt Hkt Hused Hsize Hdata)
    as (data1 & Hcopy & Hdata1).
  erewrite bind_Ok by exact Hcopy. cbn [fst snd].
  set (kt1 := splice (key blkt) used (take size d)) in *.
  set (st1 := set_arena (<[t := mkBlock (next blkt) kt1]> (arena st)) st) in *.
  assert (Hsl : length (take size d) = size).
  { rewrite length_take. destruct (Nat.eq_dec newlen 0%nat); [lia|].
    destruct Hdata as [_ Hd]; lia. }
  assert (Hkt1 : length kt1 = KEYBLOCK_LEN).
  { unfold kt1. rewrite splice_length by (rewrite Hsl; lia). exact Hkt. }
  assert (PS1 : pool_step st0 fl0 l acq st1 fl).
  { apply (pool_step_write _ _ _ _ st _ t blkt); auto. }
  assert (Hbt1 : arena st1 !! t = Some (mkBlock (next blkt) kt1)).
  { unfold st1. simpl. apply list_lookup_insert_eq. eapply lookup_lt_Some. exact Hbt. }
  assert (Hoth1 : forall x, x <> t -> arena st1 !! x = arena st !! x).
  { intros x Hx. unfold st1. simpl. apply list_lookup_insert_ne. auto. }
  assert (Hc1 : chain (arena st1) (Some h) cur).
  { unfold chain, st1. simpl. rewrite Hcur. rewrite Hcur in Hc.
    apply lseg_app in Hc as (r & H1 & H2). apply lseg_app. exists r. split.
    - eapply lseg_ext; [exact H1|]. intros x Hx. apply list_lookup_insert_ne.
      intros <-. destruct (Hcur0 t Hx) as [_ Hne]. congruence.
    - simpl in *. destruct H2 as (-> & blk & Hb & Hn). split; [reflexivity|].
      rewrite Hbt in Hb. injection Hb as <-.
      eexists. split; [apply list_lookup_insert_eq; eapply lookup_lt_Some; exact Hbt|].
      exact Hn. }
  assert (Hnt : next blkt = None).
  { unfold chain in Hc. rewrite Hcur in Hc. apply lseg_app in Hc as (r & _ & H2).
    simpl in H2. destruct H2 as (_ & blk & Hb & Hn). congruence. }
  assert (Hlen0 : length cur = S (length cur0)).
  { rewrite Hcur, length_app. simpl. lia. }
  assert (HC0 : length (contents (arena st) cur0) = (length cur0 * KEYBLOCK_LEN)%nat).
  { apply contents_length; [exact Hk|]. intros x Hx. eapply lseg_lt; [exact Hc|].
    apply Hcur0. exact Hx. }
  assert (Htake : take ((length cur - 1) * KEYBLOCK_LEN + used) (contents (arena st) cur) =
                  contents (arena st) cur0 ++ take used (key blkt)).
  { rewrite Hcur at 2. rewrite (contents_snoc _ _ _ _ (key_at_lookup _ _ _ Hbt)).
    rewrite Hlen0. replace (S (length cur0) - 1)%nat with (length cur0) by lia.
    rewrite <- HC0. rewrite take_app_add. reflexivity. }
  destruct (Nat.eqb_spec (newlen - size) 0%nat) as [Hdone|Hmore].
  { (* everything fits in the last block *)
    exists 1, st1. split; [reflexivity|]. unfold expand_post. fold cur.
    left. split; [reflexivity|].
    exists [], fl. rewrite !app_nil_r.
    split; [exact PS1|]. split; [exact Hc1|].
    split; [symmetry; apply newblocks_fit; lia|].
    split; [intros x _ Hx; apply Hoth1; exact Hx|].
    rewrite Htake. assert (size = newlen) by lia. subst size.
    rewrite Hcur at 2. rewrite (contents_snoc _ _ _ _ (key_at_lookup _ _ _ Hbt1)).
    rewrite (contents_key_at (arena st) (arena st1) cur0).
    2:{ intros x Hx. unfold key_at. rewrite Hoth1; [reflexivity|]. apply Hcur0. exact Hx. }
    rewrite Hlen0. replace (S (length cur0) - 1)%nat with (length cur0) by lia.
    rewrite <- HC0, <- Nat.add_assoc, take_app_add. simpl key.
    rewrite <- app_assoc. f_equal. unfold kt1.
    rewrite <- H at 1. rewrite <- Hsl at 1. rewrite H. apply splice_take. lia. }
  (* a new block is needed: the last block is full *)
  assert (Hfull : size = (KEYBLOCK_LEN - used)%nat) by lia.
  assert (Hnb : newblocks used newlen = S (newblocks 0 (newlen - size))).
  { rewrite Hfull. apply newblocks_more. lia. }
  destruct (new_block_spec st1 fl (ps_pool _ _ _ _ _ _ PS1)) as [Hnone Hsome].
  assert (Hav1 : avail st1 fl = avail st fl) by reflexivity.
  destruct (Nat.eq_dec (avail st1 fl) 0%nat) as [Hav|Hav].
  { erewrite bind_Ok by (apply Hnone; exact Hav).
    destruct (restored_free st0 fl0 l acq [] st1 fl h (tail (mallocs st1)))
      as (st' & Hrun & Hres & _).
    - rewrite app_nil_r. exact PS1.
    - exact Hc1.
    - exact Hlfl.
    - exists 0, st'. split.
      + erewrite bind_Ok by exact Hrun. reflexivity.
      + right. split; [reflexivity|]. exists ((l ++ acq) ++ fl).
        split; [exact Hres|]. lia. }
  destruct Hsome as (new & st2 & fl1 & Hnew & Hacq); [lia|].
  erewrite bind_Ok by exact Hnew.
  pose proof (pool_step_acquire _ _ _ _ _ _ _ _ _ PS1 Hacq) as PS2.
  pose proof (acquired_avail _ _ _ _ _ Hacq) as Hav2.
  assert (Hcur2 : forall x, x ∈ cur -> x <> new /\ arena st2 !! x = arena st1 !! x).
  { intros x Hx. eapply acquired_other; [exact Hacq| |auto].
    eapply lseg_lt; eassumption. }
  destruct (acq_block _ _ _ _ _ Hacq) as (blkn & Hbn & Hnn).
  assert (Hbt2 : arena st2 !! t = Some (mkBlock (next blkt) kt1)).
  { destruct (Hcur2 t Htin) as [_ ->]. exact Hbt1. }
  erewrite bind_Ok by (apply store_next_Some; exact Hbt2).
  cbn [key].
  set (st3 := set_arena (<[t := mkBlock (Some new) kt1]> (arena st2)) st2).
  assert (Hnewcur : new ∉ cur).
  { intros Hin. destruct (Hcur2 new Hin) as [Hne _]. congruence. }
  assert (Hfl1 : forall x, x ∈ cur -> x ∉ fl1).
  { intros x Hx Hx1. destruct (Hcur2 x Hx) as [Hne _].
    destruct Hacq as [_ _ Hsrc _ _ _ _ _].
    destruct Hsrc as [(Hfl & _)|(_ & Hs & _)].
    - apply (Hcurfl x Hx). rewrite Hfl. apply elem_of_cons. auto.
    - assert (Hx' : x ∈ seq (length (arena st1)) 50).
      { rewrite <- Hs. apply elem_of_cons. auto. }
      apply elem_of_seq in Hx'.
      assert (x < length (arena st1))%nat by (eapply lseg_lt; eassumption). lia. }
  assert (PS3 : pool_step st0 fl0 l (acq ++ [new]) st3 fl1).
  { apply (pool_step_write _ _ _ _ st2 _ t (mkBlock (next blkt) kt1)); auto.
    destruct (Hown t Htin) as [H|[H _]].
    - left. apply elem_of_app. auto.
    - right. split; [exact H|]. apply Hfl1. exact Htin. }
  assert (Hc3 : chain (arena st3) (Some h) (cur ++ [new])).
  { unfold st3. simpl arena.
    apply (chain_snoc (arena st2) (Some h) cur t new (mkBlock (next blkt) kt1) blkn); auto.
    eapply lseg_ext; [exact Hc1|]. intros x Hx. apply Hcur2. exact Hx. }
  assert (Hoth3 : forall x, x ∈ cur -> x <> t -> arena st3 !! x = arena st !! x).
  { intros x Hx Hne. unfold st3. simpl arena.
    rewrite list_lookup_insert_ne by auto.
    destruct (Hcur2 x Hx) as [_ ->]. apply Hoth1. exact Hne. }
  assert (Hbt3 : key_at (arena st3) t = Some kt1).
  { unfold st3, key_at. simpl arena.
    rewrite list_lookup_insert_eq by (eapply lookup_lt_Some; exact Hbt2). reflexivity. }
  destruct Hdata1 as [-> Hd1]; [lia|].
  destruct (IH (acq ++ [new]) new 0%nat (Some (drop size d)) (drop size d)
              (newlen - size)%nat st3 fl1) as (r & st' & Hrun & Hpost).
  { destruct (Nat.ltb_spec 0 KEYBLOCK_LEN); [|lia].
    destruct (Nat.ltb_spec used KEYBLOCK_LEN); lia. }
  { exact PS3. }
  { rewrite app_assoc. exact Hc3. }
  { rewrite app_assoc. apply last_snoc. }
  { lia. }
  { intros _. auto. }
  exists r, st'. split; [exact Hrun|].
  unfold expand_post in Hpost |- *.
  rewrite !(app_assoc l acq [new]) in Hpost. fold cur in Hpost |- *.
  destruct Hpost as [(-> & acc'' & fl' & PS' & Hc' & Hlen' & Hfr' & Hcont')
                    |(-> & fl' & Hres & Hlt)].
  - left. split; [reflexivity|]. exists (new :: acc''), fl'.
    rewrite <- (app_assoc acq [new]) in PS'. rewrite <- (app_assoc cur [new]) in Hc', Hcont'.
    cbn [app] in PS', Hc', Hcont'.
    split; [exact PS'|]. split; [exact Hc'|].
    split; [simpl; rewrite Hlen', Hnb; reflexivity|].
    split.
    + intros x Hx Hne. rewrite Hfr'.
      * apply Hoth3; assumption.
      * apply elem_of_app. auto.
      * intros ->. contradiction.
    + rewrite Htake.
      replace ((length cur - 1) * KEYBLOCK_LEN + used + newlen)%nat
        with ((length (cur ++ [new]) - 1) * KEYBLOCK_LEN + 0 + (newlen - size))%nat.
      2:{ rewrite length_app, Hlen0. simpl length. nia. }
      rewrite Hcont'. rewrite length_app. simpl length.
      replace (length cur + 1 - 1)%nat with (length cur) by lia.
      rewrite Nat.add_0_r.
      assert (Hk3 : keys_ok (arena st3)) by apply (ps_pool _ _ _ _ _ _ PS3).
      assert (HC3 : length (contents (arena st3) cur) = (length cur * KEYBLOCK_LEN)%nat).
      { apply contents_length; [exact Hk3|]. intros x Hx. eapply lseg_lt; [exact Hc3|].
        apply elem_of_app. auto. }
      rewrite contents_app, take_app_le by lia. rewrite take_ge by lia.
      rewrite Hcur at 1. rewrite (contents_snoc _ _ _ _ Hbt3).
      rewrite (contents_key_at (arena st) (arena st3) cur0).
      2:{ intros x Hx. unfold key_at. destruct (Hcur0 x Hx) as [Hin Hne].
          rewrite Hoth3 by assumption. reflexivity. }
      rewrite <- !app_assoc. f_equal. unfold kt1.
      rewrite splice_full by (rewrite Hsl; lia).
      rewrite <- app_assoc. f_equal. rewrite take_take_drop. f_equal. lia.
  - right. split; [reflexivity|]. exists fl'. split; [exact Hres|].
    assert (Hav3 : avail st3 fl1 = avail st2 fl1) by reflexivity. lia.
Qed.

(** the last block of a chain that holds [oldlen] bytes holds this many *)
Definition last_used (oldlen : nat) : nat :=
  (oldlen - (nblocks oldlen - 1) * KEYBLOCK_LEN)%nat.

Lemma last_used_le oldlen : (last_used oldlen <= KEYBLOCK_LEN)%nat.
Proof.
  unfold last_used, nblocks. simpl. rewrite Nat.sub_0_r.
  pose proof (Nat.div_mod_eq (oldlen - 1) KEYBLOCK_LEN) as H.
  pose proof (Nat.mod_upper_bound (oldlen - 1) KEYBLOCK_LEN) as H'. nia.
Qed.

Lemma last_used_eq oldlen :
  ((nblocks oldlen - 1) * KEYBLOCK_LEN + last_used oldlen = oldlen)%nat.
Proof.
  unfold last_used, nblocks. simpl. rewrite Nat.sub_0_r.
  pose proof (Nat.div_mod_eq (oldlen - 1) KEYBLOCK_LEN) as H.
  pose proof (Nat.mod_upper_bound (oldlen - 1) KEYBLOCK_LEN) as H'.
  destruct (Nat.eq_dec oldlen 0%nat) as [->|Hne].
  - rewrite Nat.div_small by lia. reflexivity.
  - nia.
Qed.

Lemma blockdata_expand_spec st fl h l t oldlen data d newlen :
  pool_ok st fl -> chain (arena st) (Some h) l -> last l = Some t ->
  (forall x, x ∈ l -> x ∉ fl) ->
  length l = nblocks oldlen ->
  ((0 < newlen)%nat -> data = Some d /\ (newlen <= length d)%nat) ->
  exists r st',
    blockdata_expand (Some h) oldlen data newlen st = Ok (r, st') /\
    expand_post st fl l h [] t (last_used oldlen) d newlen st fl r st'.
Proof.
  intros Hp Hc Ht Hdisj Hlen Hdata. unfold blockdata_expand.
  erewrite bind_Ok by (apply (expand_find_spec st l); [exact Hc|lia]).
  assert (Hj : Nat.min (length l) ((oldlen - 1) / KEYBLOCK_LEN) = (nblocks oldlen - 1)%nat).
  { rewrite Hlen. unfold nblocks. lia. }
  rewrite Hj. fold (last_used oldlen).
  assert (Hlk : l !! (nblocks oldlen - 1)%nat = Some t).
  { rewrite <- Ht, last_lookup, Hlen. f_equal. unfold nblocks. lia. }
  rewrite Hlk. pose proof (last_used_le oldlen) as Hu.
  destruct (Nat.ltb_spec KEYBLOCK_LEN (last_used oldlen)) as [Habs|_]; [lia|].
  apply (expand_loop_spec st fl l h).
  - intros x Hx. split; [auto|]. eapply lseg_lt; eassumption.
  - destruct (Nat.ltb_spec (last_used oldlen) KEYBLOCK_LEN); lia.
  - apply pool_step_refl. exact Hp.
  - rewrite app_nil_r. exact Hc.
  - rewrite app_nil_r. exact Ht.
  - exact Hu.
  - exact Hdata.
Qed.

(** ** The properties of the chain operations *)

Lemma retrieve_into st block l len d old :
  chain (arena st) block l -> keys_ok (arena st) ->
  bufs st !! d = Some (Some old) ->
  (Nat.min len (length l * KEYBLOCK_LEN) <= length old)%nat ->
  blockdata_retrieve block len (Some d) st =
    Ok (Some d,
        set_bufs (<[d := Some (splice old 0 (take len (contents (arena st) l)))]>
                    (bufs st)) st).
Proof using KEYBLOCK_LEN_pos.
  clear sizeof_blockdata_pos batch_fits.
  intros Hc Hk Hd Hfit. unfold blockdata_retrieve. mpure. cbv iota.
  erewrite bind_Ok by (apply (retrieve_loop_spec l); eauto; lia).
  reflexivity.
Qed.

(** C3. Round trip: when [blockdata_alloc] of the bytes [S] succeeds on a
    well-formed pool, [blockdata_retrieve] of the chain with the length of
    [S] into a caller's buffer [d] that has room for it returns [d], and the
    buffer then starts with [S], byte for byte (the rest of it is as it
    was). *)
Theorem alloc_retrieve_round_trip st fl (S : list byte) h st1 d old :
  pool_ok st fl ->
  blockdata_alloc (Some S) (length S) st = Ok (Some h, st1) ->
  bufs st1 !! d = Some (Some old) -> (length S <= length old)%nat ->
  exists st2,
    blockdata_retrieve (Some h) (length S) (Some d) st1 = Ok (Some d, st2) /\
    bufs st2 !! d = Some (Some (S ++ drop (length S) old)).
Proof.
  intros Hp Hrun Hd Hroom.
  destruct (blockdata_alloc_real_spec st fl 0 (Some S) (length S) Hp)
    as (r & st' & Hrun' & Hpost).
  { intros d0 [= <-]. lia. }
  unfold blockdata_alloc in Hrun. rewrite Hrun in Hrun'. injection Hrun' as <- <-.
  simpl in Hpost. destruct Hpost as (acc' & fl' & PS & Hc & Hlen & _ & Hcont).
  specialize (Hcont S eq_refl). rewrite (take_ge S) in Hcont by lia.
  pose proof (ps_pool _ _ _ _ _ _ PS) as (_ & Hk & _).
  eexists. split.
  - apply (retrieve_into st1 (Some h) acc'); eauto. lia.
  - simpl. rewrite list_lookup_insert_eq by (eapply lookup_lt_Some; exact Hd).
    rewrite Hcont. unfold splice. rewrite take_0. reflexivity.
Qed.

Lemma nblocks_expand a b :
  (nblocks a + newblocks (last_used a) b = nblocks (a + b))%nat.
Proof.
  pose proof (last_used_le a) as Hu. pose proof (last_used_eq a) as He.
  destruct (Nat.le_gt_cases b (KEYBLOCK_LEN - last_used a)%nat) as [Hfit|Hmore].
  - rewrite newblocks_fit by exact Hfit. rewrite Nat.add_0_r.
    unfold nblocks in *. f_equal. simpl in He. rewrite Nat.sub_0_r in He.
    destruct (Nat.eq_dec (a + b)%nat 0%nat) as [Hz|Hnz].
    + replace a with 0%nat by lia. replace b with 0%nat by lia. reflexivity.
    + apply (Nat.div_unique _ _ _ (a + b - 1 - (a - 1) / KEYBLOCK_LEN * KEYBLOCK_LEN)%nat).
      * destruct (Nat.eq_dec a 0%nat) as [->|Ha].
        -- rewrite Nat.div_small in * by lia. simpl in *. lia.
        -- assert (0 < last_used a)%nat.
           { unfold last_used, nblocks. simpl. rewrite Nat.sub_0_r.
             pose proof (Nat.Div0.mul_div_le (a - 1) KEYBLOCK_LEN). lia. }
           lia.
      * pose proof (Nat.Div0.mul_div_le (a - 1) KEYBLOCK_LEN). lia.
  - rewrite newblocks_more by exact Hmore.
    set (n := (b - (KEYBLOCK_LEN - last_used a))%nat).
    assert (0 < n)%nat by (unfold n; lia).
    unfold newblocks. rewrite Nat.sub_0_r.
    unfold nblocks in *. simpl in He. rewrite Nat.sub_0_r in He.
    replace (a + b - 1)%nat
      with ((n - 1) + (S ((a - 1) / KEYBLOCK_LEN)) * KEYBLOCK_LEN)%nat
      by (unfold n; lia).
    rewrite Nat.div_add by lia.
    destruct (Nat.le_gt_cases n KEYBLOCK_LEN) as [Hle|Hgt].
    + replace (n - KEYBLOCK_LEN)%nat with 0%nat by lia. simpl.
      rewrite (Nat.div_small (KEYBLOCK_LEN - 1)) by lia.
      rewrite (Nat.div_small (n - 1)) by lia. lia.
    + replace (n - KEYBLOCK_LEN + (KEYBLOCK_LEN - 1))%nat with (n - 1)%nat by lia.
      lia.
Qed.

(** C4. Expand composition: when [blockdata_alloc] of [A] and then
    [blockdata_expand] of the chain, at length [length A], by the bytes [B]
    both succeed, the chain has the number of blocks that
    [length A + length B] bytes take, and [blockdata_retrieve] of
    [length A + length B] bytes into a caller's buffer returns [A ++ B]. *)
Theorem expand_composition st fl (A B : list byte) h st1 st2 d old :
  pool_ok st fl ->
  blockdata_alloc (Some A) (length A) st = Ok (Some h, st1) ->
  blockdata_expand (Some h) (length A) (Some B) (length B) st1 = Ok (1, st2) ->
  bufs st2 !! d = Some (Some old) -> (length A + length B <= length old)%nat ->
  exists l st3,
    chain (arena st2) (Some h) l /\
    length l = nblocks (length A + length B) /\
    blockdata_retrieve (Some h) (length A + length B) (Some d) st2 = Ok (Some d, st3) /\
    bufs st3 !! d = Some (Some ((A ++ B) ++ drop (length A + length B) old)).
Proof.
  intros Hp Hrun1 Hrun2 Hd Hroom.
  destruct (blockdata_alloc_real_spec st fl 0 (Some A) (length A) Hp)
    as (r & st' & Hrun' & Hpost).
  { intros d0 [= <-]. lia. }
  unfold blockdata_alloc in Hrun1. rewrite Hrun1 in Hrun'. injection Hrun' as <- <-.
  simpl in Hpost. destruct Hpost as (l & fl1 & PS & Hc & Hlen & _ & Hcont).
  specialize (Hcont A eq_refl). rewrite (take_ge A) in Hcont by lia.
  pose proof (ps_pool _ _ _ _ _ _ PS) as Hp1.
  assert (Ht : exists t, last l = Some t).
  { destruct (last l) eqn:E; [eauto|]. apply last_None in E. subst l.
    unfold nblocks in Hlen. discriminate. }
  destruct Ht as [t Ht].
  destruct (blockdata_expand_spec st1 fl1 h l t (length A) (Some B) B (length B) Hp1 Hc Ht)
    as (r & st' & Hrun' & Hpost).
  { intros x Hx. pose proof (ps_nodup _ _ _ _ _ _ PS) as Hnd.
    apply NoDup_app in Hnd as (_ & Hdj & _). auto. }
  { exact Hlen. } { intros _. split; [reflexivity|lia]. }
  rewrite Hrun2 in Hrun'. injection Hrun' as <- <-.
  destruct Hpost as [(_ & acc' & fl2 & PS2 & Hc2 & Hlen2 & _ & Hcont2)|(Habs & _)];
    [|discriminate].
  rewrite !app_nil_r in *.
  rewrite Hlen, last_used_eq in Hcont2. rewrite Hcont, (take_ge B) in Hcont2 by lia.
  pose proof (ps_pool _ _ _ _ _ _ PS2) as (_ & Hk2 & _).
  exists (l ++ acc'). eexists. split; [exact Hc2|]. split; [|split].
  - rewrite length_app, Hlen, Hlen2. apply nblocks_expand.
  - apply (retrieve_into st2 (Some h) (l ++ acc')); eauto. lia.
  - simpl. rewrite list_lookup_insert_eq by (eapply lookup_lt_Some; exact Hd).
    rewrite Hcont2. unfold splice. rewrite take_0, length_app. reflexivity.
Qed.

(** C5. [blockdata_expand] of a well-formed chain [l] that holds [oldlen]
    bytes.  When the pool cannot supply the blocks the new bytes need
    ([new_block] fails on the way), the call returns 0 and every block of
    the original chain is on the free list: the count has gone down by the
    whole length of [l].  Otherwise the call returns 1 and the chain, still
    headed by the same block [h], is [l] followed by the new blocks; the
    blocks of [l] before its last one are as they were, the first [oldlen]
    bytes held are as they were, and so is every block in use elsewhere. *)
Theorem expand_failure_and_success st fl h l t oldlen data d newlen :
  pool_ok st fl -> chain (arena st) (Some h) l -> last l = Some t ->
  (forall x, x ∈ l -> x ∉ fl) ->
  length l = nblocks oldlen ->
  ((0 < newlen)%nat -> data = Some d /\ (newlen <= length d)%nat) ->
  exists r st',
    blockdata_expand (Some h) oldlen data newlen st = Ok (r, st') /\
    ((avail st fl < newblocks (last_used oldlen) newlen)%nat ->
       r = 0 /\
       exists fl', pool_ok st' fl' /\ (forall x, x ∈ l -> x ∈ fl') /\
         blockdata_count st' = u32 (blockdata_count st - Z.of_nat (length l))) /\
    ((newblocks (last_used oldlen) newlen <= avail st fl)%nat ->
       r = 1 /\
       exists l', chain (arena st') (Some h) (l ++ l') /\
         length l' = newblocks (last_used oldlen) newlen /\
         (forall x, x ∈ l -> x <> t -> arena st' !! x = arena st !! x) /\
         take oldlen (contents (arena st') l) = take oldlen (contents (arena st) l) /\
         (forall x, (x < length (arena st))%nat -> x ∉ fl -> x ∉ l ->
            arena st' !! x = arena st !! x)).
Proof.
  intros Hp Hc Ht Hdisj Hlen Hdata.
  destruct (blockdata_expand_spec st fl h l t oldlen data d newlen Hp Hc Ht Hdisj Hlen Hdata)
    as (r & st' & Hrun & Hpost).
  exists r, st'. split; [exact Hrun|].
  unfold expand_post in Hpost. rewrite !app_nil_r in Hpost.
  destruct Hpost as [(-> & acc' & fl' & PS & Hc' & Hlen' & Hfr & Hcont)
                    |(-> & fl' & Hres & Hlt)].
  - pose proof (ps_avail _ _ _ _ _ _ PS) as Hav. simpl in Hav.
    split; [intros Habs; lia|]. intros _. split; [reflexivity|].
    exists acc'. split; [exact Hc'|]. split; [exact Hlen'|]. split; [exact Hfr|].
    split; [|apply (ps_frame _ _ _ _ _ _ PS)].
    rewrite Hlen, last_used_eq in Hcont.
    pose proof Hp as (_ & Hk & _). pose proof (ps_pool _ _ _ _ _ _ PS) as (_ & Hk' & _).
    assert (HL : length (contents (arena st) l) = (length l * KEYBLOCK_LEN)%nat).
    { apply contents_length; [exact Hk|]. intros x Hx. eapply lseg_lt; eassumption. }
    assert (HL' : length (contents (arena st') l) = (length l * KEYBLOCK_LEN)%nat).
    { apply contents_length; [exact Hk'|]. intros x Hx. eapply lseg_lt; [exact Hc'|].
      apply elem_of_app. auto. }
    assert (Hold : (oldlen <= length l * KEYBLOCK_LEN)%nat).
    { pose proof (last_used_eq oldlen). pose proof (last_used_le oldlen).
      rewrite Hlen. unfold nblocks in *. simpl in *. rewrite Nat.sub_0_r in *. nia. }
    apply (f_equal (take oldlen)) in Hcont.
    rewrite take_take, Nat.min_l in Hcont by lia.
    rewrite contents_app, take_app_le in Hcont by lia.
    rewrite Hcont. rewrite take_app_le by (rewrite length_take; lia).
    rewrite take_take, Nat.min_id. reflexivity.
  - split; [|intros Habs; lia]. intros _. split; [reflexivity|].
    exists fl'. split; [exact (rs_pool _ _ _ _ _ _ Hres)|].
    split; [exact (rs_back _ _ _ _ _ _ Hres)|].
    rewrite (rs_count _ _ _ _ _ _ Hres). f_equal. lia.
Qed.

(** C9. Free reusability: after [blockdata_free] of a chain of
    [length l] blocks, an allocation (from a buffer or from a descriptor)
    that needs no more than [length l] blocks leaves the answers of
    [whine_malloc] unconsumed, that is, it does not call it: the count of
    blocks ever allocated and the arena are as they were.  An allocation from
    a buffer succeeds, with the first blocks of the chain just freed. *)
Theorem free_then_alloc_reuses st fl h l fd data len :
  pool_ok st fl -> chain (arena st) (Some h) l ->
  (forall x, x ∈ l -> x ∉ fl) ->
  (nblocks len <= length l)%nat ->
  (forall d, data = Some d -> (len <= length d)%nat) ->
  exists st1 r st2,
    blockdata_free (Some h) st = Ok (tt, st1) /\
    blockdata_alloc_real fd data len st1 = Ok (r, st2) /\
    mallocs st2 = mallocs st1 /\
    blockdata_alloced st2 = blockdata_alloced st1 /\
    length (arena st2) = length (arena st1) /\
    (data <> None ->
       exists h', r = Some h' /\ chain (arena st2) (Some h') (take (nblocks len) l)).
Proof.
  intros Hp Hc Hdisj Hneed Hdata.
  assert (Hl : exists l0, l = h :: l0).
  { destruct l as [|a l0]; [unfold chain in Hc; simpl in Hc; discriminate|].
    destruct Hc as (Hh & _). injection Hh as ->. eauto. }
  destruct Hl as [l0 ->].
  destruct (blockdata_free_spec st fl h l0 Hp Hc Hdisj) as (st1 & Hfree & Hrel).
  pose proof (rel_pool _ _ _ _ Hrel) as Hp1.
  destruct (blockdata_alloc_real_spec st1 ((h :: l0) ++ fl) fd data len Hp1 Hdata)
    as (r & st2 & Hrun & Hpost).
  exists st1, r, st2. split; [exact Hfree|]. split; [exact Hrun|].
  assert (Hfits : (nblocks len <= length ((h :: l0) ++ fl))%nat).
  { rewrite length_app. lia. }
  destruct r as [h'|]; simpl in Hpost.
  - destruct Hpost as (acc' & fl' & PS & Hc' & Hlen' & _ & _).
    destruct (ps_nogrow _ _ _ _ _ _ PS) as (Hfl & Hm & Ha & Hlen2);
      [cbn [length app] in *; lia|].
    repeat (split; [assumption|]). intros _. exists h'. split; [reflexivity|].
    replace (take (nblocks len) (h :: l0)) with acc'; [exact Hc'|].
    rewrite <- Hlen'. rewrite <- (take_app_le (h :: l0) fl) by lia.
    change ((h :: l0) ++ fl) with (h :: l0 ++ fl).
    rewrite Hfl. rewrite take_app_length. reflexivity.
  - destruct Hpost as (fl' & leak & Hres & Hwhy & Hng).
    destruct Hng as (Hm & Ha & Hlen2); [cbn [length app] in *; lia|].
    repeat (split; [assumption|]). intros Hsrc.
    destruct Hwhy as [(_ & Hlt)|(_ & Habs & _)]; [|contradiction].
    unfold avail in Hlt. cbn [length app] in *. lia.
Qed.

(** How a failed allocation leaves the count.  When [new_block] fails the
    partial chain is released and the count is as before the call; when a
    read from the descriptor fails, the block acquired for that read is not
    part of the chain that is released, and the count stays one higher. *)
Lemma alloc_failure_accounting st fl fd data len st' :
  pool_ok st fl ->
  (forall d, data = Some d -> (len <= length d)%nat) ->
  blockdata_alloc_real fd data len st = Ok (None, st') ->
  (blockdata_count st' = blockdata_count st /\ (avail st fl < nblocks len)%nat) \/
  (data = None /\ (0 < len)%nat /\
   blockdata_count st' = u32 (blockdata_count st + 1)).
Proof.
  intros Hp Hdata Hrun.
  destruct (blockdata_alloc_real_spec st fl fd data len Hp Hdata)
    as (r & st2 & Hrun' & Hpost).
  rewrite Hrun in Hrun'. injection Hrun' as <- <-. simpl in Hpost.
  destruct Hpost as (fl' & leak & Hres & Hwhy & _).
  pose proof (rs_count _ _ _ _ _ _ Hres) as Hcnt. simpl in Hcnt.
  destruct Hwhy as [(-> & Hlt)|(-> & -> & Hpos)].
  - left. split; [|exact Hlt]. rewrite Hcnt, Z.sub_0_r, Z.add_0_r.
    apply Hp.
  - right. split; [reflexivity|]. split; [exact Hpos|].
    rewrite Hcnt. f_equal. lia.
Qed.

(** [blockdata_expand] notices a chain that is too short for [oldlen] when
    it is short by more than one block... *)
Lemma expand_short_chain_noticed st fl h l oldlen data newlen :
  pool_ok st fl -> chain (arena st) (Some h) l ->
  (forall x, x ∈ l -> x ∉ fl) ->
  ((length l + 1) * KEYBLOCK_LEN < oldlen)%nat ->
  exists st',
    blockdata_expand (Some h) oldlen data newlen st = Ok (0, st') /\
    released st fl l st'.
Proof.
  intros Hp Hc Hdisj Hshort. unfold blockdata_expand.
  erewrite bind_Ok by (apply (expand_find_spec st l); [exact Hc|lia]).
  assert (Hdiv : (length l + 1 <= (oldlen - 1) / KEYBLOCK_LEN)%nat).
  { apply Nat.div_le_lower_bound; lia. }
  rewrite Nat.min_l by lia.
  destruct (Nat.ltb_spec KEYBLOCK_LEN (oldlen - length l * KEYBLOCK_LEN)) as [_|Habs]; [|lia].
  assert (Hl : exists l0, l = h :: l0).
  { destruct l as [|a l0]; [unfold chain in Hc; simpl in Hc; discriminate|].
    destruct Hc as (Hh & _). injection Hh as ->. eauto. }
  destruct Hl as [l0 ->].
  destruct (blockdata_free_spec st fl h l0 Hp Hc Hdisj) as (st' & Hfree & Hrel).
  exists st'. split; [|exact Hrel].
  erewrite bind_Ok by exact Hfree. reflexivity.
Qed.

(** ... but not when [oldlen] points into the block that would follow the
    last one: the walk ends on [NULL] with no more than [KEYBLOCK_LEN] bytes
    left to skip, the test passes, and with nothing to copy the call
    reports success and releases nothing. *)
Lemma expand_short_chain_unnoticed st h l oldlen data :
  chain (arena st) (Some h) l ->
  (length l * KEYBLOCK_LEN < oldlen <= (length l + 1) * KEYBLOCK_LEN)%nat ->
  blockdata_expand (Some h) oldlen data 0 st = Ok (1, st).
Proof.
  intros Hc [Hlo Hhi]. unfold blockdata_expand.
  erewrite bind_Ok by (apply (expand_find_spec st l); [exact Hc|lia]).
  assert (Hdiv : ((oldlen - 1) / KEYBLOCK_LEN = length l)%nat).
  { symmetry. apply (Nat.div_unique _ _ _ (oldlen - 1 - length l * KEYBLOCK_LEN)%nat); lia. }
  rewrite Hdiv, Nat.min_id.
  rewrite lookup_ge_None_2 by lia.
  destruct (Nat.ltb_spec KEYBLOCK_LEN (oldlen - length l * KEYBLOCK_LEN)) as [Habs|_]; [lia|].
  simpl. unfold expand_copy, bind, ret. simpl. reflexivity.
Qed.

(** C6, amended. [blockdata_report] changes nothing in the state but the
    log, to which it adds one message; the three byte counts of the message
    are the three block counts times [sizeof(struct blockdata)], the size of
    a whole block with its link field, taken in [size_t]: exactly the
    products whenever [size_t] is wide enough for [2 ^ 32] blocks. *)
Theorem report_units st :
  blockdata_report st =
    Ok (tt, set_syslog ((to_size_t (blockdata_count st * sizeof_blockdata),
                         to_size_t (blockdata_hwm st * sizeof_blockdata),
                         to_size_t (blockdata_alloced st * sizeof_blockdata))
                        :: syslog st) st) /\
  (uint_ok (blockdata_count st) -> uint_ok (blockdata_hwm st) ->
   uint_ok (blockdata_alloced st) -> 2 ^ 32 * sizeof_blockdata <= 2 ^ size_bits ->
   blockdata_report st =
     Ok (tt, set_syslog ((blockdata_count st * sizeof_blockdata,
                          blockdata_hwm st * sizeof_blockdata,
                          blockdata_alloced st * sizeof_blockdata)
                         :: syslog st) st)).
Proof using sizeof_blockdata_pos.
  clear KEYBLOCK_LEN_pos batch_fits.
  split; [reflexivity|]. intros H1 H2 H3 Hw.
  assert (Hs : forall z, uint_ok z -> to_size_t (z * sizeof_blockdata) = z * sizeof_blockdata).
  { intros z Hz. unfold to_size_t. apply Z.mod_small.
    unfold uint_ok, u32, UINT_MOD in Hz.
    pose proof (Z.mod_pos_bound z (2 ^ 32) ltac:(lia)) as Hb. rewrite Hz in Hb. nia. }
  unfold blockdata_report, my_syslog, bind, gets, modify, id.
  rewrite !Hs by assumption. reflexivity.
Qed.

(** the copy loop of [blockdata_retrieve] with a null destination: it
    returns only when there is nothing to copy, and then changes nothing *)
Lemma retrieve_loop_null fuel : forall off b len st u st',
  retrieve_loop fuel None off b len st = Ok (u, st') -> st' = st.
Proof using Type.
  clear KEYBLOCK_LEN_pos sizeof_blockdata_pos batch_fits.
  destruct fuel as [|fuel]; intros off b len st u st' H; simpl in H; [discriminate|].
  destruct (_ && _).
  - apply bind_inv in H as (blk & st1 & _ & H).
    destruct (bytes_at _ _ _); [|discriminate].
    apply bind_inv in H as (v & st2 & Habs & _). discriminate.
  - injection H as _ <-. reflexivity.
Qed.

(** with a destination, what [blockdata_retrieve] returns is the
    destination *)
Lemma retrieve_returns_destination st block len d r st' :
  blockdata_retrieve block len (Some d) st = Ok (r, st') -> r = Some d.
Proof using Type.
  clear KEYBLOCK_LEN_pos sizeof_blockdata_pos batch_fits.
  intros Hrun. unfold blockdata_retrieve in Hrun.
  apply bind_inv in Hrun as (dest & st1 & Hdest & Hrest).
  injection Hdest as <- <-.
  apply bind_inv in Hrest as ([] & st2 & _ & Hret).
  injection Hret as <- _. reflexivity.
Qed.

(** the two ways [blockdata_retrieve] returns [NULL] *)
Lemma retrieve_null_cases st block len data st' :
  blockdata_retrieve block len data st = Ok (None, st') ->
  data = None /\
  ((buff_len st < Z.of_nat len /\ grants (mallocs st) = 0%nat /\
    st' = set_mallocs (tail (mallocs st)) st) \/
   (Z.of_nat len <= buff_len st /\ buff st = None /\ st' = st)).
Proof using Type.
  clear KEYBLOCK_LEN_pos sizeof_blockdata_pos batch_fits.
  intros Hrun. unfold blockdata_retrieve in Hrun.
  apply bind_inv in Hrun as (dest & st1 & Hdest & Hrest).
  destruct data as [d|].
  { injection Hdest as <- <-.
    apply bind_inv in Hrest as ([] & st2 & _ & Hret). discriminate. }
  split; [reflexivity|].
  apply bind_inv in Hdest as (bl & st0 & Hbl & Hdest).
  injection Hbl as <- <-.
  destruct (Z.ltb_spec (buff_len st) (Z.of_nat len)) as [Hlt|Hge].
  - left. split; [exact Hlt|].
    apply bind_inv in Hdest as (new & st2 & Hnew & Hdest).
    unfold whine_malloc in Hnew.
    destruct (mallocs st) as [|[c|] rest].
    + injection Hnew as <- <-. injection Hdest as <- <-.
      injection Hrest as <-. split; reflexivity.
    + injection Hnew as <- <-.
      apply bind_inv in Hdest as (old' & st3 & _ & Hdest).
      apply bind_inv in Hdest as ([] & st4 & _ & Hdest).
      apply bind_inv in Hdest as ([] & st5 & Hset & Hdest).
      injection Hset as <-.
      apply bind_inv in Hdest as (cur & st6 & Hcur & Hdest).
      injection Hcur as <- <-. injection Hdest as <- <-.
      apply bind_inv in Hrest as ([] & st7 & _ & Hret). discriminate.
    + injection Hnew as <- <-. injection Hdest as <- <-.
      injection Hrest as <-. split; reflexivity.
  - right. split; [lia|].
    apply bind_inv in Hdest as (cur & st6 & Hcur & Hdest).
    injection Hcur as <- <-. injection Hdest as <- <-.
    apply bind_inv in Hrest as ([] & st7 & Hloop & Hret).
    injection Hret as Hb <-. split; [exact Hb|].
    rewrite Hb in Hloop. exact (retrieve_loop_null _ _ _ _ _ _ _ Hloop).
Qed.

(** ** Sessions: any sequence of calls *)

(** A call of the interface by a caller who keeps, for each chain, its head
    and its logical length; [i] is the position of a chain in this record.
    A call on a chain that is not in the record is no call. *)
Inductive call : Type :=
| Alloc (data : list byte)
| Expand (i : nat) (data : list byte)
| Free (i : nat).

Definition handle : Type := (nat * nat)%type.

Definition do_call (c : call) (live : list handle) : M (list handle) :=
  match c with
  | Alloc d =>
      do r <- blockdata_alloc (Some d) (length d);
      match r with
      | Some h => ret (live ++ [(h, length d)])
      | None => ret live
      end
  | Expand i d =>
      match live !! i with
      | Some (h, len) =>
          do r <- blockdata_expand (Some h) len (Some d) (length d);
          if r =? 0 then ret (delete i live)
          else ret (<[i := (h, (len + length d)%nat)]> live)
      | None => ret live
      end
  | Free i =>
      match live !! i with
      | Some (h, _) => blockdata_free (Some h) ;; ret (delete i live)
      | None => ret live
      end
  end.

Fixpoint do_calls (cs : list call) (live : list handle) : M (list handle) :=
  match cs with
  | [] => ret live
  | c :: cs' => do live' <- do_call c live; do_calls cs' live'
  end.

(** the chain of the handle [hd] is made of the blocks [l] *)
Definition tracks (st : state) (hd : handle) (l : list nat) : Prop :=
  chain (arena st) (Some (fst hd)) l /\ length l = nblocks (snd hd).

(** The pool and the chains of the caller: the free list [fl] and the chains
    [ls] share no block, and the counters count them. *)
Record shape (st : state) (live : list handle) (fl : list nat)
    (ls : list (list nat)) : Prop := mkShape {
  sh_pool : pool_ok st fl;
  sh_chains : Forall2 (tracks st) live ls;
  sh_nodup : NoDup (fl ++ concat ls);
  sh_count : blockdata_count st = u32 (Z.of_nat (length (concat ls)));
  sh_alloced : blockdata_alloced st = u32 (Z.of_nat (length (arena st)));
  sh_hwm : Z.of_nat (length (arena st)) < 2 ^ 32 -> hwm_ok st
}.

Lemma concat_delete_perm (ls : list (list nat)) : forall i l,
  ls !! i = Some l -> concat ls ≡ₚ l ++ concat (delete i ls).
Proof.
  induction ls as [|l0 ls IH]; intros [|i] l H; try discriminate; simpl in *.
  - injection H as ->. reflexivity.
  - rewrite (IH i l H). rewrite !app_assoc. apply Permutation_app_tail.
    apply Permutation_app_comm.
Qed.

Lemma concat_insert_perm (ls : list (list nat)) l' : forall i l,
  ls !! i = Some l -> concat (<[i := l']> ls) ≡ₚ l' ++ concat (delete i ls).
Proof.
  induction ls as [|l0 ls IH]; intros [|i] l H; try discriminate; simpl in *.
  - reflexivity.
  - rewrite (IH i l H). rewrite !app_assoc. apply Permutation_app_tail.
    apply Permutation_app_comm.
Qed.

Lemma Forall2_insert_deleted {A B} (P : A -> B -> Prop) (x : A) (y : B) :
  forall (i : nat) (l : list A) (k : list B),
  Forall2 P (delete i l) (delete i k) -> length l = length k -> (i < length l)%nat ->
  P x y -> Forall2 P (<[i := x]> l) (<[i := y]> k).
Proof.
  induction i as [|i IH]; intros [|a l] [|b k] HF Hlen Hi Hxy;
    simpl in *; try lia; try discriminate.
  - constructor; assumption.
  - apply Forall2_cons in HF as [Hab HF]. constructor; [exact Hab|].
    apply IH; auto; lia.
Qed.

Lemma elem_of_concat (ls : list (list nat)) x :
  x ∈ concat ls <-> exists l, l ∈ ls /\ x ∈ l.
Proof.
  rewrite list_elem_of_In, in_concat. split; intros (l & H1 & H2); exists l;
    rewrite ?list_elem_of_In in *; auto.
Qed.

Lemma tracks_frame st st' (fl w : list nat) live ls :
  Forall2 (tracks st) live ls ->
  (forall x, x ∈ concat ls -> (x ∉ fl) /\ (x ∉ w)) ->
  (forall x, (x < length (arena st))%nat -> x ∉ fl -> x ∉ w ->
     arena st' !! x = arena st !! x) ->
  Forall2 (tracks st') live ls.
Proof.
  intros HF. induction HF as [|hd l live ls [Hc Hl] HF IH]; intros Hout Hframe.
  - constructor.
  - constructor.
    + split; [|exact Hl]. eapply lseg_ext; [exact Hc|]. intros x Hx.
      destruct (Hout x) as [H1 H2]; [simpl; apply elem_of_app; auto|].
      apply Hframe; auto. eapply lseg_lt; eassumption.
    + apply IH; [|exact Hframe]. intros x Hx. apply Hout. simpl.
      apply elem_of_app. auto.
Qed.

Lemma tracks_bound st live ls x :
  Forall2 (tracks st) live ls -> x ∈ concat ls -> (x < length (arena st))%nat.
Proof.
  intros HF. induction HF as [|hd l live ls [Hc Hl] HF IH]; simpl; intros Hx.
  - inversion Hx.
  - apply elem_of_app in Hx as [Hx|Hx]; [|auto]. eapply lseg_lt; eassumption.
Qed.

Lemma in_use_bound st live fl ls :
  pool_ok st fl -> Forall2 (tracks st) live ls -> NoDup (fl ++ concat ls) ->
  (length fl + length (concat ls) <= length (arena st))%nat.
Proof.
  intros (Hc & _) HF Hnd. rewrite <- length_app.
  apply NoDup_bounded_length; [exact Hnd|]. intros x Hx.
  apply elem_of_app in Hx as [Hx|Hx].
  - eapply lseg_lt; eassumption.
  - eapply tracks_bound; eassumption.
Qed.

Lemma shape_count st live fl ls :
  shape st live fl ls -> Z.of_nat (length (arena st)) < 2 ^ 32 ->
  blockdata_count st = Z.of_nat (length (concat ls)) /\
  blockdata_alloced st = Z.of_nat (length (arena st)).
Proof.
  intros [Hp HF Hnd Hc Ha _] Hb.
  pose proof (in_use_bound _ _ _ _ Hp HF Hnd) as Hu.
  rewrite Hc, Ha, !u32_small by lia. auto.
Qed.

(** a block that comes from the pool is in no chain of the caller *)
Lemma shape_fresh st live fl ls x :
  shape st live fl ls -> x ∈ concat ls ->
  (x ∉ fl) /\ (x < length (arena st))%nat.
Proof.
  intros [_ HF Hnd _ _ _] Hx. split; [|eapply tracks_bound; eassumption].
  apply NoDup_app in Hnd as (_ & Hd & _). intros Hfl. exact (Hd x Hfl Hx).
Qed.

Lemma do_call_alloc st live fl ls d :
  shape st live fl ls ->
  exists live' st' fl' ls',
    do_call (Alloc d) live st = Ok (live', st') /\
    shape st' live' fl' ls' /\ (length (arena st) <= length (arena st'))%nat.
Proof.
  intros Hs. pose proof Hs as [Hp HF Hnd Hc Ha Hh].
  destruct (blockdata_alloc_real_spec st fl 0 (Some d) (length d) Hp)
    as (r & st' & Hrun & Hpost).
  { intros d0 [= <-]. lia. }
  unfold do_call, blockdata_alloc. erewrite bind_Ok by exact Hrun.
  assert (Hnd' : NoDup (concat ls)) by (apply NoDup_app in Hnd; tauto).
  destruct r as [h|]; simpl in Hpost.
  - destruct Hpost as (acc' & fl' & PS & Hc' & Hlen' & _ & _).
    pose proof (ps_length _ _ _ _ _ _ PS) as Hlen.
    exists (live ++ [(h, length d)]), st', fl', (ls ++ [acc']).
    split; [reflexivity|]. split; [|exact Hlen].
    assert (HF' : Forall2 (tracks st') (live ++ [(h, length d)]) (ls ++ [acc'])).
    { apply Forall2_app.
      - apply (tracks_frame st st' fl []); [exact HF| |apply (ps_frame _ _ _ _ _ _ PS)].
        intros x Hx. split; [apply (shape_fresh _ _ _ _ x Hs Hx)|]. intros H; inversion H.
      - constructor; [|constructor]. split; assumption. }
    constructor.
    + exact (ps_pool _ _ _ _ _ _ PS).
    + exact HF'.
    + rewrite concat_app. simpl. rewrite app_nil_r.
      rewrite (Permutation_app_comm (concat ls) acc'), app_assoc.
      rewrite (Permutation_app_comm fl' acc').
      apply NoDup_app. split; [exact (ps_nodup _ _ _ _ _ _ PS)|]. split; [|exact Hnd'].
      intros x Hx Hx'. destruct (shape_fresh _ _ _ _ x Hs Hx') as [H1 H2].
      destruct (ps_from _ _ _ _ _ _ PS x Hx); [contradiction|lia].
    + rewrite (ps_count _ _ _ _ _ _ PS), Hc, u32_add_l. f_equal.
      rewrite concat_app, length_app. simpl. rewrite app_nil_r. lia.
    + rewrite (ps_alloced _ _ _ _ _ _ PS), Ha, u32_add_l. f_equal. lia.
    + intros Hb. apply (ps_hwm _ _ _ _ _ _ PS). apply Hh. lia.
  - destruct Hpost as (fl' & leak & Hres & Hwhy & _).
    destruct Hwhy as [(-> & _)|(_ & Habs & _)]; [|discriminate].
    pose proof (rs_length _ _ _ _ _ _ Hres) as Hlen.
    pose proof (rs_pool _ _ _ _ _ _ Hres) as Hp'.
    exists live, st', fl', ls. split; [reflexivity|]. split; [|exact Hlen].
    assert (HF' : Forall2 (tracks st') live ls).
    { apply (tracks_frame st st' fl []); [exact HF| |apply (rs_frame _ _ _ _ _ _ Hres)].
      intros x Hx. split; [apply (shape_fresh _ _ _ _ x Hs Hx)|]. intros H; inversion H. }
    assert (Hnd2 : NoDup (fl' ++ concat ls)).
    { apply NoDup_app. split; [eapply chain_NoDup; apply Hp'|]. split; [|exact Hnd'].
      intros x Hx Hx'. destruct (shape_fresh _ _ _ _ x Hs Hx') as [H1 H2].
      destruct (rs_from _ _ _ _ _ _ Hres x Hx) as [H|[H|H]];
        [contradiction|lia|inversion H]. }
    constructor; auto.
    + rewrite (rs_count _ _ _ _ _ _ Hres), Hc. simpl.
      rewrite Z.sub_0_r, Z.add_0_r. apply uint_ok_u32.
    + rewrite (rs_alloced _ _ _ _ _ _ Hres), Ha, u32_add_l. f_equal. lia.
    + intros Hb. assert (Hb0 : Z.of_nat (length (arena st)) < 2 ^ 32) by lia.
      destruct (shape_count _ _ _ _ Hs Hb0) as [Hcx _].
      pose proof (in_use_bound _ _ _ _ Hp' HF' Hnd2) as Hu.
      apply (rs_hwm _ _ _ _ _ _ Hres); [auto|simpl; lia|simpl; lia].
Qed.

(** the chain at position [i] of the record, and the others *)
Lemma shape_pick st live fl ls i h len :
  shape st live fl ls -> live !! i = Some (h, len) ->
  exists l t,
    ls !! i = Some l /\ chain (arena st) (Some h) l /\ length l = nblocks len /\
    last l = Some t /\ (forall x, x ∈ l -> x ∉ fl) /\
    NoDup (fl ++ l ++ concat (delete i ls)) /\
    Forall2 (tracks st) (delete i live) (delete i ls) /\
    length (concat ls) = (length l + length (concat (delete i ls)))%nat.
Proof.
  intros [Hp HF Hnd _ _ _] Hi.
  destruct (Forall2_lookup_l _ _ _ _ _ HF Hi) as (l & Hl & Hc & Hlen).
  simpl in Hc, Hlen.
  assert (Ht : exists t, last l = Some t).
  { destruct (last l) eqn:E; [eauto|]. apply last_None in E. subst l.
    unfold nblocks in Hlen. discriminate. }
  destruct Ht as [t Ht]. exists l, t.
  pose proof (concat_delete_perm ls i l Hl) as Hperm.
  rewrite Hperm in Hnd.
  repeat (split; [assumption|]). split; [|split; [exact Hnd|split]].
  - intros x Hx Hfl. apply NoDup_app in Hnd as (_ & Hd & _).
    apply (Hd x Hfl). apply elem_of_app. auto.
  - apply Forall2_delete. exact HF.
  - rewrite Hperm, length_app. reflexivity.
Qed.

Lemma do_call_free st live fl ls i :
  shape st live fl ls ->
  exists live' st' fl' ls',
    do_call (Free i) live st = Ok (live', st') /\
    shape st' live' fl' ls' /\ (length (arena st) <= length (arena st'))%nat.
Proof.
  intros Hs. unfold do_call. destruct (live !! i) as [[h len]|] eqn:Hi.
  2:{ exists live, st, fl, ls. split; [reflexivity|]. split; [exact Hs|lia]. }
  destruct (shape_pick _ _ _ _ _ _ _ Hs Hi)
    as (l & t & Hl & Hc & Hlen & Ht & Hdisj & Hnd & HF & Hsum).
  pose proof Hs as [Hp _ _ Hcnt Ha Hh].
  assert (Hl0 : exists l0, l = h :: l0).
  { destruct l as [|a l0]; [discriminate|].
    destruct Hc as (Hx & _). injection Hx as ->. eauto. }
  destruct Hl0 as [l0 ->].
  destruct (blockdata_free_spec st fl h l0 Hp Hc Hdisj) as (st' & Hrun & Hrel).
  erewrite bind_Ok by exact Hrun.
  destruct Hrel as [Rp Rf Rk Rl Rc Rh Rho Rm Ra Re].
  exists (delete i live), st', ((h :: l0) ++ fl), (delete i ls).
  split; [reflexivity|]. split; [|lia].
  assert (Hnd' : NoDup (((h :: l0) ++ fl) ++ concat (delete i ls))).
  { rewrite (Permutation_app_comm (h :: l0) fl), <- app_assoc. exact Hnd. }
  constructor.
  - exact Rp.
  - apply (tracks_frame st st' fl (h :: l0)); [exact HF| |].
    + intros x Hx. apply NoDup_app in Hnd as (_ & Hd1 & Hnd2).
      apply NoDup_app in Hnd2 as (_ & Hd2 & _). split.
      * intros Hfl. apply (Hd1 x Hfl). apply elem_of_app. auto.
      * intros Hin. exact (Hd2 x Hin Hx).
    + intros x _ _ Hx. apply Rf. intros Hlast. apply Hx.
      apply last_Some_elem_of. congruence.
  - exact Hnd'.
  - rewrite Rc, Hcnt, u32_sub_l. f_equal. rewrite Hsum. lia.
  - rewrite Ra, Rl. exact Ha.
  - intros Hb. rewrite Rl in Hb. destruct (shape_count _ _ _ _ Hs Hb) as [Hcx _].
    apply Rho; [auto|]. pose proof (in_use_bound _ _ _ _ Hp (sh_chains _ _ _ _ Hs)
                                      (sh_nodup _ _ _ _ Hs)). lia.
Qed.

Lemma do_call_expand st live fl ls i d :
  shape st live fl ls ->
  exists live' st' fl' ls',
    do_call (Expand i d) live st = Ok (live', st') /\
    shape st' live' fl' ls' /\ (length (arena st) <= length (arena st'))%nat.
Proof.
  intros Hs. unfold do_call. destruct (live !! i) as [[h len]|] eqn:Hi.
  2:{ exists live, st, fl, ls. split; [reflexivity|]. split; [exact Hs|lia]. }
  destruct (shape_pick _ _ _ _ _ _ _ Hs Hi)
    as (l & t & Hl & Hc & Hlen & Ht & Hdisj & Hnd & HF & Hsum).
  pose proof Hs as [Hp HF0 Hnd0 Hcnt Ha Hh].
  destruct (blockdata_expand_spec st fl h l t len (Some d) d (length d) Hp Hc Ht Hdisj Hlen)
    as (r & st' & Hrun & Hpost).
  { intros _. split; [reflexivity|lia]. }
  erewrite bind_Ok by exact Hrun.
  assert (Hrest : forall x, x ∈ concat (delete i ls) -> (x ∉ fl) /\ (x ∉ l)).
  { intros x Hx. apply NoDup_app in Hnd as (_ & Hd1 & Hnd2).
    apply NoDup_app in Hnd2 as (_ & Hd2 & _). split.
    - intros Hfl. apply (Hd1 x Hfl). apply elem_of_app. auto.
    - intros Hin. exact (Hd2 x Hin Hx). }
  assert (Hrest' : forall x, x ∈ concat (delete i ls) -> (x < length (arena st))%nat).
  { intros x Hx. exact (tracks_bound st (delete i live) (delete i ls) x HF Hx). }
  assert (Hilt : (i < length live)%nat) by (eapply lookup_lt_Some; exact Hi).
  assert (Hlenls : length live = length ls) by (eapply Forall2_length; exact HF0).
  unfold expand_post in Hpost. rewrite !app_nil_r in Hpost.
  destruct Hpost as [(-> & acc' & fl' & PS & Hc' & Hlen' & _ & _)
                    |(-> & fl' & Hres & _)]; simpl.
  - pose proof (ps_length _ _ _ _ _ _ PS) as Hgrow.
    exists (<[i := (h, (len + length d)%nat)]> live), st', fl', (<[i := l ++ acc']> ls).
    split; [reflexivity|]. split; [|exact Hgrow].
    assert (Hperm := concat_insert_perm ls (l ++ acc') i l Hl).
    constructor.
    + exact (ps_pool _ _ _ _ _ _ PS).
    + apply Forall2_insert_deleted; auto.
      * apply (tracks_frame st st' fl l); [exact HF|exact Hrest|].
        apply (ps_frame _ _ _ _ _ _ PS).
      * split; [exact Hc'|]. simpl. rewrite length_app, Hlen, Hlen'.
        apply nblocks_expand.
    + rewrite Hperm.
      assert (Hp2 : fl' ++ (l ++ acc') ++ concat (delete i ls) ≡ₚ
                    (acc' ++ fl') ++ l ++ concat (delete i ls)).
      { rewrite <- !app_assoc. rewrite (Permutation_app_comm acc' (fl' ++ _)).
        rewrite <- !app_assoc. apply Permutation_app_head, Permutation_app_head.
        rewrite (Permutation_app_comm acc'). reflexivity. }
      rewrite Hp2. apply NoDup_app. split; [exact (ps_nodup _ _ _ _ _ _ PS)|].
      split; [|apply NoDup_app in Hnd; tauto].
      intros x Hx Hx'.
      assert (Hold : (x ∉ fl) /\ (x < length (arena st))%nat).
      { apply elem_of_app in Hx' as [Hx'|Hx'].
        - split; [auto|]. eapply lseg_lt; eassumption.
        - split; [apply Hrest; exact Hx'|apply Hrest'; exact Hx']. }
      destruct (ps_from _ _ _ _ _ _ PS x Hx); [tauto|lia].
    + rewrite (ps_count _ _ _ _ _ _ PS), Hcnt, u32_add_l. f_equal.
      rewrite Hperm, Hsum, !length_app. simpl length. lia.
    + rewrite (ps_alloced _ _ _ _ _ _ PS), Ha, u32_add_l. f_equal. lia.
    + intros Hb. apply (ps_hwm _ _ _ _ _ _ PS). apply Hh. lia.
  - pose proof (rs_length _ _ _ _ _ _ Hres) as Hgrow.
    pose proof (rs_pool _ _ _ _ _ _ Hres) as Hp'.
    exists (delete i live), st', fl', (delete i ls).
    split; [reflexivity|]. split; [|exact Hgrow].
    assert (HF' : Forall2 (tracks st') (delete i live) (delete i ls)).
    { apply (tracks_frame st st' fl l); [exact HF|exact Hrest|].
      apply (rs_frame _ _ _ _ _ _ Hres). }
    assert (Hnd2 : NoDup (fl' ++ concat (delete i ls))).
    { apply NoDup_app. split; [eapply chain_NoDup; apply Hp'|].
      split; [|apply NoDup_app in Hnd as (_ & _ & Hn); apply NoDup_app in Hn; tauto].
      intros x Hx Hx'. destruct (Hrest x Hx') as [H1 H2]. specialize (Hrest' x Hx').
      destruct (rs_from _ _ _ _ _ _ Hres x Hx) as [H|[H|H]]; [contradiction|lia|contradiction]. }
    constructor; auto.
    + rewrite (rs_count _ _ _ _ _ _ Hres), Hcnt, Z.add_0_r, u32_sub_l. f_equal.
      rewrite Hsum. lia.
    + rewrite (rs_alloced _ _ _ _ _ _ Hres), Ha, u32_add_l. f_equal. lia.
    + intros Hb. assert (Hb0 : Z.of_nat (length (arena st)) < 2 ^ 32) by lia.
      destruct (shape_count _ _ _ _ Hs Hb0) as [Hcx _].
      pose proof (in_use_bound _ _ _ _ Hp' HF' Hnd2) as Hu.
      apply (rs_hwm _ _ _ _ _ _ Hres); [auto|lia|lia].
Qed.

(** Any sequence of calls returns, and leaves the pool and the chains of the
    caller in shape. *)
Lemma do_calls_shape cs : forall st live fl ls,
  shape st live fl ls ->
  exists live' st' fl' ls',
    do_calls cs live st = Ok (live', st') /\
    shape st' live' fl' ls' /\ (length (arena st) <= length (arena st'))%nat.
Proof.
  induction cs as [|c cs IH]; intros st live fl ls Hs.
  - exists live, st, fl, ls. split; [reflexivity|]. split; [exact Hs|lia].
  - assert (Hstep : exists live1 st1 fl1 ls1,
              do_call c live st = Ok (live1, st1) /\
              shape st1 live1 fl1 ls1 /\ (length (arena st) <= length (arena st1))%nat).
    { destruct c as [d|i d|i].
      - apply (do_call_alloc st live fl ls d Hs).
      - apply (do_call_expand st live fl ls i d Hs).
      - apply (do_call_free st live fl ls i Hs). }
    destruct Hstep as (live1 & st1 & fl1 & ls1 & Hrun1 & Hs1 & Hlen1).
    destruct (IH st1 live1 fl1 ls1 Hs1) as (live' & st' & fl' & ls' & Hrun & Hs' & Hlen).
    exists live', st', fl', ls'. split; [|split; [exact Hs'|lia]].
    simpl. erewrite bind_Ok by exact Hrun1. exact Hrun.
Qed.

(** [blockdata_init] at process start: no block has been obtained yet and
    the history of the count begins. *)
Lemma blockdata_init_shape st dnssec (k : nat) :
  arena st = [] -> count_trace st = [] ->
  (dnssec = true ->
   (0 < k)%nat /\ Z.of_nat k * sizeof_blockdata < 2 ^ size_bits) ->
  exists st' fl,
    blockdata_init dnssec (Z.of_nat k) st = Ok (tt, st') /\ shape st' [] fl [].
Proof.
  intros Harena Htrace Hcfg. unfold blockdata_init. mpure.
  set (st0 := set_hwm 0 (set_count 0 (set_alloced 0 (set_free None st)))).
  assert (Ha0 : arena st0 = []) by exact Harena.
  assert (Ht0 : count_trace st0 = [0]) by (simpl; rewrite Htrace; reflexivity).
  assert (Hs0 : shape st0 [] [] []).
  { constructor.
    - split; [reflexivity|]. split; [|split; reflexivity].
      rewrite Ha0. intros a blk Ha. discriminate.
    - constructor.
    - constructor.
    - reflexivity.
    - rewrite Ha0. reflexivity.
    - intros _. unfold hwm_ok. rewrite Ht0. simpl. lia. }
  destruct dnssec.
  - destruct (Hcfg eq_refl) as [Hk Hfit].
    destruct (mallocs st0) as [|[c|] rest] eqn:Hm.
    + exists (set_mallocs (tail (mallocs st0)) st0), []. split.
      * apply add_blocks_deny. rewrite Hm. reflexivity.
      * destruct Hs0. constructor; auto.
    + destruct (add_blocks_grant k st0 c rest Hk Hfit Hm) as (m' & Hrun & Hlen & Hold & Hb).
      rewrite Ha0 in Hlen, Hb, Hrun. change (length []) with 0%nat in Hlen, Hb, Hrun.
      change (keyblock_free st0) with (@None nat) in Hb.
      change (blockdata_alloced st0) with 0 in Hrun.
      eexists. exists (seq 0 k). split; [exact Hrun|].
      constructor.
      * split; [|split; [|split; [reflexivity|apply uint_ok_u32]]].
        -- destruct k as [|k]; [lia|]. apply batch_lseg with (c := c). exact Hb.
        -- intros a blk Ha. change (m' !! a = Some blk) in Ha.
           assert (a < length m')%nat by (eapply lookup_lt_Some; exact Ha).
           replace a with (0 + a)%nat in Ha by lia. rewrite Hb in Ha by lia.
           injection Ha as <-. apply length_replicate.
      * constructor.
      * rewrite app_nil_r. apply NoDup_seq.
      * reflexivity.
      * change (u32 (0 + Z.of_nat k) = u32 (Z.of_nat (length m'))).
        rewrite Hlen. reflexivity.
      * intros _. unfold hwm_ok. change (0 = fold_right Z.max 0 (count_trace st0) /\ 0 <= 0).
        rewrite Ht0. simpl. lia.
    + exists (set_mallocs (tail (mallocs st0)) st0), []. split.
      * apply add_blocks_deny. rewrite Hm. reflexivity.
      * destruct Hs0. constructor; auto.
  - exists st0, []. split; [reflexivity|exact Hs0].
Qed.

(** X23. The accounting invariant for callers that allocate from memory: after
    [blockdata_init] at process start and any sequence of [blockdata_alloc],
    [blockdata_expand] and [blockdata_free] calls on the chains they hold,
    the caller holds well-formed chains and, as long as fewer than [2 ^ 32]
    blocks have been obtained, the count is the number of blocks of these
    chains, it is no more than the blocks ever allocated, and the high-water
    mark is the largest value the count has had. *)
Theorem session_accounting st dnssec (k : nat) cs :
  arena st = [] -> count_trace st = [] ->
  (dnssec = true ->
   (0 < k)%nat /\ Z.of_nat k * sizeof_blockdata < 2 ^ size_bits) ->
  exists live st' ls,
    (blockdata_init dnssec (Z.of_nat k) ;; do_calls cs []) st = Ok (live, st') /\
    Forall2 (tracks st') live ls /\ NoDup (concat ls) /\
    (Z.of_nat (length (arena st')) < 2 ^ 32 ->
     blockdata_count st' = Z.of_nat (length (concat ls)) /\
     blockdata_count st' <= blockdata_alloced st' /\
     blockdata_hwm st' = fold_right Z.max 0 (count_trace st')).
Proof.
  intros Harena Htrace Hcfg.
  destruct (blockdata_init_shape st dnssec k Harena Htrace Hcfg) as (st0 & fl0 & Hinit & Hs0).
  destruct (do_calls_shape cs st0 [] fl0 [] Hs0) as (live & st' & fl & ls & Hrun & Hs & _).
  exists live, st', ls. split; [|split; [exact (sh_chains _ _ _ _ Hs)|split]].
  - erewrite bind_Ok by exact Hinit. exact Hrun.
  - pose proof (sh_nodup _ _ _ _ Hs) as Hnd. apply NoDup_app in Hnd. tauto.
  - intros Hb. destruct (shape_count _ _ _ _ Hs Hb) as [Hc Ha].
    pose proof (in_use_bound _ _ _ _ (sh_pool _ _ _ _ Hs) (sh_chains _ _ _ _ Hs)
                  (sh_nodup _ _ _ _ Hs)) as Hu.
    split; [exact Hc|]. split; [lia|]. apply (sh_hwm _ _ _ _ Hs Hb).
Qed.

(** ** Further properties of the pool and the chains *)

(** X1. [new_block] on a well-formed pool.  It fails only when the free list
    is empty and [whine_malloc] refuses a batch, and then changes no
    counter.  Otherwise it returns the head of the free list, or the first
    of a batch of 50 new blocks when the free list is empty; the block
    returned has a null link, the count is one more and the high-water mark
    follows it. *)
Theorem new_block_outcomes st fl :
  pool_ok st fl ->
  exists r st',
    new_block st = Ok (r, st') /\
    match r with
    | None =>
        fl = [] /\ grants (mallocs st) = 0%nat /\
        st' = set_mallocs (tail (mallocs st)) st
    | Some a =>
        exists fl',
          pool_ok st' fl' /\
          (exists blk, arena st' !! a = Some blk /\ next blk = None) /\
          blockdata_count st' = u32 (blockdata_count st + 1) /\
          blockdata_hwm st' = Z.max (blockdata_hwm st) (blockdata_count st') /\
          ((fl = a :: fl' /\ mallocs st' = mallocs st /\
            blockdata_alloced st' = blockdata_alloced st /\
            length (arena st') = length (arena st)) \/
           (fl = [] /\ a = length (arena st) /\
            fl' = seq (S (length (arena st))) 49 /\
            (0 < grants (mallocs st))%nat /\ mallocs st' = tail (mallocs st) /\
            blockdata_alloced st' = u32 (blockdata_alloced st + 50) /\
            length (arena st') = (length (arena st) + 50)%nat))
    end.
Proof.
  intros Hp. destruct (new_block_spec st fl Hp) as [Hnone Hsome].
  destruct (Nat.eq_dec (avail st fl) 0%nat) as [Hav|Hav].
  - exists None. eexists. split; [apply Hnone; exact Hav|].
    unfold avail in Hav. split; [|split; [lia|reflexivity]].
    destruct fl; [reflexivity|simpl in Hav; lia].
  - destruct Hsome as (a & st' & fl' & Hrun & Hacq); [lia|].
    exists (Some a), st'. split; [exact Hrun|]. exists fl'.
    destruct Hacq as [Hp' Hblk Hfrom _ Hc Hh _ _].
    repeat (split; [assumption|]).
    destruct Hfrom as [(-> & Hl & Hm & Ha)|(-> & Hs & Hl & (c & Hm) & Ha)].
    + left. auto.
    + right. change (seq (length (arena st)) 50)
        with (length (arena st) :: seq (S (length (arena st))) 49) in Hs.
      injection Hs as -> ->. rewrite Hm. simpl. repeat split; auto. lia.
Qed.

(** X2. [blockdata_free] of a well-formed chain [l] that shares no block
    with the free list puts the whole chain, in its order, in front of the
    free list and takes its length off the count.  Nothing is given back to
    the system and nothing is cleared: the high-water mark, the number of
    blocks allocated and the arena keep their size, and every block, the
    released ones too, still holds its bytes; only the link of the last
    block of the chain is written. *)
Theorem free_pushes_chain st fl h l :
  pool_ok st fl -> chain (arena st) (Some h) l -> (forall x, x ∈ l -> x ∉ fl) ->
  exists st',
    blockdata_free (Some h) st = Ok (tt, st') /\
    pool_ok st' (l ++ fl) /\ keyblock_free st' = Some h /\
    blockdata_count st' = u32 (blockdata_count st - Z.of_nat (length l)) /\
    blockdata_hwm st' = blockdata_hwm st /\
    blockdata_alloced st' = blockdata_alloced st /\
    mallocs st' = mallocs st /\
    length (arena st') = length (arena st) /\
    (forall x blk, arena st !! x = Some blk ->
       exists blk', arena st' !! x = Some blk' /\ key blk' = key blk) /\
    (forall x, last l <> Some x -> arena st' !! x = arena st !! x).
Proof.
  intros Hp Hc Hdisj.
  assert (Hl : exists l0, l = h :: l0).
  { destruct l as [|a l0]; [unfold chain in Hc; simpl in Hc; discriminate|].
    destruct Hc as (Hh & _). injection Hh as ->. eauto. }
  destruct Hl as [l0 ->].
  destruct (blockdata_free_spec st fl h l0 Hp Hc Hdisj) as (st' & Hrun & Hrel).
  destruct Hrel as [Rp Rf Rk Rl Rc Rh _ Rm Ra _].
  exists st'. split; [exact Hrun|]. split; [exact Rp|].
  split; [destruct Rp as ((Hf & _) & _); exact Hf|].
  repeat (split; [assumption|]). exact Rf.
Qed.

(** X3. [blockdata_alloc] from a buffer that holds at least [len] bytes, on
    a well-formed pool.  It succeeds exactly when the pool can still supply
    the blocks [len] bytes take.  The chain returned has that many blocks,
    holds the first [len] bytes of the buffer, shares no block with the free
    list, and the count has gone up by its length.  When it fails the count
    is as before the call and the free list is well formed. *)
Theorem alloc_outcome st fl d len :
  pool_ok st fl -> (len <= length d)%nat ->
  exists r st',
    blockdata_alloc (Some d) len st = Ok (r, st') /\
    match r with
    | Some h =>
        (nblocks len <= avail st fl)%nat /\
        exists l fl',
          chain (arena st') (Some h) l /\ length l = nblocks len /\
          take len (contents (arena st') l) = take len d /\
          pool_ok st' fl' /\ (forall x, x ∈ l -> x ∉ fl') /\
          (avail st' fl' + nblocks len = avail st fl)%nat /\
          blockdata_count st' = u32 (blockdata_count st + Z.of_nat (nblocks len))
    | None =>
        (avail st fl < nblocks len)%nat /\
        blockdata_count st' = blockdata_count st /\
        exists fl', pool_ok st' fl'
    end.
Proof.
  intros Hp Hd.
  destruct (blockdata_alloc_real_spec st fl 0 (Some d) len Hp)
    as (r & st' & Hrun & Hpost).
  { intros d0 [= <-]. exact Hd. }
  exists r, st'. split; [exact Hrun|]. destruct r as [h|]; simpl in Hpost.
  - destruct Hpost as (l & fl' & PS & Hc & Hlen & _ & Hcont).
    pose proof (ps_avail _ _ _ _ _ _ PS) as Hav. simpl in Hav.
    split; [lia|]. exists l, fl'. split; [exact Hc|]. split; [exact Hlen|].
    split; [exact (Hcont d eq_refl)|]. split; [exact (ps_pool _ _ _ _ _ _ PS)|].
    split; [|split; [lia|]].
    + pose proof (ps_nodup _ _ _ _ _ _ PS) as Hnd. simpl in Hnd.
      apply NoDup_app in Hnd as (_ & Hdj & _). exact Hdj.
    + rewrite (ps_count _ _ _ _ _ _ PS). simpl. rewrite Hlen. reflexivity.
  - destruct Hpost as (fl' & leak & Hres & Hwhy & _).
    destruct Hwhy as [(-> & Hlt)|(_ & Habs & _)]; [|discriminate].
    split; [exact Hlt|]. split; [|exists fl'; exact (rs_pool _ _ _ _ _ _ Hres)].
    rewrite (rs_count _ _ _ _ _ _ Hres). simpl. rewrite Z.sub_0_r, Z.add_0_r.
    apply Hp.
Qed.

(** X4. Allocate and free are inverse on the pool: when the free list holds
    the blocks an allocation needs, [blockdata_alloc] followed by
    [blockdata_free] of the chain it returned leaves the free list as it
    was, the same blocks in the same order, and the count, the number of
    blocks allocated and the answers of [whine_malloc] as they were. *)
Theorem alloc_free_restores_pool st fl d len :
  pool_ok st fl -> (len <= length d)%nat -> (nblocks len <= length fl)%nat ->
  exists h st1 st2,
    blockdata_alloc (Some d) len st = Ok (Some h, st1) /\
    blockdata_free (Some h) st1 = Ok (tt, st2) /\
    pool_ok st2 fl /\ keyblock_free st2 = keyblock_free st /\
    blockdata_count st2 = blockdata_count st /\
    blockdata_alloced st2 = blockdata_alloced st /\
    mallocs st2 = mallocs st /\ length (arena st2) = length (arena st).
Proof.
  intros Hp Hd Hfit.
  destruct (blockdata_alloc_real_spec st fl 0 (Some d) len Hp)
    as (r & st1 & Hrun & Hpost).
  { intros d0 [= <-]. exact Hd. }
  destruct r as [h|]; simpl in Hpost.
  2:{ destruct Hpost as (fl' & leak & _ & Hwhy & _).
      destruct Hwhy as [(_ & Hlt)|(_ & Habs & _)]; [|discriminate].
      unfold avail in Hlt. lia. }
  destruct Hpost as (l & fl1 & PS & Hc & Hlen & _ & _).
  destruct (ps_nogrow _ _ _ _ _ _ PS) as (Hfl & Hm & Ha & Hsz); [simpl; lia|].
  simpl in Hfl.
  assert (Hl : exists l0, l = h :: l0).
  { destruct l as [|a l0]; [unfold chain in Hc; simpl in Hc; discriminate|].
    destruct Hc as (Hh & _). injection Hh as ->. eauto. }
  destruct Hl as [l0 ->].
  destruct (blockdata_free_spec st1 fl1 h l0 (ps_pool _ _ _ _ _ _ PS) Hc)
    as (st2 & Hfree & Hrel).
  { pose proof (ps_nodup _ _ _ _ _ _ PS) as Hnd.
    change (NoDup ((h :: l0) ++ fl1)) in Hnd.
    apply NoDup_app in Hnd as (_ & Hdj & _). exact Hdj. }
  destruct Hrel as [Rp _ _ Rl Rc _ _ Rm Ra _].
  exists h, st1, st2. split; [exact Hrun|]. split; [exact Hfree|].
  rewrite <- Hfl in Rp. split; [exact Rp|]. split; [|split; [|split; [|split]]].
  - destruct Rp as (Hf2 & _). destruct Hp as (Hf & _).
    unfold chain in Hf, Hf2. rewrite Hfl in Hf, Hf2.
    destruct Hf as (Hf & _). destruct Hf2 as (Hf2 & _). congruence.
  - rewrite Rc, (ps_count _ _ _ _ _ _ PS), u32_sub_l. simpl app.
    replace (blockdata_count st + Z.of_nat (length (h :: l0)) - Z.of_nat (length (h :: l0)))
      with (blockdata_count st) by lia.
    apply Hp.
  - congruence.
  - congruence.
  - congruence.
Qed.

(** a successful [blockdata_expand], with the pool it leaves *)
Lemma expand_grows st fl h l oldlen d newlen :
  pool_ok st fl -> chain (arena st) (Some h) l ->
  (forall x, x ∈ l -> x ∉ fl) -> length l = nblocks oldlen ->
  (newlen <= length d)%nat ->
  (newblocks (last_used oldlen) newlen <= avail st fl)%nat ->
  exists st' l' fl',
    blockdata_expand (Some h) oldlen (Some d) newlen st = Ok (1, st') /\
    pool_step st fl l l' st' fl' /\
    chain (arena st') (Some h) (l ++ l') /\
    length l' = newblocks (last_used oldlen) newlen /\
    (forall x, x ∈ l ++ l' -> x ∉ fl') /\
    take (oldlen + newlen) (contents (arena st') (l ++ l')) =
      take oldlen (contents (arena st) l) ++ take newlen d.
Proof.
  intros Hp Hc Hdisj Hlen Hd Hav.
  assert (Ht : exists t, last l = Some t).
  { destruct (last l) eqn:E; [eauto|]. apply last_None in E. subst l.
    unfold nblocks in Hlen. discriminate. }
  destruct Ht as [t Ht].
  destruct (blockdata_expand_spec st fl h l t oldlen (Some d) d newlen Hp Hc Ht Hdisj Hlen)
    as (r & st' & Hrun & Hpost).
  { intros _. split; [reflexivity|exact Hd]. }
  unfold expand_post in Hpost. rewrite !app_nil_r in Hpost.
  destruct Hpost as [(-> & l' & fl' & PS & Hc' & Hlen' & _ & Hcont)
                    |(_ & fl' & _ & Hlt)]; [|lia].
  exists st', l', fl'. split; [exact Hrun|]. split; [exact PS|].
  split; [exact Hc'|]. split; [exact Hlen'|]. split.
  - intros x Hx Hfl'. apply elem_of_app in Hx as [Hx|Hx].
    + destruct (ps_from _ _ _ _ _ _ PS x) as [H|H].
      * apply elem_of_app. auto.
      * exact (Hdisj x Hx H).
      * assert (x < length (arena st))%nat by (eapply lseg_lt; eassumption). lia.
    + pose proof (ps_nodup _ _ _ _ _ _ PS) as Hnd.
      apply NoDup_app in Hnd as (_ & Hdj & _). exact (Hdj x Hx Hfl').
  - rewrite Hlen, last_used_eq in Hcont. exact Hcont.
Qed.

(** X5. [blockdata_expand] appends: on a well-formed chain that holds
    [oldlen] bytes, when the pool can supply the blocks needed, the call
    returns 1; the chain keeps its head and its blocks and gets the new
    blocks behind them, it has the number of blocks [oldlen + newlen] bytes
    take, its first [oldlen] bytes are as they were and the next [newlen]
    bytes are the first [newlen] bytes of [data]; the count goes up by the
    number of new blocks. *)
Theorem expand_appends st fl h l oldlen d newlen :
  pool_ok st fl -> chain (arena st) (Some h) l ->
  (forall x, x ∈ l -> x ∉ fl) -> length l = nblocks oldlen ->
  (newlen <= length d)%nat ->
  (newblocks (last_used oldlen) newlen <= avail st fl)%nat ->
  exists st' l',
    blockdata_expand (Some h) oldlen (Some d) newlen st = Ok (1, st') /\
    chain (arena st') (Some h) (l ++ l') /\
    length (l ++ l') = nblocks (oldlen + newlen) /\
    take (oldlen + newlen) (contents (arena st') (l ++ l')) =
      take oldlen (contents (arena st) l) ++ take newlen d /\
    blockdata_count st' = u32 (blockdata_count st + Z.of_nat (length l')).
Proof.
  intros Hp Hc Hdisj Hlen Hd Hav.
  destruct (expand_grows st fl h l oldlen d newlen Hp Hc Hdisj Hlen Hd Hav)
    as (st' & l' & fl' & Hrun & PS & Hc' & Hlen' & _ & Hcont).
  exists st', l'. split; [exact Hrun|]. split; [exact Hc'|].
  split; [|split; [exact Hcont|exact (ps_count _ _ _ _ _ _ PS)]].
  rewrite length_app, Hlen, Hlen'. apply nblocks_expand.
Qed.

(** X6. Two expansions compose: extending a well-formed chain that holds
    [oldlen] bytes by the bytes [B] and then, at length
    [oldlen + length B], by the bytes [C] succeeds when the pool can supply
    the blocks [oldlen + length B + length C] bytes take, and leaves a chain
    of that many blocks that holds the old bytes followed by [B ++ C]. *)
Theorem expand_twice st fl h l oldlen (B C : list byte) :
  pool_ok st fl -> chain (arena st) (Some h) l ->
  (forall x, x ∈ l -> x ∉ fl) -> length l = nblocks oldlen ->
  (nblocks (oldlen + length B + length C) <= nblocks oldlen + avail st fl)%nat ->
  exists st1 st2 l2,
    blockdata_expand (Some h) oldlen (Some B) (length B) st = Ok (1, st1) /\
    blockdata_expand (Some h) (oldlen + length B) (Some C) (length C) st1 = Ok (1, st2) /\
    chain (arena st2) (Some h) l2 /\
    length l2 = nblocks (oldlen + length B + length C) /\
    take (oldlen + length B + length C) (contents (arena st2) l2) =
      take oldlen (contents (arena st) l) ++ B ++ C.
Proof.
  intros Hp Hc Hdisj Hlen Hav.
  pose proof (nblocks_expand oldlen (length B)) as E1.
  pose proof (nblocks_expand (oldlen + length B) (length C)) as E2.
  destruct (expand_grows st fl h l oldlen B (length B) Hp Hc Hdisj Hlen)
    as (st1 & l1 & fl1 & Hrun1 & PS1 & Hc1 & Hlen1 & Hdisj1 & Hcont1); [lia|lia|].
  pose proof (ps_avail _ _ _ _ _ _ PS1) as Hav1.
  destruct (expand_grows st1 fl1 h (l ++ l1) (oldlen + length B) C (length C)
              (ps_pool _ _ _ _ _ _ PS1) Hc1 Hdisj1)
    as (st2 & l2 & fl2 & Hrun2 & PS2 & Hc2 & Hlen2 & _ & Hcont2); [|lia|lia|].
  { rewrite length_app, Hlen, Hlen1. exact E1. }
  exists st1, st2, ((l ++ l1) ++ l2). split; [exact Hrun1|]. split; [exact Hrun2|].
  split; [exact Hc2|]. split.
  - rewrite length_app, length_app, Hlen, Hlen1, Hlen2. lia.
  - rewrite Hcont2, Hcont1. rewrite (take_ge B), (take_ge C) by lia.
    rewrite <- app_assoc. reflexivity.
Qed.

(** X7. [blockdata_expand] of the null chain, in full.  With [oldlen]
    beyond a block it returns 0; with nothing to add it returns 1; with
    bytes to add it writes through the null pointer, at once when
    [oldlen] is inside a block, and after a successful [new_block] when
    [oldlen] is exactly one block (when [new_block] fails there it
    returns 0). *)
Theorem expand_null_chain oldlen data newlen st :
  blockdata_expand None oldlen data newlen st =
    if (KEYBLOCK_LEN <? oldlen)%nat then Ok (0, st)
    else if (newlen =? 0)%nat then Ok (1, st)
    else if (oldlen <? KEYBLOCK_LEN)%nat then Crash
    else match new_block st with
         | Ok (Some _, _) => Crash
         | Ok (None, st') => Ok (0, st')
         | Crash => Crash
         | Diverge => Diverge
         end.
Proof using Type.
  clear KEYBLOCK_LEN_pos sizeof_blockdata_pos batch_fits.
  unfold blockdata_expand. simpl expand_find.
  rewrite andb_false_r. erewrite bind_Ok by reflexivity. cbv beta iota.
  destruct (Nat.ltb_spec KEYBLOCK_LEN oldlen) as [Hbig|Hsmall]; [reflexivity|].
  simpl expand_loop.
  destruct (Nat.eqb_spec newlen 0) as [->|Hnz].
  - simpl. unfold expand_copy. simpl. reflexivity.
  - destruct (Nat.ltb_spec oldlen KEYBLOCK_LEN) as [Hin|Hfull].
    + unfold expand_copy.
      destruct (Nat.leb_spec newlen (KEYBLOCK_LEN - oldlen)) as [Hle|Hgt].
      * destruct (Nat.eqb_spec newlen 0) as [Habs|_]; [contradiction|]. cbn [negb].
        unfold bind, read_src. destruct data as [d|]; [|reflexivity].
        destruct (bytes_at d 0 newlen); reflexivity.
      * destruct (Nat.eqb_spec (KEYBLOCK_LEN - oldlen) 0) as [Habs|_]; [lia|]. cbn [negb].
        unfold bind, read_src. destruct data as [d|]; [|reflexivity].
        destruct (bytes_at d 0 (KEYBLOCK_LEN - oldlen)); reflexivity.
    + assert (Hz : (KEYBLOCK_LEN - oldlen = 0)%nat) by lia. rewrite Hz.
      destruct (Nat.leb_spec newlen 0) as [Habs|_]; [lia|].
      unfold expand_copy. simpl negb. cbv iota. erewrite bind_Ok by reflexivity.
      cbn [snd fst]. destruct (Nat.eqb_spec newlen 0) as [Habs|_]; [contradiction|].
      unfold bind at 1. destruct (new_block st) as [[[a|] st']| |]; reflexivity.
Qed.

(** X8. The test of [blockdata_expand] for a chain that is too short for
    [oldlen].  When the chain is short by more than a block the test fires:
    the chain is released and 0 is returned.  When [oldlen] points into the
    block that would follow the last one the test does not fire: with
    nothing to add the call returns 1 and changes nothing, and with bytes to
    add at an offset inside that block it writes through the null pointer
    its walk ended on. *)
Theorem expand_short_chain st fl h l oldlen data newlen :
  pool_ok st fl -> chain (arena st) (Some h) l ->
  (forall x, x ∈ l -> x ∉ fl) ->
  (length l * KEYBLOCK_LEN < oldlen)%nat ->
  (((length l + 1) * KEYBLOCK_LEN < oldlen)%nat ->
     exists st', blockdata_expand (Some h) oldlen data newlen st = Ok (0, st') /\
       pool_ok st' (l ++ fl) /\
       blockdata_count st' = u32 (blockdata_count st - Z.of_nat (length l))) /\
  ((oldlen <= (length l + 1) * KEYBLOCK_LEN)%nat -> newlen = 0%nat ->
     blockdata_expand (Some h) oldlen data newlen st = Ok (1, st)) /\
  ((oldlen < (length l + 1) * KEYBLOCK_LEN)%nat -> (0 < newlen)%nat ->
     blockdata_expand (Some h) oldlen data newlen st = Crash).
Proof.
  intros Hp Hc Hdisj Hlo. split; [|split].
  - intros Hshort.
    destruct (expand_short_chain_noticed st fl h l oldlen data newlen Hp Hc Hdisj Hshort)
      as (st' & Hrun & Hrel).
    exists st'. split; [exact Hrun|].
    split; [exact (rel_pool _ _ _ _ Hrel)|exact (rel_count _ _ _ _ Hrel)].
  - intros Hhi ->. apply (expand_short_chain_unnoticed st h l oldlen data Hc). lia.
  - intros Hhi Hpos. unfold blockdata_expand.
    erewrite bind_Ok by (apply (expand_find_spec st l); [exact Hc|lia]).
    assert (Hdiv : ((oldlen - 1) / KEYBLOCK_LEN = length l)%nat).
    { symmetry. apply (Nat.div_unique _ _ _ (oldlen - 1 - length l * KEYBLOCK_LEN)%nat); lia. }
    rewrite Hdiv, Nat.min_id. rewrite lookup_ge_None_2 by lia.
    set (used := (oldlen - length l * KEYBLOCK_LEN)%nat).
    assert (Hused : (0 < used < KEYBLOCK_LEN)%nat) by (unfold used; lia).
    destruct (Nat.ltb_spec KEYBLOCK_LEN used) as [Habs|_]; [lia|].
    simpl expand_loop. unfold expand_copy.
    destruct (Nat.leb_spec newlen (KEYBLOCK_LEN - used)) as [Hle|Hgt].
    + destruct (Nat.eqb_spec newlen 0) as [Habs|_]; [lia|]. cbn [negb].
      unfold bind, read_src. destruct data as [d|]; [|reflexivity].
      destruct (bytes_at d 0 newlen); reflexivity.
    + destruct (Nat.eqb_spec (KEYBLOCK_LEN - used) 0) as [Habs|_]; [lia|]. cbn [negb].
      unfold bind, read_src. destruct data as [d|]; [|reflexivity].
      destruct (bytes_at d 0 (KEYBLOCK_LEN - used)); reflexivity.
Qed.

(** X9. [blockdata_retrieve] into a caller's buffer copies the first [len]
    bytes the chain holds to the start of the buffer and returns the buffer.
    It stops at the end of the chain: asked for more bytes than the chain
    has blocks for, it copies what the chain has and leaves the rest of the
    buffer as it was (all of it for the null chain), and it needs room only
    for what it copies.  Nothing but the buffer changes. *)
Theorem retrieve_stops_at_chain_end st block l len d old :
  chain (arena st) block l -> keys_ok (arena st) ->
  bufs st !! d = Some (Some old) ->
  (Nat.min len (length l * KEYBLOCK_LEN) <= length old)%nat ->
  exists bs,
    blockdata_retrieve block len (Some d) st = Ok (Some d, set_bufs bs st) /\
    bs !! d =
      Some (Some (take len (contents (arena st) l) ++
                  drop (Nat.min len (length l * KEYBLOCK_LEN)) old)) /\
    (forall i, i <> d -> bs !! i = bufs st !! i).
Proof using KEYBLOCK_LEN_pos.
  clear sizeof_blockdata_pos batch_fits.
  intros Hc Hk Hd Hroom.
  assert (HL : length (contents (arena st) l) = (length l * KEYBLOCK_LEN)%nat).
  { apply contents_length; [exact Hk|]. intros x Hx. eapply lseg_lt; eassumption. }
  eexists. split; [|split].
  - apply (retrieve_into st block l len d old Hc Hk Hd Hroom).
  - rewrite list_lookup_insert_eq by (eapply lookup_lt_Some; exact Hd).
    unfold splice. rewrite take_0, length_take, HL. reflexivity.
  - intros i Hi. apply list_lookup_insert_ne. auto.
Qed.

(** X10. Chains do not interfere.  On a well-formed pool, a block that is
    neither on the free list nor in the chain an operation is given is as it
    was after the operation, link and bytes, whether the operation succeeds
    or fails: for [blockdata_alloc] and [blockdata_read], for
    [blockdata_expand] and for [blockdata_free]. *)
Theorem other_chains_untouched st fl x :
  pool_ok st fl -> (x < length (arena st))%nat -> x ∉ fl ->
  (forall fd data len,
     (forall d, data = Some d -> (len <= length d)%nat) ->
     exists r st', blockdata_alloc_real fd data len st = Ok (r, st') /\
       arena st' !! x = arena st !! x) /\
  (forall h l oldlen data d newlen,
     chain (arena st) (Some h) l -> (forall y, y ∈ l -> y ∉ fl) ->
     length l = nblocks oldlen ->
     ((0 < newlen)%nat -> data = Some d /\ (newlen <= length d)%nat) ->
     x ∉ l ->
     exists r st', blockdata_expand (Some h) oldlen data newlen st = Ok (r, st') /\
       arena st' !! x = arena st !! x) /\
  (forall h l,
     chain (arena st) (Some h) l -> (forall y, y ∈ l -> y ∉ fl) -> x ∉ l ->
     exists st', blockdata_free (Some h) st = Ok (tt, st') /\
       arena st' !! x = arena st !! x).
Proof.
  intros Hp Hx Hxfl. split; [|split].
  - intros fd data len Hd.
    destruct (blockdata_alloc_real_spec st fl fd data len Hp Hd)
      as (r & st' & Hrun & Hpost).
    exists r, st'. split; [exact Hrun|]. destruct r as [h|]; simpl in Hpost.
    + destruct Hpost as (l & fl' & PS & _).
      apply (ps_frame _ _ _ _ _ _ PS); auto. intros H; inversion H.
    + destruct Hpost as (fl' & leak & Hres & _).
      apply (rs_frame _ _ _ _ _ _ Hres); auto. intros H; inversion H.
  - intros h l oldlen data d newlen Hc Hdisj Hlen Hdata Hxl.
    assert (Ht : exists t, last l = Some t).
    { destruct (last l) eqn:E; [eauto|]. apply last_None in E. subst l.
      unfold nblocks in Hlen. discriminate. }
    destruct Ht as [t Ht].
    destruct (blockdata_expand_spec st fl h l t oldlen data d newlen Hp Hc Ht Hdisj Hlen Hdata)
      as (r & st' & Hrun & Hpost).
    exists r, st'. split; [exact Hrun|].
    unfold expand_post in Hpost. rewrite !app_nil_r in Hpost.
    destruct Hpost as [(_ & l' & fl' & PS & _)|(_ & fl' & Hres & _)].
    + apply (ps_frame _ _ _ _ _ _ PS); auto.
    + apply (rs_frame _ _ _ _ _ _ Hres); auto.
  - intros h l Hc Hdisj Hxl.
    assert (Hl : exists l0, l = h :: l0).
    { destruct l as [|a l0]; [unfold chain in Hc; simpl in Hc; discriminate|].
      destruct Hc as (Hh & _). injection Hh as ->. eauto. }
    destruct Hl as [l0 ->].
    destruct (blockdata_free_spec st fl h l0 Hp Hc Hdisj) as (st' & Hrun & Hrel).
    exists st'. split; [exact Hrun|]. apply (rel_frame _ _ _ _ Hrel).
    intros Hlast. apply Hxl. apply last_Some_elem_of. exact Hlast.
Qed.

(** [blockdata_init] with DNSSEC validation when [whine_malloc] grants the
    blocks: whatever the pool was before, [cachesize] new blocks are the
    free list and the counters start again. *)
Lemma blockdata_init_grant st (k : nat) c rest :
  keys_ok (arena st) ->
  (0 < k)%nat -> Z.of_nat k * sizeof_blockdata < 2 ^ size_bits ->
  mallocs st = Some c :: rest ->
  exists st1,
    blockdata_init true (Z.of_nat k) st = Ok (tt, st1) /\
    pool_ok st1 (seq (length (arena st)) k) /\
    blockdata_count st1 = 0 /\ blockdata_hwm st1 = 0 /\
    blockdata_alloced st1 = u32 (Z.of_nat k) /\ mallocs st1 = rest /\
    length (arena st1) = (length (arena st) + k)%nat.
Proof.
  intros Hk Hpos Hfit Hm. unfold blockdata_init. mpure.
  set (st0 := set_hwm 0 (set_count 0 (set_alloced 0 (set_free None st)))).
  destruct (add_blocks_grant k st0 c rest Hpos Hfit Hm) as (m' & Hrun & Hlen & Hold & Hb).
  change (arena st0) with (arena st) in Hrun, Hlen, Hold, Hb.
  change (keyblock_free st0) with (@None nat) in Hb.
  change (blockdata_alloced st0) with 0 in Hrun.
  eexists. split; [exact Hrun|].
  split; [|split; [reflexivity|split; [reflexivity|split; [reflexivity|split; [reflexivity|exact Hlen]]]]].
  split; [|split; [|split; [reflexivity|apply uint_ok_u32]]].
  - destruct k as [|k]; [lia|]. apply batch_lseg with (c := c). exact Hb.
  - intros a blk Ha. change (m' !! a = Some blk) in Ha.
    destruct (Nat.lt_ge_cases a (length (arena st))) as [Hlt|Hge].
    + rewrite Hold in Ha by exact Hlt. eapply Hk. exact Ha.
    + assert (a < length m')%nat by (eapply lookup_lt_Some; exact Ha).
      replace a with (length (arena st) + (a - length (arena st)))%nat in Ha by lia.
      rewrite Hb in Ha by lia. injection Ha as <-. apply length_replicate.
Qed.

(** X11. Preallocation: [blockdata_init] with DNSSEC validation and a
    positive [cachesize] that [whine_malloc] grants leaves [cachesize]
    blocks on the free list, the count and the high-water mark at zero and
    the number of blocks allocated at [cachesize]; an allocation that needs
    no more than [cachesize] blocks then succeeds with the first of these
    blocks, in their order, without another call to [whine_malloc]. *)
Theorem init_preallocates st (k : nat) c rest d len :
  keys_ok (arena st) ->
  (0 < k)%nat -> Z.of_nat k * sizeof_blockdata < 2 ^ size_bits ->
  mallocs st = Some c :: rest ->
  (len <= length d)%nat -> (nblocks len <= k)%nat ->
  exists st1 st2,
    blockdata_init true (Z.of_nat k) st = Ok (tt, st1) /\
    pool_ok st1 (seq (length (arena st)) k) /\
    blockdata_count st1 = 0 /\ blockdata_hwm st1 = 0 /\
    blockdata_alloced st1 = u32 (Z.of_nat k) /\
    blockdata_alloc (Some d) len st1 = Ok (Some (length (arena st)), st2) /\
    chain (arena st2) (Some (length (arena st)))
      (seq (length (arena st)) (nblocks len)) /\
    mallocs st2 = rest /\ blockdata_alloced st2 = u32 (Z.of_nat k).
Proof.
  intros Hk Hpos Hfit Hm Hd Hneed.
  destruct (blockdata_init_grant st k c rest Hk Hpos Hfit Hm)
    as (st1 & Hinit & Hp1 & Hc1 & Hh1 & Ha1 & Hm1 & Hl1).
  destruct (blockdata_alloc_real_spec st1 _ 0 (Some d) len Hp1)
    as (r & st2 & Hrun & Hpost).
  { intros d0 [= <-]. exact Hd. }
  destruct r as [h|]; simpl in Hpost.
  2:{ destruct Hpost as (fl' & leak & _ & Hwhy & _).
      destruct Hwhy as [(_ & Hlt)|(_ & Habs & _)]; [|discriminate].
      unfold avail in Hlt. rewrite length_seq in Hlt. lia. }
  destruct Hpost as (l & fl' & PS & Hc & Hlen & _ & _).
  destruct (ps_nogrow _ _ _ _ _ _ PS) as (Hfl & Hm2 & Ha2 & _).
  { simpl. rewrite length_seq. lia. }
  simpl in Hfl.
  assert (Hl : l = seq (length (arena st)) (nblocks len)).
  { apply (f_equal (take (nblocks len))) in Hfl.
    rewrite take_seq, Nat.min_l in Hfl by lia.
    rewrite <- Hlen, take_app_length in Hfl. congruence. }
  subst l.
  assert (Hh : h = length (arena st)).
  { unfold nblocks in Hc. simpl in Hc. destruct Hc as (Hh & _). congruence. }
  subst h.
  exists st1, st2. repeat (split; [assumption|]). split; congruence.
Qed.

(** X12. The [cachesize] that [blockdata_init] hands to [add_blocks] must be
    positive and its array must fit in a [size_t]: with DNSSEC validation
    on, when [whine_malloc] returns memory for a [cachesize] that is zero or
    negative, or whose size in bytes wraps around, the store to
    [new[n-1].next] is outside the memory obtained. *)
Theorem init_cachesize_out_of_range st c rest cachesize :
  mallocs st = Some c :: rest ->
  cachesize <= 0 \/ 2 ^ size_bits <= cachesize * sizeof_blockdata ->
  blockdata_init true cachesize st = Crash.
Proof.
  intros Hm Hbad. unfold blockdata_init. mpure.
  set (st0 := set_hwm 0 (set_count 0 (set_alloced 0 (set_free None st)))).
  unfold add_blocks, whine_malloc_blocks at 1, bind at 1.
  change (mallocs st0) with (mallocs st). rewrite Hm.
  set (cnt := Z.to_nat (to_size_t (cachesize * sizeof_blockdata) / sizeof_blockdata)).
  assert (Hpow : 0 < 2 ^ size_bits) by lia.
  assert (Hcnt : Z.of_nat cnt <= cachesize - 1 \/ cachesize - 1 < 0).
  { destruct (Z.le_gt_cases cachesize 0) as [Hle|Hgt]; [right; lia|left].
    destruct Hbad as [Habs|Hwrap]; [lia|].
    unfold cnt, to_size_t.
    pose proof (Z.mod_pos_bound (cachesize * sizeof_blockdata) (2 ^ size_bits) Hpow) as Hb.
    assert (Hlt : (cachesize * sizeof_blockdata) mod 2 ^ size_bits
                  < sizeof_blockdata * cachesize).
    { pose proof (Z.div_mod (cachesize * sizeof_blockdata) (2 ^ size_bits) ltac:(lia)) as Hdm.
      assert (1 <= cachesize * sizeof_blockdata / 2 ^ size_bits).
      { apply Z.div_le_lower_bound; lia. }
      nia. }
    apply Z.div_lt_upper_bound in Hlt; [|lia].
    rewrite Z2Nat.id by (apply Z.div_pos; lia). lia. }
  unfold bind at 1, elem. cbn [fst snd].
  destruct (Z.leb_spec 0 (cachesize - 1)) as [H0|H0];
    destruct (Z.ltb_spec (cachesize - 1) (Z.of_nat cnt)) as [H1|H1];
    cbn [andb]; try reflexivity.
  lia.
Qed.

(** X13. [blockdata_retrieve] without destination, for more bytes than
    [buff_len]: when [whine_malloc] grants it, the call returns a new buffer
    of exactly [len] bytes that holds the first [len] bytes of the chain; the
    scratch buffer of the call before, if there is one, has been freed, so
    the pointer that call returned is dangling; [buff] is the new buffer and
    [buff_len] is what it was. *)
Theorem retrieve_scratch_fresh st block l len c rest :
  chain (arena st) block l -> keys_ok (arena st) ->
  (len <= length l * KEYBLOCK_LEN)%nat ->
  buff_len st < Z.of_nat len -> mallocs st = Some c :: rest ->
  (forall p, buff st = Some p -> exists old, bufs st !! p = Some (Some old)) ->
  exists st',
    blockdata_retrieve block len None st = Ok (Some (length (bufs st)), st') /\
    bufs st' !! length (bufs st) = Some (Some (take len (contents (arena st) l))) /\
    (forall p, buff st = Some p -> bufs st' !! p = Some None) /\
    buff st' = Some (length (bufs st)) /\ buff_len st' = buff_len st /\
    mallocs st' = rest.
Proof using KEYBLOCK_LEN_pos.
  clear sizeof_blockdata_pos batch_fits.
  intros Hc Hk Hlen Hbl Hm Hbuff.
  set (d := length (bufs st)).
  set (st1 := set_bufs (bufs st ++ [Some (replicate len c)]) (set_mallocs rest st)).
  assert (Hw : whine_malloc len st = Ok (Some d, st1)).
  { unfold whine_malloc. rewrite Hm. reflexivity. }
  assert (Hstep : exists bs2,
            (forall st2, st2 = set_buff (Some d) (set_bufs bs2 st1) ->
               (do old <- gets buff;
                (if old is Some p then free_buf p else ret tt) ;;
                modify (set_buff (Some d)) ;;
                do cur <- gets buff;
                ret (Some cur)) st1 = Ok (Some (Some d), st2)) /\
            bs2 !! d = Some (Some (replicate len c)) /\
            (forall p, buff st = Some p -> bs2 !! p = Some None)).
  { destruct (buff st) as [p|] eqn:Hb.
    - destruct (Hbuff p eq_refl) as [old Hold].
      assert (Hp : (p < d)%nat) by (eapply lookup_lt_Some; exact Hold).
      exists (<[p := None]> (bufs st1)). split; [|split].
      + intros st2 ->. erewrite bind_Ok by reflexivity.
        change (buff st1) with (buff st). rewrite Hb.
        assert (Hf : free_buf p st1 = Ok (tt, set_bufs (<[p := None]> (bufs st1)) st1)).
        { unfold free_buf. change (bufs st1) with (bufs st ++ [Some (replicate len c)]).
          rewrite lookup_app_l by exact Hp. rewrite Hold. reflexivity. }
        erewrite bind_Ok by exact Hf. reflexivity.
      + rewrite list_lookup_insert_ne by lia.
        change (bufs st1) with (bufs st ++ [Some (replicate len c)]).
        rewrite lookup_app_r by (unfold d; lia).
        replace (d - length (bufs st))%nat with 0%nat by (unfold d; lia). reflexivity.
      + intros p' [= <-]. apply list_lookup_insert_eq.
        change (bufs st1) with (bufs st ++ [Some (replicate len c)]).
        rewrite length_app. lia.
    - exists (bufs st1). split; [|split].
      + intros st2 ->. erewrite bind_Ok by reflexivity.
        change (buff st1) with (buff st). rewrite Hb.
        destruct st. reflexivity.
      + change (bufs st1) with (bufs st ++ [Some (replicate len c)]).
        rewrite lookup_app_r by (unfold d; lia).
        replace (d - length (bufs st))%nat with 0%nat by (unfold d; lia). reflexivity.
      + intros p' Habs. discriminate. }
  destruct Hstep as (bs2 & Hrun2 & Hd2 & Hfreed).
  set (st2 := set_buff (Some d) (set_bufs bs2 st1)).
  specialize (Hrun2 st2 eq_refl).
  assert (HL : length (contents (arena st) l) = (length l * KEYBLOCK_LEN)%nat).
  { apply contents_length; [exact Hk|]. intros x Hx. eapply lseg_lt; eassumption. }
  eexists. split; [|split; [|split; [|split; [|split]]]].
  - unfold blockdata_retrieve. rewrite bind_assoc.
    erewrite bind_Ok by reflexivity.
    destruct (Z.ltb_spec (buff_len st) (Z.of_nat len)) as [_|Habs]; [|lia].
    rewrite bind_assoc. erewrite bind_Ok by exact Hw. cbv iota.
    erewrite bind_Ok by exact Hrun2. cbv iota.
    erewrite bind_Ok by (apply (retrieve_loop_spec l (block) 0 len st2 (replicate len c) d);
                         [exact Hc|exact Hk|exact Hd2|rewrite length_replicate; lia|lia]).
    reflexivity.
  - simpl. rewrite list_lookup_insert_eq by (eapply lookup_lt_Some; exact Hd2).
    f_equal. f_equal. unfold splice. rewrite take_0. cbn [app].
    rewrite drop_ge; [apply app_nil_r|].
    rewrite length_replicate, length_take. lia.
  - intros p Hp. simpl.
    assert (Hpd : p <> d).
    { destruct (Hbuff p Hp) as [old Hold]. apply lookup_lt_Some in Hold. unfold d. lia. }
    rewrite list_lookup_insert_ne by auto. apply Hfreed. exact Hp.
  - reflexivity.
  - reflexivity.
  - reflexivity.
Qed.

(** ** What an operation leaves alone *)

(** [keeps f m]: whenever [m] returns, the observation [f] of the state is
    what it was. *)
Definition keeps {A B} (f : state -> B) (m : M A) : Prop :=
  forall st a st', m st = Ok (a, st') -> f st' = f st.

Section Keeps.
Context {B : Type} (f : state -> B).

Lemma keeps_ret {A} (a : A) : keeps f (ret a).
Proof using Type. intros st x st' [= <- <-]. reflexivity. Qed.

Lemma keeps_crash {A} : keeps f (@crash A).
Proof using Type. intros st x st' H. discriminate. Qed.

Lemma keeps_diverge {A} : keeps f (@diverge A).
Proof using Type. intros st x st' H. discriminate. Qed.

Lemma keeps_gets {A} (g : state -> A) : keeps f (gets g).
Proof using Type. intros st x st' [= <- <-]. reflexivity. Qed.

Lemma keeps_modify g : (forall st, f (g st) = f st) -> keeps f (modify g).
Proof using Type.
  intros Hg st x st' H. unfold modify in H. injection H as _ <-. apply Hg.
Qed.

Lemma keeps_bind {A C} (m : M A) (k : A -> M C) :
  keeps f m -> (forall a, keeps f (k a)) -> keeps f (bind m k).
Proof using Type.
  intros Hm Hk st x st' H. apply bind_inv in H as (a & st1 & H1 & H2).
  rewrite (Hk a _ _ _ H2). exact (Hm _ _ _ H1).
Qed.

(** go through a sequence of actions, closing each one with [tac] *)
Ltac keeps_with tac := repeat first [ tac | apply keeps_bind; [|intros ?] ].

Lemma keeps_load b : keeps f (load b).
Proof using Type.
  intros st x st' H. unfold load in H.
  destruct b as [a|]; [|discriminate].
  destruct (arena st !! a); [|discriminate]. injection H as <- <-. reflexivity.
Qed.

Lemma keeps_elem new i : keeps f (elem new i).
Proof using Type.
  unfold elem. destruct (_ && _); [apply keeps_ret|apply keeps_crash].
Qed.

Lemma keeps_read_src data n : keeps f (read_src data n).
Proof using Type.
  unfold read_src. destruct data as [d|]; [|apply keeps_crash].
  destruct (bytes_at d 0 n); [apply keeps_ret|apply keeps_crash].
Qed.

(** observations that do not look at the arena, ... *)
Hypothesis f_arena : forall m st, f (set_arena m st) = f st.

Lemma keeps_store_next b p : keeps f (store_next b p).
Proof using f_arena.
  unfold store_next. apply keeps_bind; [apply keeps_load|]. intros blk st x st' H.
  destruct b as [a|]; [|discriminate]. injection H as _ <-. apply f_arena.
Qed.

Lemma keeps_memcpy_key b off src : keeps f (memcpy_key b off src).
Proof using f_arena.
  unfold memcpy_key. apply keeps_bind; [apply keeps_load|]. intros blk.
  destruct b as [a|]; [|apply keeps_crash].
  destruct (write_at (key blk) off src); [|apply keeps_crash].
  apply keeps_modify. intros st. apply f_arena.
Qed.

Lemma keeps_link_blocks new todo : forall i, keeps f (link_blocks new i todo).
Proof using f_arena.
  induction todo as [|todo IH]; intros i; simpl; [apply keeps_ret|].
  keeps_with ltac:(first [apply keeps_elem | apply keeps_store_next | apply IH]).
Qed.

(** ... at the free list, ... *)
Hypothesis f_free : forall p st, f (set_free p st) = f st.

(** ... at the count (and its history) *)
Hypothesis f_count : forall c st, f (set_count c st) = f st.

Lemma keeps_free_walk fuel : forall tmp, keeps f (free_walk fuel tmp).
Proof using f_count.
  induction fuel as [|fuel IH]; intros tmp; simpl; [apply keeps_diverge|].
  apply keeps_bind; [apply keeps_load|]. intros blk.
  destruct (next blk); [|apply keeps_ret].
  apply keeps_bind; [|intros _; apply IH].
  apply keeps_modify. intros st. apply f_count.
Qed.

Lemma keeps_blockdata_free blocks : keeps f (blockdata_free blocks).
Proof using f_arena f_free f_count.
  unfold blockdata_free. destruct blocks as [a|]; [|apply keeps_ret].
  keeps_with ltac:(first [ apply keeps_gets | apply keeps_free_walk
                         | apply keeps_store_next
                         | apply keeps_modify; intros st; first [apply f_free|apply f_count] ]).
Qed.

(** ... nor at the other counters and the answers of [whine_malloc] *)
Hypothesis f_hwm : forall h st, f (set_hwm h st) = f st.
Hypothesis f_alloced : forall a st, f (set_alloced a st) = f st.
Hypothesis f_mallocs : forall o st, f (set_mallocs o st) = f st.

Lemma keeps_add_blocks n : keeps f (add_blocks n).
Proof using f_arena f_free f_alloced f_mallocs.
  unfold add_blocks. apply keeps_bind.
  - intros st x st' H. unfold whine_malloc_blocks in H.
    destruct (mallocs st) as [|[c|] rest]; injection H as <- <-;
      rewrite ?f_arena, ?f_mallocs; reflexivity.
  - intros [arr|]; [|apply keeps_ret].
    keeps_with ltac:(first [ apply keeps_elem | apply keeps_gets | apply keeps_store_next
                           | apply keeps_link_blocks
                           | apply keeps_modify; intros st; first [apply f_free|apply f_alloced] ]).
Qed.

Lemma keeps_new_block : keeps f new_block.
Proof using f_arena f_free f_count f_hwm f_alloced f_mallocs.
  unfold new_block.
  apply keeps_bind; [apply keeps_gets|]. intros fr.
  apply keeps_bind; [destruct fr; [apply keeps_ret|apply keeps_add_blocks]|]. intros _.
  apply keeps_bind; [apply keeps_gets|]. intros [a|]; [|apply keeps_ret].
  keeps_with ltac:(first [ apply keeps_load | apply keeps_store_next | apply keeps_ret
                         | apply keeps_modify; intros st;
                           first [ apply f_free | apply f_count
                                 | unfold bump_hwm; destruct (_ <? _);
                                   [apply f_hwm|reflexivity] ] ]).
Qed.

Lemma keeps_assign_prev prev block ret_ : keeps f (assign_prev prev block ret_).
Proof using f_arena.
  unfold assign_prev. destruct prev; [|apply keeps_ret].
  apply keeps_bind; [apply keeps_store_next|]. intros _. apply keeps_ret.
Qed.

End Keeps.

(** ** Streams *)

Lemma set_streams_id st : set_streams (streams st) st = st.
Proof using Type. destruct st; reflexivity. Qed.

Lemma find_other_stream fd fd' x (l : list (Z * list byte)) :
  fd' <> fd ->
  List.find (fun e => Z.eqb (fst e) fd')
    ((fd, x) :: List.filter (fun e => negb (Z.eqb (fst e) fd)) l) =
  List.find (fun e => Z.eqb (fst e) fd') l.
Proof using Type.
  clear KEYBLOCK_LEN_pos sizeof_blockdata_pos batch_fits.
  intros Hne. simpl. destruct (Z.eqb_spec fd fd') as [Heq|_]; [congruence|].
  induction l as [|[g s] l IH]; simpl; [reflexivity|].
  destruct (Z.eqb_spec g fd) as [->|Hg]; simpl.
  - destruct (Z.eqb_spec fd fd'); [congruence|]. exact IH.
  - destruct (Z.eqb_spec g fd'); [reflexivity|exact IH].
Qed.

Lemma pending_read fd n st s :
  pending fd st = Some s ->
  exists ss,
    read_write_read fd n st =
      Ok ((take n s, (n <=? length s)%nat), set_streams ss st) /\
    pending fd (set_streams ss st) = Some (drop n s) /\
    (forall fd', fd' <> fd -> pending fd' (set_streams ss st) = pending fd' st).
Proof using Type.
  clear KEYBLOCK_LEN_pos sizeof_blockdata_pos batch_fits.
  unfold pending, read_write_read. intros H.
  destruct (List.find _ (streams st)) as [[g s']|] eqn:E; [|discriminate].
  simpl in H. injection H as ->.
  eexists. split; [reflexivity|]. split.
  - unfold set_streams. cbn [streams List.find fst]. rewrite Z.eqb_refl. reflexivity.
  - intros fd' Hne. unfold set_streams. cbn [streams].
    rewrite find_other_stream by exact Hne. reflexivity.
Qed.

Lemma pending_write fd bs st s :
  pending fd st = Some s ->
  exists ss,
    read_write_write fd bs st = Ok (true, set_streams ss st) /\
    pending fd (set_streams ss st) = Some (s ++ bs) /\
    (forall fd', fd' <> fd -> pending fd' (set_streams ss st) = pending fd' st).
Proof using Type.
  clear KEYBLOCK_LEN_pos sizeof_blockdata_pos batch_fits.
  unfold pending, read_write_write. intros H.
  destruct (List.find _ (streams st)) as [[g s']|] eqn:E; [|discriminate].
  simpl in H. injection H as ->.
  eexists. split; [reflexivity|]. split.
  - unfold set_streams. cbn [streams List.find fst]. rewrite Z.eqb_refl. reflexivity.
  - intros fd' Hne. unfold set_streams. cbn [streams].
    rewrite find_other_stream by exact Hne. reflexivity.
Qed.

Lemma pending_write_closed fd bs st :
  pending fd st = None -> read_write_write fd bs st = Ok (false, st).
Proof using Type.
  unfold pending, read_write_write. intros H.
  destruct (List.find _ (streams st)) as [[g s']|]; [discriminate|reflexivity].
Qed.

Lemma write_loop_spec fd l : forall b len st s fuel,
  chain (arena st) b l -> keys_ok (arena st) ->
  pending fd st = Some s -> (len < fuel)%nat ->
  exists ss,
    write_loop fuel b len fd st = Ok (tt, set_streams ss st) /\
    pending fd (set_streams ss st) = Some (s ++ take len (contents (arena st) l)) /\
    (forall fd', fd' <> fd -> pending fd' (set_streams ss st) = pending fd' st).
Proof using KEYBLOCK_LEN_pos.
  clear sizeof_blockdata_pos batch_fits.
  assert (Hstop : forall st s, pending fd st = Some s ->
            exists ss, ret tt st = Ok (tt, set_streams ss st) /\
              pending fd (set_streams ss st) = Some (s ++ []) /\
              (forall fd', fd' <> fd -> pending fd' (set_streams ss st) = pending fd' st)).
  { intros st s Hs. exists (streams st). rewrite set_streams_id, app_nil_r. auto. }
  induction l as [|a l IH]; intros b len st s fuel Hc Hk Hs Hfuel;
    (destruct fuel as [|fuel]; [lia|]); simpl write_loop.
  - unfold chain in Hc. simpl in Hc. subst b. rewrite andb_false_r.
    unfold contents. simpl. rewrite take_nil. apply Hstop. exact Hs.
  - destruct Hc as (-> & blk & Hb & Hrest).
    destruct (Nat.ltb_spec 0 len) as [Hpos|Hz].
    2:{ simpl. assert (len = 0%nat) by lia. subst len. rewrite take_0.
        apply Hstop. exact Hs. }
    rewrite bool_decide_eq_true_2 by eauto. cbn [andb].
    erewrite bind_Ok by (apply load_Some; exact Hb).
    pose proof (Hk _ _ Hb) as Hkl.
    set (blen := if (KEYBLOCK_LEN <? len)%nat then KEYBLOCK_LEN else len).
    assert (Hblen : blen = Nat.min len KEYBLOCK_LEN).
    { unfold blen. destruct (Nat.ltb_spec KEYBLOCK_LEN len); lia. }
    assert (Hbytes : bytes_at (key blk) 0 blen = Some (take blen (key blk))).
    { unfold bytes_at. destruct (Nat.leb_spec (0 + blen) (length (key blk))); [|lia].
      rewrite drop_0. reflexivity. }
    rewrite Hbytes.
    destruct (pending_write fd (take blen (key blk)) st s Hs) as (ss1 & Hw & Hs1 & Ho1).
    erewrite bind_Ok by exact Hw.
    destruct (IH (next blk) (len - blen)%nat (set_streams ss1 st) _ fuel Hrest Hk Hs1)
      as (ss2 & Hrun & Hs2 & Ho2); [lia|].
    exists ss2. split; [exact Hrun|]. split.
    + change (set_streams ss2 (set_streams ss1 st)) with (set_streams ss2 st) in Hs2.
      rewrite Hs2. f_equal. rewrite <- app_assoc. f_equal.
      change (arena (set_streams ss1 st)) with (arena st).
      unfold contents at 2. simpl flat_map. rewrite Hb.
      fold (contents (arena st) l).
      rewrite take_app, Hkl. f_equal.
      * rewrite Hblen. destruct (Nat.le_gt_cases KEYBLOCK_LEN len).
        -- rewrite Nat.min_r by lia. rewrite !take_ge by lia. reflexivity.
        -- rewrite Nat.min_l by lia. reflexivity.
      * f_equal. lia.
    + intros fd' Hne. rewrite <- (Ho1 fd' Hne). apply (Ho2 fd' Hne).
Qed.

(** X14. [blockdata_write] sends the first [len] bytes the chain holds to
    the descriptor, in order, and stops at the end of the chain when the
    chain holds fewer; nothing but this descriptor changes.  When the
    descriptor is not open every write fails, the failures go unnoticed, and
    the call returns with nothing changed. *)
Theorem write_emits_chain st block l len fd :
  chain (arena st) block l -> keys_ok (arena st) ->
  match pending fd st with
  | Some s =>
      exists ss,
        blockdata_write block len fd st = Ok (tt, set_streams ss st) /\
        pending fd (set_streams ss st) =
          Some (s ++ take len (contents (arena st) l)) /\
        (forall fd', fd' <> fd -> pending fd' (set_streams ss st) = pending fd' st)
  | None => blockdata_write block len fd st = Ok (tt, st)
  end.
Proof using KEYBLOCK_LEN_pos.
  clear sizeof_blockdata_pos batch_fits.
  intros Hc Hk. destruct (pending fd st) as [s|] eqn:Hs.
  - apply (write_loop_spec fd l block len st s (S len) Hc Hk Hs). lia.
  - unfold blockdata_write.
    assert (Hgen : forall fuel b n, (n < fuel)%nat -> forall l0, chain (arena st) b l0 ->
              write_loop fuel b n fd st = Ok (tt, st)).
    { induction fuel as [|fuel IH]; intros b n Hn l0 Hc0; [lia|]. simpl.
      destruct l0 as [|a l0].
      - unfold chain in Hc0. simpl in Hc0. subst b. rewrite andb_false_r. reflexivity.
      - destruct Hc0 as (-> & blk & Hb & Hrest).
        destruct (Nat.ltb_spec 0 n) as [Hpos|Hz]; [|reflexivity].
        rewrite bool_decide_eq_true_2 by eauto. cbn [andb].
        erewrite bind_Ok by (apply load_Some; exact Hb).
        pose proof (Hk _ _ Hb) as Hkl.
        set (blen := if (KEYBLOCK_LEN <? n)%nat then KEYBLOCK_LEN else n).
        assert (Hblen : blen = Nat.min n KEYBLOCK_LEN).
        { unfold blen. destruct (Nat.ltb_spec KEYBLOCK_LEN n); lia. }
        assert (Hbytes : bytes_at (key blk) 0 blen = Some (take blen (key blk))).
        { unfold bytes_at. destruct (Nat.leb_spec (0 + blen) (length (key blk))); [|lia].
          rewrite drop_0. reflexivity. }
        rewrite Hbytes.
        erewrite bind_Ok by (apply pending_write_closed; exact Hs).
        apply IH with (l0 := l0); [lia|exact Hrest]. }
    apply Hgen with (l0 := l); [lia|exact Hc].
Qed.

Lemma new_block_streams st r st' :
  new_block st = Ok (r, st') -> streams st' = streams st.
Proof using Type.
  apply (keeps_new_block streams); intros; reflexivity.
Qed.

Lemma blockdata_free_streams blocks st r st' :
  blockdata_free blocks st = Ok (r, st') -> streams st' = streams st.
Proof using Type.
  apply (keeps_blockdata_free streams); intros; reflexivity.
Qed.

Lemma fill_block_read fd a blen st blk s :
  arena st !! a = Some blk -> length (key blk) = KEYBLOCK_LEN ->
  (0 < blen <= KEYBLOCK_LEN)%nat -> pending fd st = Some s ->
  exists ss,
    fill_block fd None (Some a) blen st =
      Ok ((if (blen <=? length s)%nat then Some None else None),
          set_arena (<[a := mkBlock (next blk) (splice (key blk) 0 (take blen s))]>
                       (arena st)) (set_streams ss st)) /\
    pending fd (set_streams ss st) = Some (drop blen s).
Proof using Type.
  clear KEYBLOCK_LEN_pos sizeof_blockdata_pos batch_fits.
  intros Hb Hk Hblen Hs. unfold fill_block.
  destruct (Nat.ltb_spec 0 blen) as [_|Habs]; [|lia].
  destruct (pending_read fd blen st s Hs) as (ss & Hr & Hs' & _).
  exists ss. split; [|exact Hs'].
  erewrite bind_Ok by exact Hr. cbn [fst snd].
  erewrite bind_Ok by (apply (memcpy_key_Some (set_streams ss st) a blk);
                       [exact Hb|rewrite length_take; simpl; lia]).
  destruct (blen <=? length s)%nat; reflexivity.
Qed.

(** What [blockdata_alloc_real] has done with the descriptor [fd], on which
    the bytes [s] are still to come, seen from an iteration that starts in
    [st] with the blocks [acc] already chained. *)
Lemma alloc_loop_read st0 fl0 fd : forall fuel len ret_ st fl acc s,
  (len < fuel)%nat ->
  pool_step st0 fl0 [] acc st fl ->
  chain (arena st) ret_ acc ->
  pending fd st = Some s ->
  forall r st',
    alloc_loop fuel fd None len ret_ (last acc) st = Ok (r, st') ->
    match r with
    | Some h =>
        (len <= length s)%nat /\ pending fd st' = Some (drop len s) /\
        exists acc',
          chain (arena st') (Some h) (acc ++ acc') /\
          length acc' = nblocks len /\
          (forall x, x ∈ acc -> key_at (arena st') x = key_at (arena st) x) /\
          take len (contents (arena st') acc') = take len s
    | None => (avail st fl < nblocks len)%nat \/ (length s < len)%nat
    end.
Proof.
  induction fuel as [|fuel IH]; intros len ret_ st fl acc s Hfuel PS Hc Hs r st' Hrun; [lia|].
  pose proof (ps_pool _ _ _ _ _ _ PS) as Hp.
  destruct (new_block_spec st fl Hp) as [Hnone Hsome].
  simpl alloc_loop in Hrun.
  destruct (Nat.eq_dec (avail st fl) 0%nat) as [Hav|Hav].
  { erewrite bind_Ok in Hrun by (apply Hnone; exact Hav).
    apply bind_inv in Hrun as (u & st1 & _ & Hret). injection Hret as <- <-.
    left. unfold nblocks. lia. }
  destruct Hsome as (a & st1 & fl1 & Hnew & Hacq); [lia|].
  erewrite bind_Ok in Hrun by exact Hnew. cbv beta iota zeta in Hrun.
  assert (Hs1 : pending fd st1 = Some s).
  { unfold pending in *. rewrite (new_block_streams _ _ _ Hnew). exact Hs. }
  pose proof (pool_step_acquire _ _ _ _ _ _ _ _ _ PS Hacq) as PS1.
  pose proof (acquired_avail _ _ _ _ _ Hacq) as Hav1.
  assert (Hacc : forall x, x ∈ acc -> x <> a /\ arena st1 !! x = arena st !! x).
  { intros x Hx. eapply acquired_other; [exact Hacq| |].
    - eapply ps_bound; eassumption.
    - pose proof (ps_nodup _ _ _ _ _ _ PS) as Hnd.
      apply NoDup_app in Hnd as (_ & Hd & _). apply Hd. exact Hx. }
  assert (Hna : a ∉ acc).
  { intros Hin. destruct (Hacc a Hin) as [Hne _]. congruence. }
  destruct (acq_block _ _ _ _ _ Hacq) as (blka & Hba & Hnext).
  pose proof (ps_pool _ _ _ _ _ _ PS1) as (_ & Hk1 & _).
  pose proof (Hk1 _ _ Hba) as Hka.
  set (blen := if (KEYBLOCK_LEN <? len)%nat then KEYBLOCK_LEN else len) in *.
  assert (Hblen : blen = Nat.min len KEYBLOCK_LEN).
  { unfold blen. destruct (Nat.ltb_spec KEYBLOCK_LEN len); lia. }
  (* the block after it has been filled, and what is left on the descriptor *)
  assert (Hfill : exists cont k' ss,
            fill_block fd None (Some a) blen st1 =
              Ok (cont, set_arena (<[a := mkBlock None k']> (arena st1)) (set_streams ss st1)) /\
            length k' = KEYBLOCK_LEN /\
            pending fd (set_streams ss st1) = Some (drop blen s) /\
            ((cont = Some None /\ (blen <= length s)%nat /\ take blen k' = take blen s) \/
             (cont = None /\ (length s < blen)%nat))).
  { destruct (Nat.eq_dec blen 0%nat) as [Hz|Hnz].
    - exists (Some None), (key blka), (streams st1). rewrite Hz.
      split; [|split; [exact Hka|split]].
      + unfold fill_block. simpl. unfold ret.
        replace (mkBlock None (key blka)) with blka by (destruct blka; simpl in *; congruence).
        rewrite list_insert_id by exact Hba.
        rewrite set_streams_id, set_arena_id. reflexivity.
      + rewrite set_streams_id, drop_0. exact Hs1.
      + left. rewrite !take_0. split; [reflexivity|]. split; [lia|reflexivity].
    - destruct (fill_block_read fd a blen st1 blka s Hba Hka ltac:(lia) Hs1)
        as (ss & Hf & Hs2).
      rewrite Hnext in Hf.
      exists (if (blen <=? length s)%nat then Some None else None),
             (splice (key blka) 0 (take blen s)), ss.
      split; [exact Hf|]. split; [|split; [exact Hs2|]].
      + rewrite splice_length; [exact Hka|]. rewrite length_take. simpl. lia.
      + destruct (Nat.leb_spec blen (length s)) as [Hle|Hgt].
        * left. split; [reflexivity|]. split; [exact Hle|].
          unfold splice. rewrite take_0. cbn [app].
          rewrite take_app_le by (rewrite length_take; lia).
          rewrite take_take. f_equal. lia.
        * right. split; [reflexivity|exact Hgt]. }
  destruct Hfill as (cont & k' & ss & Hfill & Hk' & Hs2 & Hcont).
  erewrite bind_Ok in Hrun by exact Hfill.
  set (st2 := set_arena (<[a := mkBlock None k']> (arena st1)) (set_streams ss st1)) in *.
  destruct Hcont as [(-> & Hle & Htk)|(-> & Hgt)].
  2:{ (* the read was short *)
      apply bind_inv in Hrun as (u & st3 & _ & Hret). injection Hret as <- <-.
      right. lia. }
  assert (PS2 : pool_step st0 fl0 [] (acc ++ [a]) st2 fl1).
  { apply (pool_step_write _ _ _ _ (set_streams ss st1) _ a blka).
    - apply pool_step_streams. exact PS1.
    - left. apply elem_of_app. right. apply list_elem_of_singleton. reflexivity.
    - exact Hba.
    - exact Hk'. }
  assert (Hba2 : arena st2 !! a = Some (mkBlock None k')).
  { unfold st2. simpl. apply list_lookup_insert_eq. eapply lookup_lt_Some. exact Hba. }
  assert (Hacc2 : forall x, x ∈ acc -> arena st2 !! x = arena st !! x).
  { intros x Hx. destruct (Hacc x Hx) as [Hne Heq]. unfold st2. simpl.
    rewrite list_lookup_insert_ne by auto. exact Heq. }
  assert (Hc2 : chain (arena st2) ret_ acc).
  { eapply lseg_ext; [exact Hc|]. exact Hacc2. }
  destruct (assign_prev_spec st2 ret_ acc a _ Hc2 Hba2 eq_refl Hna)
    as (m3 & h & Hasg & Hc3 & Hm3).
  erewrite bind_Ok in Hrun by exact Hasg.
  set (st3 := set_arena m3 st2) in *.
  assert (PS3 : pool_step st0 fl0 [] (acc ++ [a]) st3 fl1).
  { destruct Hm3 as [(_ & ->)|(t & blkt & Ht & Hbt & ->)].
    - unfold st3. rewrite set_arena_id. exact PS2.
    - apply (pool_step_write _ _ _ _ st2 _ t blkt); auto.
      + left. apply elem_of_app. auto.
      + simpl. pose proof (ps_pool _ _ _ _ _ _ PS2) as (_ & Hk2 & _).
        eapply Hk2. exact Hbt. }
  assert (Hkeys3 : forall x, x ∈ acc -> key_at (arena st3) x = key_at (arena st) x).
  { intros x Hx. unfold key_at. rewrite <- (Hacc2 x Hx).
    destruct Hm3 as [(_ & ->)|(t & blkt & Ht & Hbt & ->)]; [reflexivity|].
    change (arena st3) with (<[t := mkBlock (Some a) (key blkt)]> (arena st2)).
    destruct (decide (x = t)) as [->|Hne].
    - rewrite list_lookup_insert_eq by (eapply lookup_lt_Some; exact Hbt).
      rewrite Hbt. reflexivity.
    - rewrite list_lookup_insert_ne by auto. reflexivity. }
  assert (Hkeya3 : key_at (arena st3) a = Some k').
  { unfold key_at.
    destruct Hm3 as [(_ & ->)|(t & blkt & Ht & Hbt & ->)].
    - change (arena st3) with (arena st2). rewrite Hba2. reflexivity.
    - change (arena st3) with (<[t := mkBlock (Some a) (key blkt)]> (arena st2)).
      rewrite list_lookup_insert_ne by (intros ->; contradiction).
      rewrite Hba2. reflexivity. }
  assert (Hs3 : pending fd st3 = Some (drop blen s)) by exact Hs2.
  destruct (Nat.eqb_spec (len - blen) 0%nat) as [Hlast|Hmore].
  { (* this was the last block *)
    injection Hrun as <- <-.
    assert (Hbl : blen = len) by lia. rewrite Hbl in *.
    split; [exact Hle|]. split; [exact Hs3|].
    exists [a]. split; [exact Hc3|].
    split; [symmetry; apply nblocks_small; lia|]. split; [exact Hkeys3|].
    rewrite (contents_cons _ _ _ _ Hkeya3). unfold contents. simpl.
    rewrite app_nil_r. exact Htk. }
  assert (Hbig : (KEYBLOCK_LEN < len)%nat) by lia.
  assert (Hbl : blen = KEYBLOCK_LEN) by lia.
  assert (Hlast : last (acc ++ [a]) = Some a) by apply last_snoc.
  rewrite <- Hlast in Hrun.
  specialize (IH (len - blen)%nat (Some h) st3 fl1 (acc ++ [a]) (drop blen s)
                ltac:(lia) PS3 Hc3 Hs3 r st' Hrun).
  assert (Hav3 : avail st3 fl1 = avail st1 fl1) by reflexivity.
  destruct r as [h'|].
  - destruct IH as (Hle' & Hs' & acc'' & Hc' & Hlen' & Hkeys' & Hcont').
    rewrite length_drop in Hle'. rewrite drop_drop in Hs'.
    split; [lia|]. split; [rewrite Hs'; f_equal; f_equal; lia|].
    exists (a :: acc''). rewrite <- app_assoc in Hc'. simpl in Hc'.
    split; [exact Hc'|].
    split; [simpl; rewrite Hlen', (nblocks_step len) by lia; rewrite Hbl; reflexivity|].
    split.
    + intros x Hx. rewrite Hkeys' by (apply elem_of_app; auto). apply Hkeys3. exact Hx.
    + assert (Hka' : key_at (arena st') a = Some k').
      { rewrite Hkeys'; [exact Hkeya3|]. apply elem_of_app. right.
        apply list_elem_of_singleton. reflexivity. }
      rewrite (contents_cons _ _ _ _ Hka').
      rewrite take_app, Hk'. rewrite (take_ge k') by lia.
      rewrite <- Hbl, Hcont'. rewrite Hbl in Htk. rewrite take_ge in Htk by lia.
      rewrite Htk, Hbl. rewrite take_take_drop. f_equal. lia.
  - rewrite length_drop in IH. rewrite Hav3 in IH.
    rewrite (nblocks_step len) by lia. rewrite Hbl in IH. lia.
Qed.

(** [blockdata_alloc_real] without a buffer takes its bytes from the
    descriptor *)
Lemma alloc_real_from_stream st fl fd s len :
  pool_ok st fl -> pending fd st = Some s ->
  (len <= length s)%nat -> (nblocks len <= avail st fl)%nat ->
  exists h st' l,
    blockdata_alloc_real fd None len st = Ok (Some h, st') /\
    chain (arena st') (Some h) l /\ length l = nblocks len /\
    take len (contents (arena st') l) = take len s /\
    pending fd st' = Some (drop len s) /\
    blockdata_count st' = u32 (blockdata_count st + Z.of_nat (nblocks len)).
Proof.
  intros Hp Hs Hlen Hav.
  destruct (blockdata_alloc_real_spec st fl fd None len Hp)
    as (r & st' & Hrun & Hpost); [discriminate|].
  pose proof (alloc_loop_read st fl fd (S len) len None st fl [] s ltac:(lia)
                (pool_step_refl st fl [] Hp) eq_refl Hs r st' Hrun) as Hread.
  destruct r as [h|].
  - destruct Hread as (_ & Hs' & l & Hc & Hl & _ & Hcont).
    simpl in Hpost. destruct Hpost as (l0 & fl' & PS & Hc0 & Hl0 & _).
    exists h, st', l. split; [exact Hrun|]. split; [exact Hc|]. split; [exact Hl|].
    split; [exact Hcont|]. split; [exact Hs'|].
    rewrite (ps_count _ _ _ _ _ _ PS). simpl. rewrite Hl0. reflexivity.
  - destruct Hread as [Habs|Habs]; lia.
Qed.

(** X15. [blockdata_read] of [len] bytes from a descriptor on which at least
    [len] bytes are still to come, when the pool can supply the blocks:
    the call returns a chain of the blocks [len] bytes take, which holds the
    first [len] bytes of the stream; exactly these bytes have been taken off
    the descriptor, and the count has gone up by the length of the chain. *)
Theorem read_builds_chain st fl fd s len :
  pool_ok st fl -> pending fd st = Some s ->
  (len <= length s)%nat -> (nblocks len <= avail st fl)%nat ->
  exists h st' l,
    blockdata_read fd len st = Ok (Some h, st') /\
    chain (arena st') (Some h) l /\ length l = nblocks len /\
    take len (contents (arena st') l) = take len s /\
    pending fd st' = Some (drop len s) /\
    blockdata_count st' = u32 (blockdata_count st + Z.of_nat (nblocks len)).
Proof.
  intros Hp Hs Hlen Hav.
  exact (alloc_real_from_stream st fl fd s len Hp Hs Hlen Hav).
Qed.

(** X21. [blockdata_alloc] with a null [data] and a length that is not zero
    does not fail: it hands descriptor 0 to [blockdata_alloc_real], which
    reads the bytes from it.  With at least [len] bytes to come on
    descriptor 0 the chain returned holds the first [len] of them, and they
    are gone from the descriptor. *)
Theorem alloc_null_source_reads_descriptor_0 st fl s len :
  pool_ok st fl -> pending 0 st = Some s -> (0 < len)%nat ->
  (len <= length s)%nat -> (nblocks len <= avail st fl)%nat ->
  exists h st' l,
    blockdata_alloc None len st = Ok (Some h, st') /\
    chain (arena st') (Some h) l /\
    take len (contents (arena st') l) = take len s /\
    pending 0 st' = Some (drop len s).
Proof.
  intros Hp Hs _ Hlen Hav.
  destruct (alloc_real_from_stream st fl 0 s len Hp Hs Hlen Hav)
    as (h & st' & l & Hrun & Hc & _ & Hcont & Hs' & _).
  exists h, st', l. auto.
Qed.

(** X22. The empty chain of the comment on [blockdata_expand]:
    [blockdata_alloc(NULL, 0)] returns a chain of one block that holds no
    byte, and [blockdata_expand] of it at length 0 by the bytes [B] makes it
    the chain of [B]: [blockdata_retrieve] of [length B] bytes returns [B],
    and the count has gone up by the blocks [length B] bytes take. *)
Theorem empty_chain_then_expand st fl (B : list byte) d old :
  pool_ok st fl -> (nblocks (length B) <= avail st fl)%nat ->
  bufs st !! d = Some (Some old) -> (length B <= length old)%nat ->
  exists h st1 st2 st3,
    blockdata_alloc None 0 st = Ok (Some h, st1) /\
    chain (arena st1) (Some h) [h] /\
    blockdata_expand (Some h) 0 (Some B) (length B) st1 = Ok (1, st2) /\
    blockdata_retrieve (Some h) (length B) (Some d) st2 = Ok (Some d, st3) /\
    bufs st3 !! d = Some (Some (B ++ drop (length B) old)) /\
    blockdata_count st2 = u32 (blockdata_count st + Z.of_nat (nblocks (length B))).
Proof.
  intros Hp Hav Hd Hroom.
  assert (Hone : (1 <= nblocks (length B))%nat) by (unfold nblocks; lia).
  destruct (blockdata_alloc_real_spec st fl 0 None 0 Hp)
    as (r & st1 & Hrun & Hpost); [discriminate|].
  destruct r as [h|]; simpl in Hpost.
  2:{ destruct Hpost as (fl' & leak & _ & Hwhy & _).
      destruct Hwhy as [(_ & Hlt)|(_ & _ & Habs)]; [|lia].
      rewrite (nblocks_small 0) in Hlt by lia. lia. }
  destruct Hpost as (l & fl1 & PS & Hc & Hlen & _ & _).
  pose proof (ps_avail _ _ _ _ _ _ PS) as Hav1. simpl in Hav1.
  pose proof (nblocks_expand 0 (length B)) as E.
  change (0 + length B)%nat with (length B) in E.
  rewrite (nblocks_small 0) in Hlen, E by lia.
  assert (Hl : l = [h]).
  { destruct l as [|a [|b l]]; try discriminate.
    destruct Hc as (Hh & _). congruence. }
  subst l.
  destruct (expand_grows st1 fl1 h [h] 0 B (length B) (ps_pool _ _ _ _ _ _ PS) Hc)
    as (st2 & l' & fl2 & Hrun2 & PS2 & Hc2 & Hlen2 & _ & Hcont);
    [|rewrite (nblocks_small 0) by lia; reflexivity|lia|simpl length in Hav1; lia|].
  { pose proof (ps_nodup _ _ _ _ _ _ PS) as Hnd. simpl app in Hnd.
    change (NoDup ([h] ++ fl1)) in Hnd.
    apply NoDup_app in Hnd as (_ & Hdj & _). exact Hdj. }
  pose proof (ps_pool _ _ _ _ _ _ PS2) as (_ & Hk2 & _).
  destruct (ps_env _ _ _ _ _ _ PS) as (Hb1 & _).
  destruct (ps_env _ _ _ _ _ _ PS2) as (Hb2 & _).
  assert (Hd2 : bufs st2 !! d = Some (Some old)) by (rewrite Hb2, Hb1; exact Hd).
  exists h, st1, st2. eexists.
  split; [exact Hrun|]. split; [exact Hc|]. split; [exact Hrun2|]. split; [|split].
  - apply (retrieve_into st2 (Some h) ([h] ++ l') (length B) d old Hc2 Hk2 Hd2). lia.
  - cbn [bufs set_bufs].
    rewrite list_lookup_insert_eq by (eapply lookup_lt_Some; exact Hd2).
    change (0 + length B)%nat with (length B) in Hcont.
    rewrite Hcont, take_0, (take_ge B) by lia.
    unfold splice. rewrite take_0. reflexivity.
  - rewrite (ps_count _ _ _ _ _ _ PS2), (ps_count _ _ _ _ _ _ PS), u32_add_l.
    f_equal. simpl length. rewrite Hlen2. simpl length in Hlen. lia.
Qed.

(** X16. A read that comes short in [blockdata_read]: with fewer than [len]
    bytes to come on the descriptor and a pool that can supply the blocks,
    the call returns [NULL], the free list is well formed, and the count is
    one more than before the call: the block acquired for the read that
    failed is not among those released. *)
Theorem short_read_keeps_a_block st fl fd s len :
  pool_ok st fl -> pending fd st = Some s ->
  (length s < len)%nat -> (nblocks len <= avail st fl)%nat ->
  exists st' fl',
    blockdata_read fd len st = Ok (None, st') /\
    pool_ok st' fl' /\
    blockdata_count st' = u32 (blockdata_count st + 1).
Proof.
  intros Hp Hs Hlen Hav.
  destruct (blockdata_alloc_real_spec st fl fd None len Hp)
    as (r & st' & Hrun & Hpost); [discriminate|].
  pose proof (alloc_loop_read st fl fd (S len) len None st fl [] s ltac:(lia)
                (pool_step_refl st fl [] Hp) eq_refl Hs r st' Hrun) as Hread.
  destruct r as [h|].
  - destruct Hread as (Habs & _). lia.
  - simpl in Hpost. destruct Hpost as (fl' & leak & Hres & Hwhy & _).
    exists st', fl'. split; [exact Hrun|]. split; [exact (rs_pool _ _ _ _ _ _ Hres)|].
    destruct Hwhy as [(_ & Habs)|(-> & _)]; [lia|].
    rewrite (rs_count _ _ _ _ _ _ Hres). f_equal. simpl. lia.
Qed.

(** X17. Stream round trip: [blockdata_write] of the first [len] bytes of a
    chain to a descriptor on which nothing is pending, followed by
    [blockdata_read] of [len] bytes from it, returns, when the pool can
    supply the blocks, a second chain that holds the same [len] bytes; the
    first chain is as it was and the descriptor is empty again. *)
Theorem write_read_round_trip st fl h l len fd :
  pool_ok st fl -> chain (arena st) (Some h) l ->
  (forall x, x ∈ l -> x ∉ fl) ->
  (len <= length l * KEYBLOCK_LEN)%nat ->
  pending fd st = Some [] -> (nblocks len <= avail st fl)%nat ->
  exists st1 h' st2 l',
    blockdata_write (Some h) len fd st = Ok (tt, st1) /\
    blockdata_read fd len st1 = Ok (Some h', st2) /\
    chain (arena st2) (Some h') l' /\ length l' = nblocks len /\
    take len (contents (arena st2) l') = take len (contents (arena st) l) /\
    chain (arena st2) (Some h) l /\
    contents (arena st2) l = contents (arena st) l /\
    pending fd st2 = Some [].
Proof.
  intros Hp Hc Hdisj Hlen Hs Hav.
  pose proof Hp as (_ & Hk & _).
  assert (HL : length (contents (arena st) l) = (length l * KEYBLOCK_LEN)%nat).
  { apply contents_length; [exact Hk|]. intros x Hx. eapply lseg_lt; eassumption. }
  destruct (write_loop_spec fd l (Some h) len st [] (S len) Hc Hk Hs)
    as (ss & Hw & Hs1 & _); [lia|].
  set (st1 := set_streams ss st) in *.
  assert (Hp1 : pool_ok st1 fl) by exact Hp.
  destruct (blockdata_alloc_real_spec st1 fl fd None len Hp1)
    as (r & st2 & Hrun & Hpost); [discriminate|].
  pose proof (alloc_loop_read st1 fl fd (S len) len None st1 fl [] _ ltac:(lia)
                (pool_step_refl st1 fl [] Hp1) eq_refl Hs1 r st2 Hrun) as Hread.
  cbn [app] in Hread.
  assert (Hlt : length (take len (contents (arena st) l)) = len).
  { rewrite length_take. lia. }
  destruct r as [h'|].
  2:{ destruct Hread as [Habs|Habs]; [|lia].
      change (avail st1 fl) with (avail st fl) in Habs. lia. }
  destruct Hread as (_ & Hs2 & l' & Hc' & Hl' & _ & Hcont).
  simpl in Hpost. destruct Hpost as (l0 & fl' & PS & _).
  assert (Hfr : forall x, x ∈ l -> arena st2 !! x = arena st !! x).
  { intros x Hx. apply (ps_frame _ _ _ _ _ _ PS).
    - change (arena st1) with (arena st). eapply lseg_lt; eassumption.
    - apply Hdisj. exact Hx.
    - intros H; inversion H. }
  exists st1, h', st2, l'. split; [exact Hw|]. split; [exact Hrun|].
  split; [exact Hc'|]. split; [exact Hl'|]. split; [|split; [|split]].
  - rewrite Hcont. cbn [app]. rewrite take_take, Nat.min_id. reflexivity.
  - eapply lseg_ext; [exact Hc|]. exact Hfr.
  - apply contents_ext. exact Hfr.
  - rewrite Hs2. cbn [app]. rewrite drop_ge by lia. reflexivity.
Qed.

(** ** Freeing a chain twice *)

Lemma lseg_prefix m y : forall p q x,
  lseg m p y q -> chain m p x -> exists x', x = y ++ x' /\ chain m q x'.
Proof using Type.
  induction y as [|a y IH]; intros p q x Hy Hx; simpl in Hy.
  - subst q. exists x. auto.
  - destruct Hy as (-> & blk & Hb & Hy).
    destruct x as [|b x]; [unfold chain in Hx; simpl in Hx; discriminate|].
    destruct Hx as (Heq & blk' & Hb' & Hx). injection Heq as <-.
    rewrite Hb in Hb'. injection Hb' as <-.
    destruct (IH _ _ _ Hy Hx) as (x' & -> & Hx'). exists x'. auto.
Qed.

(** a list that comes back to its head is no chain *)
Lemma cycle_no_chain m p y :
  y <> [] -> lseg m p y p -> forall x, ~ chain m p x.
Proof using Type.
  clear KEYBLOCK_LEN_pos sizeof_blockdata_pos batch_fits.
  intros Hne Hcyc.
  assert (H : forall n x, (length x <= n)%nat -> ~ chain m p x).
  { induction n as [|n IH]; intros x Hn Hx;
      destruct (lseg_prefix m y p p x Hcyc Hx) as (x' & -> & Hx');
      rewrite length_app in Hn; destruct y; try congruence; simpl in Hn; [lia|].
    apply (IH x'); [lia|exact Hx']. }
  intros x. apply (H (length x)). lia.
Qed.

Lemma lseg_closed m y : forall p q,
  lseg m p y q -> forall a, a ∈ y ->
  exists blk, m !! a = Some blk /\
    (next blk = q \/ exists a', next blk = Some a' /\ a' ∈ y).
Proof using Type.
  induction y as [|b y IH]; intros p q Hy a Ha; [inversion Ha|].
  destruct Hy as (-> & blk & Hb & Hy).
  apply elem_of_cons in Ha as [->|Ha].
  - exists blk. split; [exact Hb|]. destruct y as [|b' y].
    + left. exact Hy.
    + right. destruct Hy as (Hn & _). exists b'. split; [exact Hn|].
      apply list_elem_of_further, list_elem_of_here.
  - destruct (IH _ _ Hy a Ha) as (blk' & Hb' & [Hq|(a' & Hn & Ha')]).
    + exists blk'. auto.
    + exists blk'. split; [exact Hb'|]. right. exists a'. split; [exact Hn|].
      apply list_elem_of_further. exact Ha'.
Qed.

(** the walk of [blockdata_free] in a list that comes back to its head *)
Lemma free_walk_cycle (m : list blockdata) (y : list nat) :
  (forall a, a ∈ y -> exists blk a', m !! a = Some blk /\ next blk = Some a' /\ a' ∈ y) ->
  forall fuel a st, arena st = m -> a ∈ y -> free_walk fuel (Some a) st = Diverge.
Proof using Type.
  intros Hcl. induction fuel as [|fuel IH]; intros a st Hm Ha; [reflexivity|].
  destruct (Hcl a Ha) as (blk & a' & Hb & Hn & Ha').
  simpl. erewrite bind_Ok by (apply load_Some; rewrite Hm; exact Hb).
  rewrite Hn. erewrite bind_Ok by reflexivity.
  apply IH; [exact Hm|exact Ha'].
Qed.

(** the pool after two calls of [blockdata_free] on the same chain *)
Lemma double_free_spec st fl h l :
  pool_ok st fl -> chain (arena st) (Some h) l -> (forall x, x ∈ l -> x ∉ fl) ->
  exists st1 st2,
    blockdata_free (Some h) st = Ok (tt, st1) /\
    blockdata_free (Some h) st1 = Ok (tt, st2) /\
    keyblock_free st2 = Some h /\
    lseg (arena st2) (Some h) (l ++ fl) (Some h) /\
    NoDup (l ++ fl) /\ (exists L0, l ++ fl = h :: L0) /\
    blockdata_count st2 =
      u32 (blockdata_count st - Z.of_nat (2 * length l + length fl)).
Proof.
  intros Hp Hc Hdisj.
  assert (Hl : exists l0, l = h :: l0).
  { destruct l as [|a l0]; [unfold chain in Hc; simpl in Hc; discriminate|].
    destruct Hc as (Hh & _). injection Hh as ->. eauto. }
  destruct Hl as [l0 Hl0].
  assert (Hfirst : exists st1, blockdata_free (Some h) st = Ok (tt, st1) /\
            released st fl l st1).
  { rewrite Hl0 in *. apply blockdata_free_spec; assumption. }
  destruct Hfirst as (st1 & Hfree1 & Hrel).
  destruct Hrel as [(Hc1 & Hk1 & Hu1 & Hu1') _ _ _ Rc _ _ _ _ _].
  set (L := l ++ fl) in *.
  assert (HL : exists L0, L = h :: L0) by (unfold L; rewrite Hl0; simpl; eauto).
  destruct HL as [L0 HL0].
  assert (Hf1 : keyblock_free st1 = Some h).
  { unfold chain in Hc1. rewrite HL0 in Hc1. destruct Hc1 as (Hf & _). exact Hf. }
  rewrite Hf1 in Hc1.
  pose proof (chain_NoDup _ _ _ Hc1) as Hnd.
  pose proof (chain_length_le _ _ _ Hc1) as Hle.
  assert (Hlast : exists t, last L = Some t).
  { destruct (last L) eqn:E; [eauto|]. apply last_None in E. congruence. }
  destruct Hlast as [t Ht].
  destruct (proj1 (last_Some _ _) Ht) as [L1 HL1].
  assert (Htl : lseg (arena st1) (Some h) L1 (Some t) /\
                exists blk, arena st1 !! t = Some blk /\ next blk = None).
  { unfold chain in Hc1. rewrite HL1 in Hc1. apply lseg_app in Hc1 as (r & H1 & H2).
    simpl in H2. destruct H2 as (-> & blk & Hb & Hn). eauto. }
  destruct Htl as (Hseg & blk & Hb & Hn).
  set (st1' := Nat.iter (length L0) dec_count st1).
  destruct (iter_dec_fields (length L0) st1) as (Hf1' & Hh1' & Ha1' & Hm1' & Ho1' & He1').
  fold st1' in Hf1', Hh1', Ha1', Hm1', Ho1', He1'.
  set (m' := <[t := mkBlock (Some h) (key blk)]> (arena st1)).
  set (st2 := dec_count (set_free (Some h) (set_arena m' st1'))).
  assert (Hfree2 : blockdata_free (Some h) st1 = Ok (tt, st2)).
  { unfold blockdata_free. mpure.
    erewrite bind_Ok by (apply free_walk_spec with (l := L0);
                         [rewrite <- HL0; exact Hc1|rewrite HL0 in Hle; simpl in Hle; lia]).
    fold st1'. rewrite <- HL0, Ht. mpure.
    erewrite bind_Ok by (apply (store_next_Some st1' t blk); rewrite Hm1'; exact Hb).
    mpure. rewrite Hf1', Hm1', Hf1. reflexivity. }
  assert (Hnt : t ∉ L1).
  { rewrite HL1 in Hnd. apply NoDup_app in Hnd as (_ & Hd & _).
    intros Hin. apply (Hd t Hin). apply list_elem_of_singleton. reflexivity. }
  assert (Hcyc : lseg (arena st2) (Some h) L (Some h)).
  { change (arena st2) with m'. rewrite HL1. apply lseg_app. exists (Some t). split.
    - eapply lseg_ext; [exact Hseg|]. intros x Hx. unfold m'.
      apply list_lookup_insert_ne. intros ->. contradiction.
    - simpl. split; [reflexivity|]. eexists. split.
      { unfold m'. apply list_lookup_insert_eq. eapply lookup_lt_Some. exact Hb. }
      reflexivity. }
  exists st1, st2. split; [exact Hfree1|]. split; [exact Hfree2|].
  split; [reflexivity|]. split; [exact Hcyc|]. split; [exact Hnd|].
  split; [exists L0; exact HL0|].
  - change (blockdata_count st2) with (u32 (blockdata_count st1' - 1)).
    assert (Hc1' : u32 (blockdata_count st1' - 1) =
                   u32 (blockdata_count st1 - Z.of_nat (length L))).
    { unfold st1'. rewrite HL0. destruct L0 as [|b L0].
      - simpl. reflexivity.
      - rewrite iter_dec_count by (simpl; lia). rewrite u32_sub_l. f_equal.
        simpl length. lia. }
    rewrite Hc1', Rc, u32_sub_l. f_equal. unfold L. rewrite length_app. lia.
Qed.

(** X18. [blockdata_free] does not notice a chain that is released twice.
    The second call walks the free list, of which the chain is now the
    front, to its end and links the end to the head: the free list comes
    back to its head and is no longer a list that ends, the count has gone
    down once more by the length of the chain and by the length of the free
    list, and a further [blockdata_free] of the chain walks round without
    end. *)
Theorem double_free_closes_free_list st fl h l :
  pool_ok st fl -> chain (arena st) (Some h) l -> (forall x, x ∈ l -> x ∉ fl) ->
  exists st1 st2,
    blockdata_free (Some h) st = Ok (tt, st1) /\
    blockdata_free (Some h) st1 = Ok (tt, st2) /\
    keyblock_free st2 = Some h /\
    lseg (arena st2) (Some h) (l ++ fl) (Some h) /\
    (forall fl', ~ pool_ok st2 fl') /\
    blockdata_count st2 =
      u32 (blockdata_count st - Z.of_nat (2 * length l + length fl)) /\
    blockdata_free (Some h) st2 = Diverge.
Proof.
  intros Hp Hc Hdisj.
  destruct (double_free_spec st fl h l Hp Hc Hdisj)
    as (st1 & st2 & Hfree1 & Hfree2 & Hf2 & Hcyc & Hnd & (L0 & HL0) & Hcnt).
  exists st1, st2. repeat (split; [assumption|]). split; [|split; [exact Hcnt|]].
  - intros fl' (Hc' & _). rewrite Hf2 in Hc'.
    apply (cycle_no_chain (arena st2) (Some h) (l ++ fl)) in Hc'; [exact Hc'| |exact Hcyc].
    rewrite HL0. discriminate.
  - unfold blockdata_free. mpure.
    assert (Hw : forall fuel, free_walk fuel (Some h) st2 = Diverge).
    { intros fuel. apply (free_walk_cycle (arena st2) (l ++ fl)); [|reflexivity|].
      - intros a Ha. destruct (lseg_closed _ _ _ _ Hcyc a Ha) as (b & Hb' & [Hq|(a' & Hq & Ha')]).
        + exists b, h. split; [exact Hb'|]. split; [exact Hq|].
          rewrite HL0. apply list_elem_of_here.
        + exists b, a'. auto.
      - rewrite HL0. apply list_elem_of_here. }
    unfold bind. rewrite Hw. reflexivity.
Qed.

(** [n] calls of [new_block] in a row, with what they return *)
Fixpoint new_blocks (n : nat) : M (list (option nat)) :=
  match n with
  | O => ret []
  | S n' =>
      do b <- new_block;
      do bs <- new_blocks n';
      ret (b :: bs)
  end.

(** [new_block] when the free list has a head, whatever lies behind it *)
Lemma new_block_head st a blk :
  keyblock_free st = Some a -> arena st !! a = Some blk ->
  exists st',
    new_block st = Ok (Some a, st') /\
    keyblock_free st' = next blk /\
    arena st' = <[a := mkBlock None (key blk)]> (arena st).
Proof.
  intros Hfree Hb.
  set (st1 := bump_hwm (set_count (u32 (blockdata_count st + 1)) (set_free (next blk) st))).
  destruct (bump_hwm_fields (set_count (u32 (blockdata_count st + 1)) (set_free (next blk) st)))
    as (Hf1 & _ & _ & _ & Hm1 & _).
  fold st1 in Hf1, Hm1. simpl in Hf1, Hm1.
  exists (set_arena (<[a := mkBlock None (key blk)]> (arena st1)) st1).
  split; [|split].
  - unfold new_block. mpure. rewrite Hfree. mpure. rewrite Hfree.
    erewrite bind_Ok by (apply load_Some; exact Hb). mpure.
    erewrite bind_Ok by (apply (store_next_Some st1 a blk); rewrite Hm1; exact Hb).
    reflexivity.
  - exact Hf1.
  - simpl. rewrite Hm1. reflexivity.
Qed.

Lemma new_blocks_to_head (y : list nat) : forall st p h blk,
  keyblock_free st = p -> lseg (arena st) p y (Some h) ->
  NoDup y -> h ∉ y -> arena st !! h = Some blk ->
  exists st', new_blocks (S (length y)) st = Ok (map Some y ++ [Some h], st').
Proof.
  induction y as [|a y IH]; intros st p h blk Hfree Hy Hnd Hh Hb.
  - simpl in Hy. subst p.
    destruct (new_block_head st h blk Hy Hb) as (st' & Hrun & _).
    exists st'. simpl. erewrite bind_Ok by exact Hrun. reflexivity.
  - destruct Hy as (Hp & blka & Hba & Hy). subst p.
    destruct (new_block_head st a blka Hp Hba) as (st1 & Hrun & Hf1 & Hm1).
    apply NoDup_cons in Hnd as [Hna Hnd].
    assert (Hha : h <> a).
    { intros ->. apply Hh. apply list_elem_of_here. }
    destruct (IH st1 (next blka) h blk Hf1) as (st' & Hrest); auto.
    + rewrite Hm1. eapply lseg_ext; [exact Hy|]. intros x Hx.
      apply list_lookup_insert_ne. intros ->. contradiction.
    + intros Hin. apply Hh. apply list_elem_of_further. exact Hin.
    + rewrite Hm1. rewrite list_lookup_insert_ne by auto. exact Hb.
    + exists st'. change (new_blocks (S (length (a :: y))))
        with (do b <- new_block; do bs <- new_blocks (S (length y)); ret (b :: bs)).
      erewrite bind_Ok by exact Hrun. erewrite bind_Ok by exact Hrest. reflexivity.
Qed.

(** X20. After a chain has been released twice the pool hands out a block
    that is in use: as many calls of [new_block] as the chain and the old
    free list have blocks return these blocks in their order, and the next
    call returns the head of the chain once more, although nothing has been
    released in between. *)
Theorem double_free_hands_out_twice st fl h l :
  pool_ok st fl -> chain (arena st) (Some h) l -> (forall x, x ∈ l -> x ∉ fl) ->
  exists st1 st2 st3,
    blockdata_free (Some h) st = Ok (tt, st1) /\
    blockdata_free (Some h) st1 = Ok (tt, st2) /\
    new_blocks (S (length (l ++ fl))) st2 =
      Ok (map Some (l ++ fl) ++ [Some h], st3) /\
    head (l ++ fl) = Some h.
Proof.
  intros Hp Hc Hdisj.
  destruct (double_free_spec st fl h l Hp Hc Hdisj)
    as (st1 & st2 & Hfree1 & Hfree2 & Hf2 & Hcyc & Hnd & (L0 & HL0) & _).
  rewrite HL0 in *.
  destruct Hcyc as (_ & blk & Hb & Hy).
  apply NoDup_cons in Hnd as [Hh Hnd].
  destruct (new_block_head st2 h blk Hf2 Hb) as (st2' & Hrun & Hf' & Hm').
  destruct (new_blocks_to_head L0 st2' (next blk) h (mkBlock None (key blk)) Hf')
    as (st3 & Hrest); auto.
  - rewrite Hm'. eapply lseg_ext; [exact Hy|]. intros x Hx.
    apply list_lookup_insert_ne. intros ->. contradiction.
  - rewrite Hm'. apply list_lookup_insert_eq. eapply lookup_lt_Some. exact Hb.
  - exists st1, st2, st3. split; [exact Hfree1|]. split; [exact Hfree2|].
    split; [|reflexivity].
    change (new_blocks (S (length (h :: L0))))
      with (do b <- new_block; do bs <- new_blocks (S (length L0)); ret (b :: bs)).
    erewrite bind_Ok by exact Hrun. erewrite bind_Ok by exact Hrest. reflexivity.
Qed.


(** ** Reading out leaves the pool alone *)

(** the pool proper: the free list, the counters and the blocks *)
Definition pool_view (st : state) :=
  (keyblock_free st, blockdata_count st, blockdata_hwm st, blockdata_alloced st,
   arena st).

Lemma keeps_memcpy_buf {B} (f : state -> B) d off src :
  (forall m st, f (set_bufs m st) = f st) -> keeps f (memcpy_buf d off src).
Proof using Type.
  intros Hf st x st' H. unfold memcpy_buf in H.
  destruct d as [i|]; [|discriminate].
  destruct (bufs st !! i) as [[old|]|]; try discriminate.
  destruct (write_at old off src); [|discriminate].
  injection H as _ <-. apply Hf.
Qed.

Lemma keeps_retrieve_loop {B} (f : state -> B) data :
  (forall m st, f (set_bufs m st) = f st) ->
  forall fuel off b len, keeps f (retrieve_loop fuel data off b len).
Proof using Type.
  intros Hf. induction fuel as [|fuel IH]; intros off b len; simpl;
    [apply keeps_diverge|].
  destruct (_ && _); [|apply keeps_ret].
  apply keeps_bind; [apply keeps_load|]. intros blk.
  destruct (bytes_at _ _ _); [|apply keeps_crash].
  apply keeps_bind; [apply keeps_memcpy_buf; exact Hf|]. intros _. apply IH.
Qed.

Lemma keeps_write_loop {B} (f : state -> B) fd :
  (forall ss st, f (set_streams ss st) = f st) ->
  forall fuel b len, keeps f (write_loop fuel b len fd).
Proof using Type.
  intros Hf. induction fuel as [|fuel IH]; intros b len; simpl;
    [apply keeps_diverge|].
  destruct (_ && _); [|apply keeps_ret].
  apply keeps_bind; [apply keeps_load|]. intros blk.
  destruct (bytes_at _ _ _); [|apply keeps_crash].
  apply keeps_bind; [|intros _; apply IH].
  intros st x st' H. unfold read_write_write in H.
  destruct (List.find _ _) as [[g s]|]; injection H as _ <-; [apply Hf|reflexivity].
Qed.

(** X19. Reading out does not change the pool.  Whatever the chain, the
    length and the destination, and whatever the state, a call of
    [blockdata_retrieve], of [blockdata_write] or of [blockdata_report] that
    returns has left the free list, the three counters and every block, link
    and bytes, as they were. *)
Theorem read_out_keeps_pool block len data fd :
  keeps pool_view (blockdata_retrieve block len data) /\
  keeps pool_view (blockdata_write block len fd) /\
  keeps pool_view blockdata_report.
Proof using Type.
  clear KEYBLOCK_LEN_pos sizeof_blockdata_pos batch_fits.
  split; [|split].
  - unfold blockdata_retrieve. apply keeps_bind.
    + destruct data as [d|]; [apply keeps_ret|].
      apply keeps_bind; [apply keeps_gets|]. intros bl.
      destruct (bl <? Z.of_nat len).
      * apply keeps_bind.
        { intros st x st' H. unfold whine_malloc in H.
          destruct (mallocs st) as [|[c|] rest]; injection H as _ <-; reflexivity. }
        intros [new|]; [|apply keeps_ret].
        apply keeps_bind; [apply keeps_gets|]. intros old.
        apply keeps_bind.
        { destruct old as [p|]; [|apply keeps_ret].
          intros st x st' H. unfold free_buf in H.
          destruct (bufs st !! p) as [[o|]|]; try discriminate.
          injection H as _ <-. reflexivity. }
        intros _. apply keeps_bind; [apply keeps_modify; reflexivity|]. intros _.
        apply keeps_bind; [apply keeps_gets|]. intros cur. apply keeps_ret.
      * apply keeps_bind; [apply keeps_gets|]. intros cur. apply keeps_ret.
    + intros [data'|]; [|apply keeps_ret].
      apply keeps_bind; [|intros _; apply keeps_ret].
      apply keeps_retrieve_loop. reflexivity.
  - unfold blockdata_write. apply keeps_write_loop. reflexivity.
  - unfold blockdata_report, my_syslog. apply keeps_bind; [apply keeps_gets|].
    intros st. apply keeps_modify. reflexivity.
Qed.

(** ** Bytes that stay behind, and failures that pass *)

(** [blockdata_alloc] of no more than a block from a free list with head
    [a] *)
Lemma alloc_one_block st a blk d len :
  keyblock_free st = Some a -> arena st !! a = Some blk ->
  length (key blk) = KEYBLOCK_LEN ->
  (0 < len <= KEYBLOCK_LEN)%nat -> (len <= length d)%nat ->
  exists st',
    blockdata_alloc (Some d) len st = Ok (Some a, st') /\
    arena st' !! a = Some (mkBlock None (take len d ++ drop len (key blk))).
Proof.
  intros Hfree Hb Hk Hlen Hd.
  destruct (new_block_head st a blk Hfree Hb) as (st1 & Hnew & _ & Hm1).
  assert (Hb1 : arena st1 !! a = Some (mkBlock None (key blk))).
  { rewrite Hm1. apply list_lookup_insert_eq. eapply lookup_lt_Some. exact Hb. }
  assert (Hl : length (take len d) = len) by (rewrite length_take; lia).
  eexists. split.
  - unfold blockdata_alloc, blockdata_alloc_real. simpl alloc_loop.
    erewrite bind_Ok by exact Hnew. cbv beta iota zeta.
    destruct (Nat.ltb_spec KEYBLOCK_LEN len) as [Habs|_]; [lia|].
    unfold fill_block. destruct (Nat.ltb_spec 0 len) as [_|Habs]; [|lia].
    rewrite read_src_Some by exact Hd. rewrite bind_assoc. erewrite bind_Ok by reflexivity.
    rewrite bind_assoc.
    erewrite bind_Ok by (apply (memcpy_key_Some st1 a _ 0 (take len d) Hb1);
                         rewrite Hl; simpl; lia).
    erewrite bind_Ok by reflexivity. unfold assign_prev.
    erewrite bind_Ok by reflexivity. rewrite Nat.sub_diag. reflexivity.
  - cbn [arena set_arena next key]. rewrite list_lookup_insert_eq.
    + unfold splice. rewrite take_0, Hl. reflexivity.
    + eapply lookup_lt_Some. exact Hb1.
Qed.

(** X24. Bytes survive release and reuse.  After [blockdata_free] of a chain
    of one block, a [blockdata_alloc] of [len] bytes, no more than a block,
    returns the same block, and only its first [len] bytes are new: behind
    them the block still holds the bytes it held for the chain that was
    released. *)
Theorem freed_bytes_survive_reuse st fl h blk d len :
  pool_ok st fl -> chain (arena st) (Some h) [h] -> h ∉ fl ->
  arena st !! h = Some blk ->
  (0 < len <= KEYBLOCK_LEN)%nat -> (len <= length d)%nat ->
  exists st1 st2,
    blockdata_free (Some h) st = Ok (tt, st1) /\
    blockdata_alloc (Some d) len st1 = Ok (Some h, st2) /\
    arena st2 !! h = Some (mkBlock None (take len d ++ drop len (key blk))).
Proof.
  intros Hp Hc Hh Hb Hlen Hd.
  destruct (blockdata_free_spec st fl h [] Hp Hc) as (st1 & Hfree & Hrel).
  { intros x Hx. apply list_elem_of_singleton in Hx. subst x. exact Hh. }
  destruct Hrel as [(Hc1 & Hk1 & _) _ Rk _ _ _ _ _ _ _].
  destruct (Rk h blk Hb) as (blk1 & Hb1 & Hkey).
  assert (Hf1 : keyblock_free st1 = Some h) by (destruct Hc1 as (Hf & _); exact Hf).
  destruct (alloc_one_block st1 h blk1 d len Hf1 Hb1 (Hk1 _ _ Hb1) Hlen Hd)
    as (st2 & Hrun & Hb2).
  exists st1, st2. split; [exact Hfree|]. split; [exact Hrun|].
  rewrite Hb2, Hkey. reflexivity.
Qed.

(** X25. Exhaustion passes.  With an empty free list, an allocation for
    which [whine_malloc] refuses the batch returns [NULL] and changes
    nothing but the answers of [whine_malloc], one of which it has used; the
    same allocation made again asks [whine_malloc] once more and, when the
    batch is granted and has the blocks, succeeds. *)
Theorem exhaustion_passes st c rest d len :
  pool_ok st [] -> mallocs st = None :: Some c :: rest ->
  (len <= length d)%nat -> (nblocks len <= 50)%nat ->
  exists h st2 l,
    blockdata_alloc (Some d) len st =
      Ok (None, set_mallocs (Some c :: rest) st) /\
    blockdata_alloc (Some d) len (set_mallocs (Some c :: rest) st) =
      Ok (Some h, st2) /\
    chain (arena st2) (Some h) l /\ length l = nblocks len /\
    blockdata_count st2 = u32 (blockdata_count st + Z.of_nat (nblocks len)).
Proof.
  intros Hp Hm Hd Hneed.
  destruct (new_block_spec st [] Hp) as [Hnone _].
  assert (Hfirst : blockdata_alloc (Some d) len st =
                   Ok (None, set_mallocs (Some c :: rest) st)).
  { unfold blockdata_alloc, blockdata_alloc_real. simpl alloc_loop.
    erewrite bind_Ok by (apply Hnone; unfold avail; rewrite Hm; reflexivity).
    rewrite Hm. reflexivity. }
  set (st1 := set_mallocs (Some c :: rest) st) in *.
  assert (Hp1 : pool_ok st1 []) by exact Hp.
  destruct (blockdata_alloc_real_spec st1 [] 0 (Some d) len Hp1)
    as (r & st2 & Hrun & Hpost).
  { intros d0 [= <-]. exact Hd. }
  assert (Hav : (50 <= avail st1 [])%nat).
  { unfold avail. simpl. lia. }
  destruct r as [h|]; simpl in Hpost.
  2:{ destruct Hpost as (fl' & leak & _ & Hwhy & _).
      destruct Hwhy as [(_ & Hlt)|(_ & Habs & _)]; [lia|discriminate]. }
  destruct Hpost as (l & fl' & PS & Hc & Hlen & _ & _).
  exists h, st2, l. split; [exact Hfirst|]. split; [exact Hrun|].
  split; [exact Hc|]. split; [exact Hlen|].
  rewrite (ps_count _ _ _ _ _ _ PS). simpl. rewrite Hlen. reflexivity.
Qed.

(** Decidable forms of the well-formedness conditions, for concrete states. *)
Fixpoint lseg_check (m : list blockdata) (p : option nat) (l : list nat)
    (q : option nat) : bool :=
  match l with
  | [] => bool_decide (p = q)
  | a :: l' =>
      bool_decide (p = Some a) &&
      match m !! a with
      | Some blk => lseg_check m (next blk) l' q
      | None => false
      end
  end.

Lemma lseg_check_ok m l q : forall p, lseg_check m p l q = true -> lseg m p l q.
Proof using Type.
  induction l as [|a l IH]; intros p H; simpl in *.
  - apply bool_decide_eq_true_1 in H. exact H.
  - apply andb_true_iff in H as [H1 H2]. apply bool_decide_eq_true_1 in H1.
    split; [exact H1|]. destruct (m !! a) as [blk|]; [|discriminate].
    exists blk. split; [reflexivity|]. apply IH. exact H2.
Qed.

Definition keys_check (m : list blockdata) : bool :=
  forallb (fun blk => (length (key blk) =? KEYBLOCK_LEN)%nat) m.

Lemma keys_check_ok m : keys_check m = true -> keys_ok m.
Proof using Type.
  unfold keys_check. intros H a blk Ha.
  rewrite forallb_forall in H. apply Nat.eqb_eq. apply H.
  apply list_elem_of_In. eapply list_elem_of_lookup_2. exact Ha.
Qed.

Definition pool_check (st : state) (fl : list nat) : bool :=
  lseg_check (arena st) (keyblock_free st) fl None && keys_check (arena st) &&
  (u32 (blockdata_count st) =? blockdata_count st) &&
  (u32 (blockdata_alloced st) =? blockdata_alloced st).

Lemma pool_check_ok st fl : pool_check st fl = true -> pool_ok st fl.
Proof using Type.
  unfold pool_check. intros H.
  apply andb_true_iff in H as [H H4]. apply andb_true_iff in H as [H H3].
  apply andb_true_iff in H as [H1 H2].
  split; [apply lseg_check_ok; exact H1|]. split; [apply keys_check_ok; exact H2|].
  split; apply Z.eqb_eq; assumption.
Qed.

End Blockdata.

(** C10, amended. With a caller's buffer [d], a [blockdata_retrieve] that
    returns returns [d] itself, and it does return for any well-formed chain
    (the null chain too) and any length when [d] has room for what is
    copied.  A [NULL] return, from any state and for any chain, length and
    block size, comes only without a destination, and in one of two ways:
    [whine_malloc] refuses to grow the scratch buffer, and nothing else has
    changed; or the scratch buffer need not grow and has never been
    allocated, and then nothing at all has changed: [whine_malloc] has not
    been called. *)
Theorem retrieve_null_return (KEYBLOCK_LEN : nat) :
  (forall st block len d r st',
     blockdata_retrieve KEYBLOCK_LEN block len (Some d) st = Ok (r, st') ->
     r = Some d) /\
  (forall st block l len d old,
     (0 < KEYBLOCK_LEN)%nat ->
     chain (arena st) block l -> keys_ok KEYBLOCK_LEN (arena st) ->
     bufs st !! d = Some (Some old) ->
     (Nat.min len (length l * KEYBLOCK_LEN) <= length old)%nat ->
     exists st',
       blockdata_retrieve KEYBLOCK_LEN block len (Some d) st = Ok (Some d, st')) /\
  (forall st block len data st',
     blockdata_retrieve KEYBLOCK_LEN block len data st = Ok (None, st') ->
     data = None /\
     ((buff_len st < Z.of_nat len /\ grants (mallocs st) = 0%nat /\
       st' = set_mallocs (tail (mallocs st)) st) \/
      (Z.of_nat len <= buff_len st /\ buff st = None /\ st' = st))).
Proof.
  split; [|split].
  - intros st block len d r st'. apply retrieve_returns_destination.
  - intros st block l len d old Hpos Hc Hk Hd Hfit.
    eexists. apply (retrieve_into KEYBLOCK_LEN Hpos st block l len d old); assumption.
  - intros st block len data st'. apply retrieve_null_cases.
Qed.

(** ** Concrete runs *)

(** The process at start-up: zeroed statics, no block obtained yet. *)
Definition boot (bufs : list (option (list byte))) (mallocs : list (option byte))
    (streams : list (Z * list byte)) : state :=
  mkState None 0 0 0 0 None [] bufs mallocs streams [] [].

Definition bytes (s : string) : list byte := list_byte_of_string s.

(** A pool of two blocks of four bytes: block 0 is a chain that holds
    ["abc"], block 1 is free. *)
Definition pool2 (mallocs : list (option byte)) : state :=
  mkState (Some 1%nat) 1 1 2 0 None
    [mkBlock None (bytes "abc?"); mkBlock None (bytes "....")]
    [Some (bytes "--------")] mallocs [] [] [1; 0].

(** A pool of two blocks of four bytes, both in one chain that holds
    ["abcdefg"]; nothing is free. *)
Definition chain2 (mallocs : list (option byte)) : state :=
  mkState None 2 2 2 0 None
    [mkBlock (Some 1%nat) (bytes "abcd"); mkBlock None (bytes "efg?")]
    [Some (bytes "--------")] mallocs [] [] [2; 1; 0].

Lemma alloc_retrieve_round_trip_witness :
  exists h st1 st2,
    blockdata_alloc 4 16 64 (Some (bytes "abcdefg")) 7
      (boot [Some (bytes "--------")] [Some x00] []) = Ok (Some h, st1) /\
    blockdata_retrieve 4 (Some h) 7 (Some 0%nat) st1 = Ok (Some 0%nat, st2) /\
    bufs st2 !! 0%nat = Some (Some (bytes "abcdefg-")).
Proof.
  set (st := boot [Some (bytes "--------")] [Some x00] []).
  assert (E : exists st1,
             blockdata_alloc 4 16 64 (Some (bytes "abcdefg")) 7 st = Ok (Some 0%nat, st1) /\
             bufs st1 = [Some (bytes "--------")]).
  { eexists. split; vm_compute; reflexivity. }
  destruct E as (st1 & E1 & E2).
  destruct (alloc_retrieve_round_trip 4 16 64 ltac:(lia) ltac:(lia) ltac:(lia)
              st [] (bytes "abcdefg") 0%nat st1 0%nat (bytes "--------"))
    as (st2 & R1 & R2).
  - apply pool_check_ok. vm_compute. reflexivity.
  - exact E1.
  - rewrite E2. reflexivity.
  - vm_compute. lia.
  - exists 0%nat, st1, st2. split; [exact E1|]. split; [exact R1|exact R2].
Defined.

Lemma expand_composition_witness :
  exists h st1 st2 l st3,
    blockdata_alloc 4 16 64 (Some (bytes "abcdefg")) 7
      (boot [Some (bytes "---------")] [Some x00] []) = Ok (Some h, st1) /\
    blockdata_expand 4 16 64 (Some h) 7 (Some (bytes "hi")) 2 st1 = Ok (1, st2) /\
    chain (arena st2) (Some h) l /\ length l = 3%nat /\
    blockdata_retrieve 4 (Some h) 9 (Some 0%nat) st2 = Ok (Some 0%nat, st3) /\
    bufs st3 !! 0%nat = Some (Some (bytes "abcdefghi")).
Proof.
  set (st := boot [Some (bytes "---------")] [Some x00] []).
  assert (E : exists st1 st2,
             blockdata_alloc 4 16 64 (Some (bytes "abcdefg")) 7 st = Ok (Some 0%nat, st1) /\
             blockdata_expand 4 16 64 (Some 0%nat) 7 (Some (bytes "hi")) 2 st1 = Ok (1, st2) /\
             bufs st2 = [Some (bytes "---------")]).
  { eexists. eexists. split; [vm_compute; reflexivity|]. split; vm_compute; reflexivity. }
  destruct E as (st1 & st2 & E1 & E2 & E3).
  destruct (expand_composition 4 16 64 ltac:(lia) ltac:(lia) ltac:(lia)
              st [] (bytes "abcdefg") (bytes "hi") 0%nat st1 st2 0%nat (bytes "---------"))
    as (l & st3 & R1 & R2 & R3 & R4).
  - apply pool_check_ok. vm_compute. reflexivity.
  - exact E1.
  - exact E2.
  - rewrite E3. reflexivity.
  - vm_compute. lia.
  - exists 0%nat, st1, st2, l, st3. repeat (split; [assumption|]). exact R4.
Defined.

Lemma expand_failure_and_success_witness :
  (exists st',
     blockdata_expand 4 16 64 (Some 0%nat) 7 (Some (bytes "hi")) 2 (chain2 []) = Ok (0, st') /\
     blockdata_count st' = 0 /\
     exists fl', pool_ok 4 st' fl' /\ (0 ∈ fl' /\ 1 ∈ fl')%nat) /\
  (exists st' l',
     blockdata_expand 4 16 64 (Some 0%nat) 3 (Some (bytes "defgh")) 5 (pool2 []) = Ok (1, st') /\
     chain (arena st') (Some 0%nat) ([0%nat] ++ l') /\ length l' = 1%nat /\
     take 3 (contents (arena st') [0%nat]) = bytes "abc").
Proof.
  split.
  - destruct (expand_failure_and_success 4 16 64 ltac:(lia) ltac:(lia) ltac:(lia)
                (chain2 []) [] 0%nat [0; 1]%nat 1%nat 7%nat (Some (bytes "hi")) (bytes "hi") 2%nat)
      as (r & st' & Hrun & Hfail & _).
    + apply pool_check_ok. vm_compute. reflexivity.
    + apply lseg_check_ok. vm_compute. reflexivity.
    + reflexivity.
    + intros x _ Hx. inversion Hx.
    + reflexivity.
    + intros _. split; [reflexivity|]. vm_compute. lia.
    + destruct Hfail as (-> & fl' & Hp & Hback & Hcnt).
      * vm_compute. lia.
      * exists st'. split; [exact Hrun|]. split; [exact Hcnt|].
        exists fl'. split; [exact Hp|]. split; apply Hback.
        -- apply list_elem_of_here.
        -- apply list_elem_of_further, list_elem_of_here.
  - destruct (expand_failure_and_success 4 16 64 ltac:(lia) ltac:(lia) ltac:(lia)
                (pool2 []) [1%nat] 0%nat [0%nat] 0%nat 3%nat (Some (bytes "defgh"))
                (bytes "defgh") 5%nat)
      as (r & st' & Hrun & _ & Hok).
    + apply pool_check_ok. vm_compute. reflexivity.
    + apply lseg_check_ok. vm_compute. reflexivity.
    + reflexivity.
    + intros x Hx Hx1. apply list_elem_of_singleton in Hx, Hx1. congruence.
    + reflexivity.
    + intros _. split; [reflexivity|]. vm_compute. lia.
    + destruct Hok as (-> & l' & Hc & Hlen & _ & Hkeep & _).
      * vm_compute. lia.
      * exists st', l'. split; [exact Hrun|]. split; [exact Hc|].
        split; [exact Hlen|]. rewrite Hkeep. reflexivity.
Defined.

Lemma free_then_alloc_reuses_witness :
  exists st1 h' st2,
    blockdata_free (Some 0%nat) (chain2 [Some x00]) = Ok (tt, st1) /\
    blockdata_alloc 4 16 64 (Some (bytes "hijklmn")) 7 st1 = Ok (Some h', st2) /\
    mallocs st2 = [Some x00] /\ blockdata_alloced st2 = 2 /\
    chain (arena st2) (Some h') [0; 1]%nat.
Proof.
  destruct (free_then_alloc_reuses 4 16 64 ltac:(lia) ltac:(lia) ltac:(lia)
              (chain2 [Some x00]) [] 0%nat [0; 1]%nat 0 (Some (bytes "hijklmn")) 7%nat)
    as (st1 & r & st2 & Hfree & Hrun & Hm & Ha & _ & Hsome).
  - apply pool_check_ok. vm_compute. reflexivity.
  - apply lseg_check_ok. vm_compute. reflexivity.
  - intros x _ Hx. inversion Hx.
  - vm_compute. lia.
  - intros d [= <-]. vm_compute. lia.
  - destruct Hsome as (h' & -> & Hc); [discriminate|].
    assert (E : mallocs st1 = [Some x00] /\ blockdata_alloced st1 = 2).
    { assert (E0 : blockdata_free (Some 0%nat) (chain2 [Some x00]) =
                   Ok (tt, set_count 0 (set_count 1 (set_free (Some 0%nat)
                         (set_arena [mkBlock (Some 1%nat) (bytes "abcd");
                                     mkBlock None (bytes "efg?")]
                            (chain2 [Some x00])))))).
      { vm_compute. reflexivity. }
      rewrite E0 in Hfree. injection Hfree as <-. split; reflexivity. }
    destruct E as [E1 E2].
    exists st1, h', st2. split; [exact Hfree|]. split; [exact Hrun|].
    split; [rewrite Hm; exact E1|]. split; [rewrite Ha; exact E2|exact Hc].
Defined.

Lemma report_units_witness :
  blockdata_report 48 64 (chain2 []) =
    Ok (tt, set_syslog [(96, 96, 96)] (chain2 [])).
Proof.
  apply (proj2 (report_units 48 64 ltac:(lia) (chain2 []))).
  - reflexivity.
  - reflexivity.
  - reflexivity.
  - vm_compute. discriminate.
Defined.

Lemma retrieve_null_return_witness :
  (exists st', blockdata_retrieve 4 (Some 0%nat) 7 (Some 0%nat) (chain2 []) =
                 Ok (Some 0%nat, st')) /\
  (exists st',
     blockdata_retrieve 4 (Some 0%nat) 7 None (chain2 []) = Ok (None, st') /\
     grants (mallocs (chain2 [])) = 0%nat /\ st' = set_mallocs [] (chain2 [])) /\
  (exists st',
     blockdata_retrieve 4 None 0 None (boot [] [Some x00] []) = Ok (None, st') /\
     buff (boot [] [Some x00] []) = None /\ st' = boot [] [Some x00] []).
Proof.
  destruct (retrieve_null_return 4) as (_ & Hdest & Hnull).
  split; [|split].
  - apply (Hdest (chain2 []) (Some 0%nat) [0; 1]%nat 7%nat 0%nat (bytes "--------")).
    + lia.
    + apply lseg_check_ok. vm_compute. reflexivity.
    + apply keys_check_ok. vm_compute. reflexivity.
    + reflexivity.
    + vm_compute. lia.
  - assert (E : exists st', blockdata_retrieve 4 (Some 0%nat) 7 None (chain2 []) = Ok (None, st')).
    { eexists. vm_compute. reflexivity. }
    destruct E as (st' & E). exists st'. split; [exact E|].
    destruct (Hnull _ _ _ _ _ E) as (_ & [(_ & Hg & Hst)|(Habs & _)]).
    + split; [exact Hg|exact Hst].
    + vm_compute in Habs. destruct (Habs eq_refl).
  - assert (E : exists st',
               blockdata_retrieve 4 None 0 None (boot [] [Some x00] []) = Ok (None, st')).
    { eexists. vm_compute. reflexivity. }
    destruct E as (st' & E). exists st'. split; [exact E|].
    destruct (Hnull _ _ _ _ _ E) as (_ & [(Habs & _)|(_ & Hb & Hst)]).
    + vm_compute in Habs. discriminate.
    + split; [exact Hb|exact Hst].
Defined.

(** ** Where the code departs from the claims *)

(** C1. A short read in [blockdata_read] leaks the block acquired for it:
    after [blockdata_init], reading two bytes from a descriptor that holds
    one fails, and the count is 1, not the 0 it was before the call. *)
Theorem read_failure_leaks_block :
  exists st1 st2,
    blockdata_init 40 48 64 false 0 (boot [] [Some x00] [(3, [x61])]) = Ok (tt, st1) /\
    blockdata_count st1 = 0 /\
    blockdata_read 40 48 64 3 2 st1 = Ok (None, st2) /\
    blockdata_count st2 = 1.
Proof.
  eexists. eexists. split; [vm_compute; reflexivity|]. split; [reflexivity|].
  split; vm_compute; reflexivity.
Qed.

(** C2. A chain of one block and [oldlen = KEYBLOCK_LEN + 1]: the chain is
    too short for the offset, yet [blockdata_expand] with nothing to add
    returns 1 and leaves the chain in use; with a byte to add it writes
    through the null pointer its walk ended on. *)
Theorem expand_accepts_short_chain :
  exists h st1,
    blockdata_alloc 40 48 64 None 0 (boot [] [Some x00] []) = Ok (Some h, st1) /\
    chain (arena st1) (Some h) [h] /\
    blockdata_expand 40 48 64 (Some h) 41 None 0 st1 = Ok (1, st1) /\
    blockdata_count st1 = 1 /\
    blockdata_expand 40 48 64 (Some h) 41 (Some [x61]) 1 st1 = Crash.
Proof.
  exists 0%nat. eexists. split; [vm_compute; reflexivity|].
  split; [apply lseg_check_ok; vm_compute; reflexivity|].
  split; [vm_compute; reflexivity|]. split; vm_compute; reflexivity.
Qed.

(** C6. With the layout of dnsmasq on a 64-bit machine (40 bytes of key,
    48 bytes for the block), one block in use is reported as 48 bytes, not
    as 40. *)
Lemma report_units_counterexample :
  ~ (forall st st', blockdata_report 48 64 st = Ok (tt, st') ->
       syslog st' = (blockdata_count st * 40, blockdata_hwm st * 40,
                     blockdata_alloced st * 40) :: syslog st).
Proof.
  intros H.
  specialize (H (mkState None 1 1 50 0 None [] [] [] [] [] [1]) _ eq_refl).
  vm_compute in H. discriminate.
Qed.

(** C7. The scratch buffer is never reused: [buff_len] is compared but
    never assigned.  After a retrieve of 7 bytes without destination, a
    second one of 3 bytes calls [whine_malloc] again, frees the first
    scratch buffer and returns another one. *)
Theorem scratch_buffer_not_reused :
  exists st1 st2,
    blockdata_retrieve 4 (Some 0%nat) 7 None (chain2 [Some x00; Some x00]) =
      Ok (Some 1%nat, st1) /\
    mallocs st1 = [Some x00] /\ buff_len st1 = 0 /\
    blockdata_retrieve 4 (Some 0%nat) 3 None st1 = Ok (Some 2%nat, st2) /\
    mallocs st2 = [] /\ bufs st2 !! 1%nat = Some None /\
    bufs st2 !! 2%nat = Some (Some (bytes "abc")).
Proof.
  eexists. eexists. split; [vm_compute; reflexivity|].
  split; [reflexivity|]. split; [reflexivity|].
  split; [vm_compute; reflexivity|]. split; [reflexivity|].
  split; reflexivity.
Qed.

(** C8. The count after a failed [blockdata_read] is not the number of
    blocks of the chains in use: with four-byte blocks, reading five bytes
    from a descriptor that holds four builds one block, fails on the second,
    releases the first and returns no chain, but the count is 1. *)
Theorem count_after_failed_read :
  exists st1 st2,
    blockdata_init 4 16 64 true 3 (boot [] [Some x00] [(3, bytes "abcd")]) = Ok (tt, st1) /\
    blockdata_count st1 = 0 /\
    blockdata_read 4 16 64 3 5 st1 = Ok (None, st2) /\
    blockdata_count st2 = 1 /\ blockdata_hwm st2 = 2 /\ blockdata_alloced st2 = 3 /\
    chain (arena st2) (keyblock_free st2) [0; 2]%nat.
Proof.
  eexists. eexists. split; [vm_compute; reflexivity|]. split; [reflexivity|].
  split; [vm_compute; reflexivity|].
  split; [reflexivity|]. split; [reflexivity|]. split; [reflexivity|].
  apply lseg_check_ok. vm_compute. reflexivity.
Qed.

(** C10. A null return without any failure: the first retrieve of no bytes
    without destination returns the scratch pointer, which is still null;
    [whine_malloc] is not called (and would have succeeded). *)
Lemma retrieve_null_without_failure :
  ~ (forall block len st st',
       blockdata_retrieve 40 block len None st = Ok (None, st') ->
       buff_len st < Z.of_nat len /\ grants (mallocs st) = 0%nat).
Proof.
  intros H.
  destruct (H None 0%nat (boot [] [Some x00] []) _ eq_refl) as [Hlt _].
  vm_compute in Hlt. discriminate.
Qed.

(** The accounting invariant on a concrete session with four-byte blocks:
    three blocks at start-up, a seven-byte chain extended by two bytes (which
    makes the pool grow), a second chain, and the release of the first. *)
Lemma session_accounting_example :
  exists live st' ls,
    (blockdata_init 4 16 64 true 3 ;;
     do_calls 4 16 64
       [Alloc (bytes "abcdefg"); Expand 0 (bytes "hi"); Alloc (bytes "x"); Free 0] [])
      (boot [] [Some x00; Some x00] []) = Ok (live, st') /\
    Forall2 (tracks 4 st') live ls /\ NoDup (concat ls) /\
    (Z.of_nat (length (arena st')) < 2 ^ 32 ->
     blockdata_count st' = Z.of_nat (length (concat ls)) /\
     blockdata_count st' <= blockdata_alloced st' /\
     blockdata_hwm st' = fold_right Z.max 0 (count_trace st')).
Proof.
  apply (session_accounting 4 16 64 ltac:(lia) ltac:(lia) ltac:(lia)
           (boot [] [Some x00; Some x00] []) true 3%nat).
  - reflexivity.
  - reflexivity.
  - intros _. split; [lia|]. vm_compute. reflexivity.
Defined.

(** ** Concrete runs of the further properties *)

(** A pool of three blocks of four bytes: block 0 is a chain that holds
    ["abc"], block 1 is a chain that holds ["xyz"], block 2 is free. *)
Definition pool3 (mallocs : list (option byte)) : state :=
  mkState (Some 2%nat) 2 2 3 0 None
    [mkBlock None (bytes "abc?"); mkBlock None (bytes "xyz?");
     mkBlock None (bytes "....")]
    [Some (bytes "--------")] mallocs [] [] [2; 1; 0].

(** conclude from a fact of the theorem that says the same up to computation *)
Ltac from_fact H := etransitivity; [exact H|reflexivity].

Lemma new_block_outcomes_witness :
  exists st',
    new_block 4 16 64 (pool2 []) = Ok (Some 1%nat, st') /\
    blockdata_count st' = 2 /\ blockdata_hwm st' = 2.
Proof.
  destruct (new_block_outcomes 4 16 64 ltac:(lia) ltac:(lia) ltac:(lia) (pool2 []) [1%nat])
    as (r & st' & Hrun & Hpost).
  - apply pool_check_ok. vm_compute. reflexivity.
  - assert (E : exists st1, new_block 4 16 64 (pool2 []) = Ok (Some 1%nat, st1)).
    { eexists. vm_compute. reflexivity. }
    destruct E as (st1 & E). rewrite E in Hrun. injection Hrun as <- <-.
    destruct Hpost as (fl' & _ & _ & Hc & Hh & _).
    exists st1. split; [exact E|]. split; [from_fact Hc|].
    rewrite Hh, Hc. reflexivity.
Defined.

Lemma free_pushes_chain_witness :
  exists st',
    blockdata_free (Some 0%nat) (chain2 []) = Ok (tt, st') /\
    pool_ok 4 st' [0; 1]%nat /\ keyblock_free st' = Some 0%nat /\
    blockdata_count st' = 0 /\ blockdata_hwm st' = 2 /\
    contents (arena st') [0; 1]%nat = bytes "abcdefg?".
Proof.
  destruct (free_pushes_chain 4 16 ltac:(lia) (chain2 []) [] 0%nat [0; 1]%nat)
    as (st' & Hrun & Hp & Hf & Hc & Hh & _ & _ & _ & Hkeys & _).
  - apply pool_check_ok. vm_compute. reflexivity.
  - apply lseg_check_ok. vm_compute. reflexivity.
  - intros x _ Hx. inversion Hx.
  - exists st'. split; [exact Hrun|]. split; [exact Hp|]. split; [exact Hf|].
    split; [from_fact Hc|]. split; [from_fact Hh|].
    destruct (Hkeys 0%nat _ eq_refl) as (b0 & Hb0 & Hk0).
    destruct (Hkeys 1%nat _ eq_refl) as (b1 & Hb1 & Hk1).
    unfold contents. simpl. rewrite Hb0, Hb1, Hk0, Hk1. reflexivity.
Defined.

Lemma alloc_outcome_witness :
  exists h st',
    blockdata_alloc 4 16 64 (Some (bytes "xy")) 2 (pool2 []) = Ok (Some h, st') /\
    blockdata_count st' = 2.
Proof.
  destruct (alloc_outcome 4 16 64 ltac:(lia) ltac:(lia) ltac:(lia)
              (pool2 []) [1%nat] (bytes "xy") 2%nat) as (r & st' & Hrun & Hpost).
  - apply pool_check_ok. vm_compute. reflexivity.
  - vm_compute. lia.
  - assert (E : exists st1,
               blockdata_alloc 4 16 64 (Some (bytes "xy")) 2 (pool2 []) = Ok (Some 1%nat, st1)).
    { eexists. vm_compute. reflexivity. }
    destruct E as (st1 & E). rewrite E in Hrun. injection Hrun as <- <-.
    destruct Hpost as (_ & l & fl' & _ & _ & _ & _ & _ & _ & Hc).
    exists 1%nat, st1. split; [exact E|]. from_fact Hc.
Defined.

Lemma alloc_free_restores_pool_witness :
  exists h st1 st2,
    blockdata_alloc 4 16 64 (Some (bytes "xy")) 2 (pool2 []) = Ok (Some h, st1) /\
    blockdata_free (Some h) st1 = Ok (tt, st2) /\
    pool_ok 4 st2 [1%nat] /\ blockdata_count st2 = 1.
Proof.
  destruct (alloc_free_restores_pool 4 16 64 ltac:(lia) ltac:(lia) ltac:(lia)
              (pool2 []) [1%nat] (bytes "xy") 2%nat)
    as (h & st1 & st2 & H1 & H2 & Hp & _ & Hc & _).
  - apply pool_check_ok. vm_compute. reflexivity.
  - vm_compute. lia.
  - vm_compute. lia.
  - exists h, st1, st2. split; [exact H1|]. split; [exact H2|].
    split; [exact Hp|]. from_fact Hc.
Defined.

Lemma expand_appends_witness :
  exists st' l',
    blockdata_expand 4 16 64 (Some 0%nat) 3 (Some (bytes "defgh")) 5 (pool2 []) = Ok (1, st') /\
    chain (arena st') (Some 0%nat) ([0%nat] ++ l') /\
    length ([0%nat] ++ l') = 2%nat /\
    take 8 (contents (arena st') ([0%nat] ++ l')) = bytes "abcdefgh".
Proof.
  destruct (expand_appends 4 16 64 ltac:(lia) ltac:(lia) ltac:(lia)
              (pool2 []) [1%nat] 0%nat [0%nat] 3%nat (bytes "defgh") 5%nat)
    as (st' & l' & Hrun & Hc & Hlen & Hcont & _).
  - apply pool_check_ok. vm_compute. reflexivity.
  - apply lseg_check_ok. vm_compute. reflexivity.
  - intros x Hx Hx1. apply list_elem_of_singleton in Hx, Hx1. congruence.
  - reflexivity.
  - vm_compute. lia.
  - vm_compute. lia.
  - exists st', l'. split; [exact Hrun|]. split; [exact Hc|].
    split; [from_fact Hlen|]. from_fact Hcont.
Defined.

Lemma expand_twice_witness :
  exists st1 st2 l2,
    blockdata_expand 4 16 64 (Some 0%nat) 3 (Some (bytes "de")) 2 (pool2 [Some x00]) =
      Ok (1, st1) /\
    blockdata_expand 4 16 64 (Some 0%nat) 5 (Some (bytes "fghij")) 5 st1 = Ok (1, st2) /\
    chain (arena st2) (Some 0%nat) l2 /\ length l2 = 3%nat /\
    take 10 (contents (arena st2) l2) = bytes "abcdefghij".
Proof.
  destruct (expand_twice 4 16 64 ltac:(lia) ltac:(lia) ltac:(lia)
              (pool2 [Some x00]) [1%nat] 0%nat [0%nat] 3%nat (bytes "de") (bytes "fghij"))
    as (st1 & st2 & l2 & H1 & H2 & Hc & Hlen & Hcont).
  - apply pool_check_ok. vm_compute. reflexivity.
  - apply lseg_check_ok. vm_compute. reflexivity.
  - intros x Hx Hx1. apply list_elem_of_singleton in Hx, Hx1. congruence.
  - reflexivity.
  - vm_compute. lia.
  - exists st1, st2, l2. split; [exact H1|]. split; [exact H2|]. split; [exact Hc|].
    split; [from_fact Hlen|]. from_fact Hcont.
Defined.

Lemma expand_short_chain_witness :
  (exists st',
     blockdata_expand 4 16 64 (Some 0%nat) 13 None 0 (chain2 []) = Ok (0, st') /\
     pool_ok 4 st' [0; 1]%nat /\ blockdata_count st' = 0) /\
  blockdata_expand 4 16 64 (Some 0%nat) 9 None 0 (chain2 []) = Ok (1, chain2 []) /\
  blockdata_expand 4 16 64 (Some 0%nat) 9 (Some (bytes "x")) 1 (chain2 []) = Crash.
Proof.
  assert (Hp : pool_ok 4 (chain2 []) []) by (apply pool_check_ok; vm_compute; reflexivity).
  assert (Hc : chain (arena (chain2 [])) (Some 0%nat) [0; 1]%nat)
    by (apply lseg_check_ok; vm_compute; reflexivity).
  assert (Hd : forall x : nat, x ∈ [0; 1]%nat -> x ∉ ([] : list nat))
    by (intros x _ Hx; inversion Hx).
  split; [|split].
  - destruct (expand_short_chain 4 16 64 ltac:(lia) (chain2 []) [] 0%nat [0; 1]%nat
                13%nat None 0%nat Hp Hc Hd) as (Hfar & _ & _).
    + vm_compute. lia.
    + destruct Hfar as (st' & Hrun & Hp' & Hcnt); [vm_compute; lia|].
      exists st'. split; [exact Hrun|]. split; [exact Hp'|]. from_fact Hcnt.
  - destruct (expand_short_chain 4 16 64 ltac:(lia) (chain2 []) [] 0%nat [0; 1]%nat
                9%nat None 0%nat Hp Hc Hd) as (_ & Hnear & _).
    + vm_compute. lia.
    + apply Hnear; [vm_compute; lia|reflexivity].
  - destruct (expand_short_chain 4 16 64 ltac:(lia) (chain2 []) [] 0%nat [0; 1]%nat
                9%nat (Some (bytes "x")) 1%nat Hp Hc Hd) as (_ & _ & Hcrash).
    + vm_compute. lia.
    + apply Hcrash; [vm_compute; lia|lia].
Defined.

Lemma retrieve_stops_at_chain_end_witness :
  exists bs,
    blockdata_retrieve 4 (Some 0%nat) 7 (Some 0%nat) (pool2 []) =
      Ok (Some 0%nat, set_bufs bs (pool2 [])) /\
    bs !! 0%nat = Some (Some (bytes "abc?----")).
Proof.
  destruct (retrieve_stops_at_chain_end 4 ltac:(lia) (pool2 []) (Some 0%nat) [0%nat]
              7%nat 0%nat (bytes "--------")) as (bs & Hrun & Hb & _).
  - apply lseg_check_ok. vm_compute. reflexivity.
  - apply keys_check_ok. vm_compute. reflexivity.
  - reflexivity.
  - vm_compute. lia.
  - exists bs. split; [exact Hrun|]. from_fact Hb.
Defined.

Lemma other_chains_untouched_witness :
  (exists r st',
     blockdata_alloc_real 4 16 64 0 (Some (bytes "pq")) 2 (pool3 []) = Ok (r, st') /\
     arena st' !! 1%nat = Some (mkBlock None (bytes "xyz?"))) /\
  (exists r st',
     blockdata_expand 4 16 64 (Some 0%nat) 3 (Some (bytes "defgh")) 5 (pool3 []) = Ok (r, st') /\
     arena st' !! 1%nat = Some (mkBlock None (bytes "xyz?"))) /\
  (exists st',
     blockdata_free (Some 0%nat) (pool3 []) = Ok (tt, st') /\
     arena st' !! 1%nat = Some (mkBlock None (bytes "xyz?"))).
Proof.
  destruct (other_chains_untouched 4 16 64 ltac:(lia) ltac:(lia) ltac:(lia)
              (pool3 []) [2%nat] 1%nat) as (Halloc & Hexpand & Hfree).
  - apply pool_check_ok. vm_compute. reflexivity.
  - vm_compute. lia.
  - intros Hx. apply list_elem_of_singleton in Hx. discriminate.
  - assert (Hc : chain (arena (pool3 [])) (Some 0%nat) [0%nat])
      by (apply lseg_check_ok; vm_compute; reflexivity).
    assert (Hd : forall y : nat, y ∈ [0%nat] -> y ∉ [2%nat]).
    { intros y Hy Hy2. apply list_elem_of_singleton in Hy, Hy2. congruence. }
    assert (Hx : 1%nat ∉ [0%nat]).
    { intros Hx. apply list_elem_of_singleton in Hx. discriminate. }
    split; [|split].
    + destruct (Halloc 0 (Some (bytes "pq")) 2%nat) as (r & st' & Hrun & Hfr).
      { intros d [= <-]. vm_compute. lia. }
      exists r, st'. split; [exact Hrun|]. from_fact Hfr.
    + destruct (Hexpand 0%nat [0%nat] 3%nat (Some (bytes "defgh")) (bytes "defgh") 5%nat
                  Hc Hd eq_refl) as (r & st' & Hrun & Hfr).
      { intros _. split; [reflexivity|]. vm_compute. lia. }
      { exact Hx. }
      exists r, st'. split; [exact Hrun|]. from_fact Hfr.
    + destruct (Hfree 0%nat [0%nat] Hc Hd Hx) as (st' & Hrun & Hfr).
      exists st'. split; [exact Hrun|]. from_fact Hfr.
Defined.

Lemma init_preallocates_witness :
  exists st1 st2,
    blockdata_init 4 16 64 true 3 (boot [] [Some x00] []) = Ok (tt, st1) /\
    pool_ok 4 st1 [0; 1; 2]%nat /\ blockdata_alloced st1 = 3 /\
    blockdata_alloc 4 16 64 (Some (bytes "abcdefg")) 7 st1 = Ok (Some 0%nat, st2) /\
    chain (arena st2) (Some 0%nat) [0; 1]%nat /\
    mallocs st2 = [] /\ blockdata_alloced st2 = 3.
Proof.
  destruct (init_preallocates 4 16 64 ltac:(lia) ltac:(lia) ltac:(lia)
              (boot [] [Some x00] []) 3%nat x00 [] (bytes "abcdefg") 7%nat)
    as (st1 & st2 & Hinit & Hp & _ & _ & Ha & Hrun & Hc & Hm & Ha2).
  - apply keys_check_ok. vm_compute. reflexivity.
  - lia.
  - vm_compute. reflexivity.
  - reflexivity.
  - vm_compute. lia.
  - vm_compute. lia.
  - exists st1, st2. split; [exact Hinit|]. split; [exact Hp|].
    split; [from_fact Ha|]. split; [exact Hrun|]. split; [exact Hc|].
    split; [exact Hm|]. from_fact Ha2.
Defined.

Lemma init_cachesize_out_of_range_witness :
  blockdata_init 4 16 64 true 0 (boot [] [Some x00] []) = Crash.
Proof.
  apply (init_cachesize_out_of_range 4 16 64 ltac:(lia) ltac:(lia) ltac:(lia)
           (boot [] [Some x00] []) x00 [] 0).
  - reflexivity.
  - left. lia.
Defined.

Lemma retrieve_scratch_fresh_witness :
  exists st',
    blockdata_retrieve 4 (Some 0%nat) 7 None (set_buff (Some 0%nat) (chain2 [Some x00])) =
      Ok (Some 1%nat, st') /\
    bufs st' !! 1%nat = Some (Some (bytes "abcdefg")) /\
    bufs st' !! 0%nat = Some None /\
    buff st' = Some 1%nat /\ buff_len st' = 0.
Proof.
  destruct (retrieve_scratch_fresh 4 ltac:(lia) (set_buff (Some 0%nat) (chain2 [Some x00]))
              (Some 0%nat) [0; 1]%nat 7%nat x00 [])
    as (st' & Hrun & Hb & Hfreed & Hbuff & Hlen & _).
  - apply lseg_check_ok. vm_compute. reflexivity.
  - apply keys_check_ok. vm_compute. reflexivity.
  - vm_compute. lia.
  - vm_compute. reflexivity.
  - reflexivity.
  - intros p [= <-]. eexists. reflexivity.
  - exists st'. split; [exact Hrun|]. split; [from_fact Hb|].
    split; [apply Hfreed; reflexivity|]. split; [exact Hbuff|]. from_fact Hlen.
Defined.

Lemma write_emits_chain_witness :
  exists ss,
    blockdata_write 4 (Some 0%nat) 7 3 (set_streams [(3, bytes "h:")] (chain2 [])) =
      Ok (tt, set_streams ss (chain2 [])) /\
    pending 3 (set_streams ss (chain2 [])) = Some (bytes "h:abcdefg").
Proof.
  pose proof (write_emits_chain 4 ltac:(lia) (set_streams [(3, bytes "h:")] (chain2 []))
                (Some 0%nat) [0; 1]%nat 7%nat 3) as H.
  assert (E : pending 3 (set_streams [(3, bytes "h:")] (chain2 [])) = Some (bytes "h:"))
    by reflexivity.
  rewrite E in H. destruct H as (ss & Hrun & Hs & _).
  - apply lseg_check_ok. vm_compute. reflexivity.
  - apply keys_check_ok. vm_compute. reflexivity.
  - exists ss. split; [exact Hrun|]. from_fact Hs.
Defined.

Lemma read_builds_chain_witness :
  exists h st' l,
    blockdata_read 4 16 64 3 6 (set_streams [(3, bytes "abcdefgh")] (pool2 [Some x00])) =
      Ok (Some h, st') /\
    chain (arena st') (Some h) l /\ length l = 2%nat /\
    take 6 (contents (arena st') l) = bytes "abcdef" /\
    pending 3 st' = Some (bytes "gh").
Proof.
  destruct (read_builds_chain 4 16 64 ltac:(lia) ltac:(lia) ltac:(lia)
              (set_streams [(3, bytes "abcdefgh")] (pool2 [Some x00])) [1%nat] 3
              (bytes "abcdefgh") 6%nat)
    as (h & st' & l & Hrun & Hc & Hlen & Hcont & Hs & _).
  - apply pool_check_ok. vm_compute. reflexivity.
  - reflexivity.
  - vm_compute. lia.
  - vm_compute. lia.
  - exists h, st', l. split; [exact Hrun|]. split; [exact Hc|].
    split; [from_fact Hlen|]. split; [from_fact Hcont|].
    from_fact Hs.
Defined.

Lemma short_read_keeps_a_block_witness :
  exists st' fl',
    blockdata_read 4 16 64 3 5 (set_streams [(3, bytes "abcd")] (pool2 [Some x00])) =
      Ok (None, st') /\
    pool_ok 4 st' fl' /\ blockdata_count st' = 2.
Proof.
  destruct (short_read_keeps_a_block 4 16 64 ltac:(lia) ltac:(lia) ltac:(lia)
              (set_streams [(3, bytes "abcd")] (pool2 [Some x00])) [1%nat] 3
              (bytes "abcd") 5%nat)
    as (st' & fl' & Hrun & Hp & Hc).
  - apply pool_check_ok. vm_compute. reflexivity.
  - reflexivity.
  - vm_compute. lia.
  - vm_compute. lia.
  - exists st', fl'. split; [exact Hrun|]. split; [exact Hp|]. from_fact Hc.
Defined.

Lemma write_read_round_trip_witness :
  exists st1 h' st2 l',
    blockdata_write 4 (Some 0%nat) 3 3 (set_streams [(3, [])] (pool2 [Some x00])) =
      Ok (tt, st1) /\
    blockdata_read 4 16 64 3 3 st1 = Ok (Some h', st2) /\
    chain (arena st2) (Some h') l' /\
    take 3 (contents (arena st2) l') = bytes "abc" /\
    contents (arena st2) [0%nat] = bytes "abc?" /\
    pending 3 st2 = Some [].
Proof.
  destruct (write_read_round_trip 4 16 64 ltac:(lia) ltac:(lia) ltac:(lia)
              (set_streams [(3, [])] (pool2 [Some x00])) [1%nat] 0%nat [0%nat] 3%nat 3)
    as (st1 & h' & st2 & l' & Hw & Hr & Hc & _ & Hcont & _ & Hold & Hs).
  - apply pool_check_ok. vm_compute. reflexivity.
  - apply lseg_check_ok. vm_compute. reflexivity.
  - intros x Hx Hx1. apply list_elem_of_singleton in Hx, Hx1. congruence.
  - vm_compute. lia.
  - reflexivity.
  - vm_compute. lia.
  - exists st1, h', st2, l'. split; [exact Hw|]. split; [exact Hr|]. split; [exact Hc|].
    split; [from_fact Hcont|]. split; [from_fact Hold|exact Hs].
Defined.

Lemma double_free_closes_free_list_witness :
  exists st1 st2,
    blockdata_free (Some 0%nat) (pool2 []) = Ok (tt, st1) /\
    blockdata_free (Some 0%nat) st1 = Ok (tt, st2) /\
    lseg (arena st2) (Some 0%nat) [0; 1]%nat (Some 0%nat) /\
    blockdata_count st2 = 4294967294 /\
    blockdata_free (Some 0%nat) st2 = Diverge.
Proof.
  destruct (double_free_closes_free_list 4 16 ltac:(lia) (pool2 []) [1%nat] 0%nat [0%nat])
    as (st1 & st2 & H1 & H2 & _ & Hcyc & _ & Hcnt & Hdiv).
  - apply pool_check_ok. vm_compute. reflexivity.
  - apply lseg_check_ok. vm_compute. reflexivity.
  - intros x Hx Hx1. apply list_elem_of_singleton in Hx, Hx1. congruence.
  - exists st1, st2. split; [exact H1|]. split; [exact H2|]. split; [exact Hcyc|].
    split; [from_fact Hcnt|exact Hdiv].
Defined.

Lemma double_free_hands_out_twice_witness :
  exists st1 st2 st3,
    blockdata_free (Some 0%nat) (pool2 []) = Ok (tt, st1) /\
    blockdata_free (Some 0%nat) st1 = Ok (tt, st2) /\
    new_blocks 4 16 64 3 st2 = Ok ([Some 0; Some 1; Some 0]%nat, st3).
Proof.
  destruct (double_free_hands_out_twice 4 16 64 ltac:(lia) (pool2 []) [1%nat] 0%nat [0%nat])
    as (st1 & st2 & st3 & H1 & H2 & H3 & _).
  - apply pool_check_ok. vm_compute. reflexivity.
  - apply lseg_check_ok. vm_compute. reflexivity.
  - intros x Hx Hx1. apply list_elem_of_singleton in Hx, Hx1. congruence.
  - exists st1, st2, st3. split; [exact H1|]. split; [exact H2|exact H3].
Defined.

Lemma alloc_null_source_reads_descriptor_0_witness :
  exists h st' l,
    blockdata_alloc 4 16 64 None 3 (set_streams [(0, bytes "stdin")] (pool2 [])) =
      Ok (Some h, st') /\
    chain (arena st') (Some h) l /\
    take 3 (contents (arena st') l) = bytes "std" /\
    pending 0 st' = Some (bytes "in").
Proof.
  destruct (alloc_null_source_reads_descriptor_0 4 16 64 ltac:(lia) ltac:(lia) ltac:(lia)
              (set_streams [(0, bytes "stdin")] (pool2 [])) [1%nat] (bytes "stdin") 3%nat)
    as (h & st' & l & Hrun & Hc & Hcont & Hs).
  - apply pool_check_ok. vm_compute. reflexivity.
  - reflexivity.
  - lia.
  - vm_compute. lia.
  - vm_compute. lia.
  - exists h, st', l. split; [exact Hrun|]. split; [exact Hc|].
    split; [from_fact Hcont|]. from_fact Hs.
Defined.

Lemma empty_chain_then_expand_witness :
  exists h st1 st2 st3,
    blockdata_alloc 4 16 64 None 0 (boot [Some (bytes "-")] [Some x00] []) = Ok (Some h, st1) /\
    chain (arena st1) (Some h) [h] /\
    blockdata_expand 4 16 64 (Some h) 0 (Some (bytes "x")) 1 st1 = Ok (1, st2) /\
    blockdata_retrieve 4 (Some h) 1 (Some 0%nat) st2 = Ok (Some 0%nat, st3) /\
    bufs st3 !! 0%nat = Some (Some (bytes "x")) /\
    blockdata_count st2 = 1.
Proof.
  destruct (empty_chain_then_expand 4 16 64 ltac:(lia) ltac:(lia) ltac:(lia)
              (boot [Some (bytes "-")] [Some x00] []) [] (bytes "x") 0%nat (bytes "-"))
    as (h & st1 & st2 & st3 & H1 & Hc & H2 & H3 & Hb & Hcnt).
  - apply pool_check_ok. vm_compute. reflexivity.
  - vm_compute. lia.
  - reflexivity.
  - vm_compute. lia.
  - exists h, st1, st2, st3. split; [exact H1|]. split; [exact Hc|]. split; [exact H2|].
    split; [exact H3|]. split; [from_fact Hb|]. from_fact Hcnt.
Defined.

Lemma freed_bytes_survive_reuse_witness :
  exists st1 st2,
    blockdata_free (Some 0%nat) (pool2 []) = Ok (tt, st1) /\
    blockdata_alloc 4 16 64 (Some (bytes "Z")) 1 st1 = Ok (Some 0%nat, st2) /\
    arena st2 !! 0%nat = Some (mkBlock None (bytes "Zbc?")).
Proof.
  destruct (freed_bytes_survive_reuse 4 16 64 ltac:(lia) (pool2 []) [1%nat] 0%nat
              (mkBlock None (bytes "abc?")) (bytes "Z") 1%nat)
    as (st1 & st2 & Hfree & Hrun & Hb).
  - apply pool_check_ok. vm_compute. reflexivity.
  - apply lseg_check_ok. vm_compute. reflexivity.
  - intros Hx. apply list_elem_of_singleton in Hx. discriminate.
  - reflexivity.
  - lia.
  - vm_compute. lia.
  - exists st1, st2. split; [exact Hfree|]. split; [exact Hrun|]. from_fact Hb.
Defined.

Lemma exhaustion_passes_witness :
  exists h st2 l,
    blockdata_alloc 4 16 64 (Some (bytes "abcdefg")) 7 (boot [] [None; Some x00] []) =
      Ok (None, boot [] [Some x00] []) /\
    blockdata_alloc 4 16 64 (Some (bytes "abcdefg")) 7 (boot [] [Some x00] []) =
      Ok (Some h, st2) /\
    chain (arena st2) (Some h) l /\ length l = 2%nat /\ blockdata_count st2 = 2.
Proof.
  destruct (exhaustion_passes 4 16 64 ltac:(lia) ltac:(lia) ltac:(lia)
              (boot [] [None; Some x00] []) x00 [] (bytes "abcdefg") 7%nat)
    as (h & st2 & l & H1 & H2 & Hc & Hlen & Hcnt).
  - apply pool_check_ok. vm_compute. reflexivity.
  - reflexivity.
  - vm_compute. lia.
  - vm_compute. lia.
  - exists h, st2, l. split; [exact H1|]. split; [exact H2|]. split; [exact Hc|].
    split; [from_fact Hlen|from_fact Hcnt].
Defined.
